(** * Deterministic pipeline: a shallow embedding and its verified properties

    The development follows the layers of the Python package:
    [utils] (hashing and canonical JSON), [input_layer], [processing_layer],
    [provenance_layer], [output_layer] and the orchestrator [run.main].

    Python values are modelled as the program sees them:
    - [str] is a sequence of Unicode code points ([pystr]);
    - [bytes] is a list of [Byte.byte];
    - a [dict] is an insertion-ordered association list with unique keys;
    - an exception is a value of [exn], and a call that may raise returns
      a [result];
    - the file system, the clock and the platform descriptors live in an
      explicit [world] threaded through the I/O monad [IO], which also
      records the I/O events in order.

    [hashlib.sha256], the UTF-8 codec and [json.dumps] are written out and
    run; the float rendering, [json.loads] and the Unicode case tables are
    taken from a [Runtime].  [json.dumps] is written twice: [json_encode]
    on the values the pipeline holds, which come from [json.loads], and
    [Obj.dumps] on any object a caller can pass, with the recursion limit
    and the integer digit limit of the interpreter.  [exists()] and
    [is_file()] always answer; a file can be missing, unreadable or of the
    wrong type, and no other failure of the operating system is in the
    [world].  Text is written as on POSIX, without newline translation. *)

From Stdlib Require Import List ZArith NArith Bool String Ascii Lia.
From Stdlib Require Import Permutation Sorted.
From Stdlib.Strings Require Byte.
From Stdlib Require DecimalString.
Import ListNotations.

Set Warnings "-register-all".

Local Open Scope N_scope.
Local Open Scope list_scope.

(* ================================================================== *)
(** * Python strings and bytes *)
(* ================================================================== *)

(** A Python [str]: its code points, each below [0x110000]. *)
Definition pystr := list N.

(** A Python [bytes] object. *)
Definition bytes := list Byte.byte.

Definition byte_of_N (n : N) : Byte.byte :=
  match Byte.of_N (n mod 256) with
  | Some b => b
  | None => Byte.x00
  end.

(** A source literal, written as a Rocq string of ASCII characters. *)
Definition py (s : string) : pystr :=
  map N_of_ascii (list_ascii_of_string s).
Arguments py s : simpl never.

(** A bytes literal [b"..."]. *)
Definition pyb (s : string) : bytes :=
  map (fun a => byte_of_N (N_of_ascii a)) (list_ascii_of_string s).

Fixpoint str_eqb (a b : pystr) : bool :=
  match a, b with
  | [], [] => true
  | x :: a', y :: b' => (x =? y) && str_eqb a' b'
  | _, _ => false
  end.

Fixpoint bytes_eqb (a b : bytes) : bool :=
  match a, b with
  | [], [] => true
  | x :: a', y :: b' => Byte.eqb x y && bytes_eqb a' b'
  | _, _ => false
  end.

(** [a < b] on [str]: lexicographic on code points. *)
Fixpoint str_compare (a b : pystr) : comparison :=
  match a, b with
  | [], [] => Eq
  | [], _ :: _ => Lt
  | _ :: _, [] => Gt
  | x :: a', y :: b' =>
      match N.compare x y with
      | Eq => str_compare a' b'
      | c => c
      end
  end.

Definition str_ltb (a b : pystr) : bool :=
  match str_compare a b with Lt => true | _ => false end.

(* ------------------------------------------------------------------ *)
(** ** Exceptions *)

(** The messages the program builds; the arguments of the f-strings are
    kept as data. *)
Inductive message :=
| MsgNoInputFiles
| MsgInputDoesNotExist (p : pystr)
| MsgInputNotAFile (p : pystr)
| MsgConfigDoesNotExist (p : pystr)
| MsgConfigNotAFile (p : pystr)
| MsgConfigParse
| MsgConfigNotObject
| MsgConfigMissingKeys (ks : list pystr)
| MsgConfigTransform
| MsgConfigSeed
| MsgVersionEmpty
| MsgMissingParameter (k : pystr)
| MsgUnsupportedTransform
| MsgRuntime.

(** The exception classes that occur: the three of [errors.py] and the
    built-in ones raised by the program or by the runtime under it. *)
Inductive exn_class :=
| PipelineError
| InputValidationError
| ConfigError
| ValueError
| UnicodeDecodeError
| UnicodeEncodeError
| TypeError
| KeyError
| OSError
| RecursionError
| Exception.

Record exn := Raise { exn_cls : exn_class; exn_msg : message }.

(** The direct base class; [Exception] is the root here, and
    [RecursionError] is put under it without its base [RuntimeError]. *)
Definition base_class (c : exn_class) : option exn_class :=
  match c with
  | PipelineError => Some Exception
  | InputValidationError => Some PipelineError
  | ConfigError => Some PipelineError
  | ValueError => Some Exception
  | UnicodeDecodeError => Some ValueError
  | UnicodeEncodeError => Some ValueError
  | TypeError => Some Exception
  | KeyError => Some Exception
  | OSError => Some Exception
  | RecursionError => Some Exception
  | Exception => None
  end.

Definition exn_class_eqb (a b : exn_class) : bool :=
  match a, b with
  | PipelineError, PipelineError
  | InputValidationError, InputValidationError
  | ConfigError, ConfigError
  | ValueError, ValueError
  | UnicodeDecodeError, UnicodeDecodeError
  | UnicodeEncodeError, UnicodeEncodeError
  | TypeError, TypeError
  | KeyError, KeyError
  | OSError, OSError
  | RecursionError, RecursionError
  | Exception, Exception => true
  | _, _ => false
  end.

(** [issubclass c d], by walking the base classes (the hierarchy is three
    levels deep). *)
Fixpoint issubclass_fuel (n : nat) (c d : exn_class) : bool :=
  exn_class_eqb c d ||
  match n with
  | O => false
  | S n' =>
      match base_class c with
      | Some b => issubclass_fuel n' b d
      | None => false
      end
  end.

Definition issubclass := issubclass_fuel 3.

(** What an [except d as e] clause tests. *)
Definition isinstance_exn (e : exn) (d : exn_class) : bool :=
  issubclass (exn_cls e) d.



(** A call that returns or raises. *)
Inductive result (A : Type) :=
| Ok (a : A)
| Err (e : exn).
Arguments Ok {A} a.
Arguments Err {A} e.

Definition rbind {A B} (r : result A) (f : A -> result B) : result B :=
  match r with
  | Ok a => f a
  | Err e => Err e
  end.

Declare Scope result_scope.
Delimit Scope result_scope with result.
Notation "x <- r ;; k" := (rbind r (fun x => k))
  (at level 61, r at next level, right associativity) : result_scope.

Definition raise {A} (c : exn_class) (m : message) : result A :=
  Err (Raise c m).

Definition is_ok {A} (r : result A) : bool :=
  match r with Ok _ => true | Err _ => false end.

(* ------------------------------------------------------------------ *)
(** ** UTF-8 *)

Definition is_surrogate (c : N) : bool :=
  (0xD800 <=? c) && (c <=? 0xDFFF).

(** The bytes of one code point; [None] for a surrogate, which the strict
    codec refuses. *)
Definition utf8_encode_char (c : N) : option bytes :=
  if c <? 0x80 then Some [byte_of_N c]
  else if c <? 0x800 then
    Some [byte_of_N (0xC0 + N.shiftr c 6);
          byte_of_N (0x80 + N.land c 0x3F)]
  else if is_surrogate c then None
  else if c <? 0x10000 then
    Some [byte_of_N (0xE0 + N.shiftr c 12);
          byte_of_N (0x80 + N.land (N.shiftr c 6) 0x3F);
          byte_of_N (0x80 + N.land c 0x3F)]
  else if c <? 0x110000 then
    Some [byte_of_N (0xF0 + N.shiftr c 18);
          byte_of_N (0x80 + N.land (N.shiftr c 12) 0x3F);
          byte_of_N (0x80 + N.land (N.shiftr c 6) 0x3F);
          byte_of_N (0x80 + N.land c 0x3F)]
  else None.

(** [s.encode("utf-8")]. *)
Fixpoint str_encode (s : pystr) : result bytes :=
  match s with
  | [] => Ok []
  | c :: s' =>
      match utf8_encode_char c with
      | None => raise UnicodeEncodeError MsgRuntime
      | Some bs =>
          match str_encode s' with
          | Ok r => Ok (bs ++ r)
          | Err e => Err e
          end
      end
  end.

Definition is_cont (b : N) : bool := (0x80 <=? b) && (b <=? 0xBF).

(** [data.decode("utf-8", errors="strict")]: overlong forms, surrogates,
    code points above [0x10FFFF] and truncated sequences are refused. *)
Fixpoint bytes_decode (bs : bytes) : result pystr :=
  let bad := raise UnicodeDecodeError MsgRuntime in
  let cons_ok c r :=
    match r with Ok s => Ok (c :: s) | Err e => Err e end in
  match bs with
  | [] => Ok []
  | x0 :: r0 =>
      let b0 := Byte.to_N x0 in
      if b0 <? 0x80 then cons_ok b0 (bytes_decode r0)
      else if b0 <? 0xC0 then bad
      else if b0 <? 0xE0 then
        match r0 with
        | x1 :: r1 =>
            let b1 := Byte.to_N x1 in
            let c := N.shiftl (N.land b0 0x1F) 6 + N.land b1 0x3F in
            if is_cont b1 && (0x80 <=? c)
            then cons_ok c (bytes_decode r1) else bad
        | _ => bad
        end
      else if b0 <? 0xF0 then
        match r0 with
        | x1 :: x2 :: r2 =>
            let b1 := Byte.to_N x1 in
            let b2 := Byte.to_N x2 in
            let c := N.shiftl (N.land b0 0x0F) 12
                     + N.shiftl (N.land b1 0x3F) 6 + N.land b2 0x3F in
            if is_cont b1 && is_cont b2 && (0x800 <=? c)
               && negb (is_surrogate c)
            then cons_ok c (bytes_decode r2) else bad
        | _ => bad
        end
      else if b0 <? 0xF8 then
        match r0 with
        | x1 :: x2 :: x3 :: r3 =>
            let b1 := Byte.to_N x1 in
            let b2 := Byte.to_N x2 in
            let b3 := Byte.to_N x3 in
            let c := N.shiftl (N.land b0 0x07) 18
                     + N.shiftl (N.land b1 0x3F) 12
                     + N.shiftl (N.land b2 0x3F) 6 + N.land b3 0x3F in
            if is_cont b1 && is_cont b2 && is_cont b3
               && (0x10000 <=? c) && (c <? 0x110000)
            then cons_ok c (bytes_decode r3) else bad
        | _ => bad
        end
      else bad
  end.

(** Case mapping on ASCII strings, where [str.upper] and [str.lower] act
    letter by letter. *)
Definition is_ascii_str (s : pystr) : bool :=
  forallb (fun c => c <? 0x80) s.

Definition ascii_upper_char (c : N) : N :=
  if (0x61 <=? c) && (c <=? 0x7A) then c - 0x20 else c.

Definition ascii_lower_char (c : N) : N :=
  if (0x41 <=? c) && (c <=? 0x5A) then c + 0x20 else c.

(* ================================================================== *)
(** * hashlib.sha256 *)
(* ================================================================== *)

Module SHA256.

Definition mask32 : N := 0xFFFFFFFF.
Definition add32 (a b : N) : N := N.land (a + b) mask32.
Definition rotr (n x : N) : N :=
  N.lor (N.shiftr x n) (N.land (N.shiftl x (32 - n)) mask32).
Definition not32 (x : N) : N := N.lxor x mask32.

Definition Ch (x y z : N) : N :=
  N.lxor (N.land x y) (N.land (not32 x) z).
Definition Maj (x y z : N) : N :=
  N.lxor (N.lxor (N.land x y) (N.land x z)) (N.land y z).
Definition Sigma0 (x : N) : N :=
  N.lxor (N.lxor (rotr 2 x) (rotr 13 x)) (rotr 22 x).
Definition Sigma1 (x : N) : N :=
  N.lxor (N.lxor (rotr 6 x) (rotr 11 x)) (rotr 25 x).
Definition sigma0 (x : N) : N :=
  N.lxor (N.lxor (rotr 7 x) (rotr 18 x)) (N.shiftr x 3).
Definition sigma1 (x : N) : N :=
  N.lxor (N.lxor (rotr 17 x) (rotr 19 x)) (N.shiftr x 10).

Definition primes : list N :=
  [2; 3; 5; 7; 11; 13; 17; 19; 23; 29; 31; 37; 41; 43; 47; 53; 59; 61; 67;
   71; 73; 79; 83; 89; 97; 101; 103; 107; 109; 113; 127; 131; 137; 139; 149;
   151; 157; 163; 167; 173; 179; 181; 191; 193; 197; 199; 211; 223; 227; 229;
   233; 239; 241; 251; 257; 263; 269; 271; 277; 281; 283; 293; 307; 311].

(** The integer cube root, one bit at a time from bit [b - 1] down. *)
Fixpoint cube_root (b : nat) (n r : N) : N :=
  match b with
  | O => r
  | S b' =>
      let r' := r + N.shiftl 1 (N.of_nat b') in
      cube_root b' n (if r' * r' * r' <=? n then r' else r)
  end.

(** The round constants: the first 32 bits of the fractional parts of the
    cube roots of the first 64 primes. *)
Definition K : list N :=
  Eval vm_compute in
    map (fun p => N.land (cube_root 36 (p * 2 ^ 96) 0) mask32) primes.

(** The initial hash value: the same for the square roots of the first 8
    primes. *)
Definition H0 : list N :=
  Eval vm_compute in
    map (fun p => N.land (N.sqrt (p * 2 ^ 64)) mask32) (firstn 8 primes).

(** [n] as [k] big-endian bytes. *)
Fixpoint be_bytes (k : nat) (n : N) : list N :=
  match k with
  | O => []
  | S k' => N.land (N.shiftr n (8 * N.of_nat k')) 0xFF :: be_bytes k' n
  end.

Definition pad (msg : list N) : list N :=
  let len := N.of_nat (List.length msg) in
  let zeros := (119 - len mod 64) mod 64 in
  msg ++ [0x80] ++ repeat 0 (N.to_nat zeros) ++ be_bytes 8 (8 * len).

(** Big-endian 32-bit words of a byte sequence. *)
Fixpoint words (bs : list N) : list N :=
  match bs with
  | a :: b :: c :: d :: r =>
      (N.shiftl a 24 + N.shiftl b 16 + N.shiftl c 8 + d) :: words r
  | _ => []
  end.

Fixpoint blocks (n : nat) (ws : list N) : list (list N) :=
  match n with
  | O => []
  | S n' =>
      match ws with
      | [] => []
      | _ => firstn 16 ws :: blocks n' (skipn 16 ws)
      end
  end.

(** The message schedule, extended from 16 to 64 words. *)
Fixpoint schedule (n : nat) (w : list N) : list N :=
  match n with
  | O => w
  | S n' =>
      let t := List.length w in
      let g i := nth (t - i) w 0 in
      schedule n'
        (w ++ [add32 (add32 (sigma1 (g 2%nat)) (g 7%nat))
                     (add32 (sigma0 (g 15%nat)) (g 16%nat))])
  end.

Definition round (st : list N) (kw : N * N) : list N :=
  match st with
  | [a; b; c; d; e; f; g; h] =>
      let t1 := add32 (add32 (add32 h (Sigma1 e)) (Ch e f g))
                      (add32 (fst kw) (snd kw)) in
      let t2 := add32 (Sigma0 a) (Maj a b c) in
      [add32 t1 t2; a; b; c; add32 d t1; e; f; g]
  | _ => st
  end.

Definition compress (hs : list N) (blk : list N) : list N :=
  let w := schedule 48 blk in
  let st := fold_left round (combine K w) hs in
  map (fun p => add32 (fst p) (snd p)) (combine hs st).

(** The 32 bytes of the digest. *)
Definition digest (msg : bytes) : list N :=
  let ws := words (pad (map Byte.to_N msg)) in
  let hs := fold_left compress (blocks (List.length ws) ws) H0 in
  flat_map (be_bytes 4) hs.

Definition hex_digit (n : N) : N :=
  if n <? 10 then 0x30 + n else 0x61 + (n - 10).

(** Lowercase hexadecimal, two digits a byte. *)
Definition hex (bs : list N) : pystr :=
  flat_map (fun b => [hex_digit (N.shiftr b 4); hex_digit (N.land b 0xF)]) bs.

(** The hash object: the arguments of the [update] calls so far, in
    order. *)
Record hasher := { fed : list bytes }.

Definition new : hasher := {| fed := [] |}.
Definition update (h : hasher) (data : bytes) : hasher :=
  {| fed := fed h ++ [data] |}.
Definition hexdigest (h : hasher) : pystr :=
  hex (digest (List.concat (fed h))).

End SHA256.

(* ================================================================== *)
(** * Built-in containers *)
(* ================================================================== *)

(** [sorted(l)]: a stable sort that compares with [<] only. *)
Fixpoint insert_sorted {A} (ltb : A -> A -> bool) (x : A) (l : list A)
  : list A :=
  match l with
  | [] => [x]
  | y :: l' => if ltb y x then y :: insert_sorted ltb x l' else x :: y :: l'
  end.

Fixpoint sorted {A} (ltb : A -> A -> bool) (l : list A) : list A :=
  match l with
  | [] => []
  | x :: l' => insert_sorted ltb x (sorted ltb l')
  end.

(** A [dict] with [str] keys: the entries in insertion order. *)
Definition dict (V : Type) := list (pystr * V).

(** The representation invariant of a [dict]: no key occurs twice. *)
Definition dict_wf {V} (d : dict V) : Prop := NoDup (map fst d).

Definition dict_keys {V} (d : dict V) : list pystr := map fst d.
Definition dict_items {V} (d : dict V) : list (pystr * V) := d.

(** [d.get(k)]. *)
Fixpoint dict_get {V} (d : dict V) (k : pystr) : option V :=
  match d with
  | [] => None
  | (k', v) :: d' => if str_eqb k k' then Some v else dict_get d' k
  end.

(** [k in d]. *)
Definition dict_contains {V} (d : dict V) (k : pystr) : bool :=
  match dict_get d k with Some _ => true | None => false end.

(** [d[k]]. *)
Definition dict_getitem {V} (d : dict V) (k : pystr) : result V :=
  match dict_get d k with
  | Some v => Ok v
  | None => raise KeyError MsgRuntime
  end.

(** [d[k] = v]: a present key keeps its place, a new one goes last. *)
Fixpoint dict_set {V} (d : dict V) (k : pystr) (v : V) : dict V :=
  match d with
  | [] => [(k, v)]
  | (k', v') :: d' =>
      if str_eqb k k' then (k', v) :: d' else (k', v') :: dict_set d' k v
  end.

(** [{key(x): val(x) for x in xs}], where [val] may raise. *)
Fixpoint dict_comp {X V} (key : X -> pystr) (val : X -> result V)
  (xs : list X) (acc : dict V) : result (dict V) :=
  match xs with
  | [] => Ok acc
  | x :: xs' =>
      match val x with
      | Ok v => dict_comp key val xs' (dict_set acc (key x) v)
      | Err e => Err e
      end
  end.

(** [(a1, b1) < (a2, b2)] on tuples of two [str]. *)
Definition pair_ltb (x y : pystr * pystr) : bool :=
  if str_eqb (fst x) (fst y) then str_ltb (snd x) (snd y)
  else str_ltb (fst x) (fst y).

(** The values the program handles: what [json.loads] produces, and
    [bytes] as an object that JSON cannot represent. A float is its
    64-bit pattern.  These are finite trees whose dicts have [str] keys;
    the objects with other keys, or that contain themselves, are in
    [Obj.pyobj] below. *)
Inductive pyval :=
| PNone
| PBool (b : bool)
| PInt (z : Z)
| PFloat (bits : N)
| PStr (s : pystr)
| PBytes (b : bytes)
| PList (l : list pyval)
| PDict (d : list (pystr * pyval)).

(** [isinstance(v, int)]: [bool] is a subclass of [int]. *)
Definition isinstance_int (v : pyval) : bool :=
  match v with
  | PInt _ | PBool _ => true
  | _ => false
  end.

Definition isinstance_dict (v : pyval) : bool :=
  match v with
  | PDict _ => true
  | _ => false
  end.

(** [v == s] for a [str] literal [s]: only an equal [str] is equal. *)
Definition eq_str (v : pyval) (s : pystr) : bool :=
  match v with
  | PStr t => str_eqb t s
  | _ => false
  end.

(** JSON-representable: scalars, lists and string-keyed objects of such. *)
Fixpoint representable (v : pyval) : bool :=
  match v with
  | PNone | PBool _ | PInt _ | PFloat _ | PStr _ => true
  | PBytes _ => false
  | PList l => forallb representable l
  | PDict d =>
      (fix go (d : list (pystr * pyval)) : bool :=
         match d with
         | [] => true
         | (_, v) :: d' => representable v && go d'
         end) d
  end.

(** Every [dict] inside the value satisfies the representation
    invariant. *)
Fixpoint pyval_wf (v : pyval) : Prop :=
  match v with
  | PList l =>
      (fix go (l : list pyval) : Prop :=
         match l with
         | [] => True
         | v :: l' => pyval_wf v /\ go l'
         end) l
  | PDict d =>
      NoDup (map fst d) /\
      (fix go (d : list (pystr * pyval)) : Prop :=
         match d with
         | [] => True
         | (_, v) :: d' => pyval_wf v /\ go d'
         end) d
  | _ => True
  end.

(** Structural equality of JSON values: the same scalars, lists equal
    element by element, objects with the same keys bound to equal values,
    whatever the insertion order. *)
Fixpoint struct_eqb (a b : pyval) : bool :=
  match a, b with
  | PNone, PNone => true
  | PBool x, PBool y => Bool.eqb x y
  | PInt x, PInt y => Z.eqb x y
  | PFloat x, PFloat y => N.eqb x y
  | PStr x, PStr y => str_eqb x y
  | PBytes x, PBytes y => bytes_eqb x y
  | PList la, PList lb =>
      (fix go (la lb : list pyval) : bool :=
         match la, lb with
         | [], [] => true
         | x :: la', y :: lb' => struct_eqb x y && go la' lb'
         | _, _ => false
         end) la lb
  | PDict da, PDict db =>
      (List.length da =? List.length db)%nat &&
      (fix go (da : list (pystr * pyval)) : bool :=
         match da with
         | [] => true
         | (k, x) :: da' =>
             match dict_get db k with
             | Some y => struct_eqb x y
             | None => false
             end && go da'
         end) da
  | _, _ => false
  end.

(* ================================================================== *)
(** * The runtime under the program *)
(* ================================================================== *)

(** What the program takes from the Python runtime without its source
    being part of the package: the rendering of a float ([float.__repr__],
    or [NaN], [Infinity], [-Infinity]), the JSON parser ([None] when
    [json.loads] raises), and the Unicode case mappings on strings that
    are not pure ASCII. *)
Class Runtime := {
  float_repr : N -> pystr;
  json_loads : pystr -> option pyval;
  unicode_upper : pystr -> pystr;
  unicode_lower : pystr -> pystr
}.

(** [str.upper] and [str.lower]. *)
Definition str_upper `{Runtime} (s : pystr) : pystr :=
  if is_ascii_str s then map ascii_upper_char s else unicode_upper s.

Definition str_lower `{Runtime} (s : pystr) : pystr :=
  if is_ascii_str s then map ascii_lower_char s else unicode_lower s.

(** [str.isspace] for one character. *)
Definition is_space (c : N) : bool :=
  ((0x09 <=? c) && (c <=? 0x0D)) || ((0x1C <=? c) && (c <=? 0x20))
  || (c =? 0x85) || (c =? 0xA0) || (c =? 0x1680)
  || ((0x2000 <=? c) && (c <=? 0x200A))
  || (c =? 0x2028) || (c =? 0x2029) || (c =? 0x202F) || (c =? 0x205F)
  || (c =? 0x3000).

Fixpoint str_lstrip (s : pystr) : pystr :=
  match s with
  | [] => []
  | c :: s' => if is_space c then str_lstrip s' else s
  end.

(** [s.strip()]. *)
Definition str_strip (s : pystr) : pystr :=
  rev (str_lstrip (rev (str_lstrip s))).

(** [sep.join(parts)]. *)
Fixpoint str_join (sep : pystr) (parts : list pystr) : pystr :=
  match parts with
  | [] => []
  | [p] => p
  | p :: ps => p ++ sep ++ str_join sep ps
  end.

(** [str(n)] for an [int]. *)
Definition int_repr (z : Z) : pystr :=
  py (DecimalString.NilEmpty.string_of_int (Z.to_int z)).

(* ------------------------------------------------------------------ *)
(** ** json.dumps *)

Record json_opts := {
  sort_keys : bool;
  ensure_ascii : bool;
  indent : option nat;
  item_separator : pystr;
  key_separator : pystr
}.

Definition hex4 (n : N) : pystr :=
  [SHA256.hex_digit (N.land (N.shiftr n 12) 0xF);
   SHA256.hex_digit (N.land (N.shiftr n 8) 0xF);
   SHA256.hex_digit (N.land (N.shiftr n 4) 0xF);
   SHA256.hex_digit (N.land n 0xF)].

Definition escape_u (n : N) : pystr := py "\u" ++ hex4 n.

(** One character inside a JSON string literal. *)
Definition json_escape_char (ascii_only : bool) (c : N) : pystr :=
  if c =? 0x22 then [0x5C; 0x22]
  else if c =? 0x5C then [0x5C; 0x5C]
  else if c =? 0x0A then py "\n"
  else if c =? 0x0D then py "\r"
  else if c =? 0x09 then py "\t"
  else if c =? 0x08 then py "\b"
  else if c =? 0x0C then py "\f"
  else if c <? 0x20 then escape_u c
  else if ascii_only && (0x7E <? c) then
    if c <? 0x10000 then escape_u c
    else
      let v := c - 0x10000 in
      escape_u (N.lor 0xD800 (N.land (N.shiftr v 10) 0x3FF))
      ++ escape_u (N.lor 0xDC00 (N.land v 0x3FF))
  else [c].

Definition json_string (ascii_only : bool) (s : pystr) : pystr :=
  [0x22] ++ flat_map (json_escape_char ascii_only) s ++ [0x22].

Definition newline_indent (ind : option nat) (level : nat) : pystr :=
  match ind with
  | None => []
  | Some n => 0x0A :: repeat 0x20 (n * level)
  end.

Definition key_ltb {V} (x y : pystr * V) : bool := str_ltb (fst x) (fst y).

(** A container's text from the texts of its members. *)
Definition json_container (o : json_opts) (level : nat)
  (open close : pystr) (parts : list pystr) : pystr :=
  match parts with
  | [] => open ++ close
  | _ =>
      open ++ newline_indent (indent o) (S level)
      ++ str_join (item_separator o ++ newline_indent (indent o) (S level)) parts
      ++ newline_indent (indent o) level ++ close
  end.

(** One member of an object: the key as a string literal, the separator,
    the text of the value. *)
Definition render_item (o : json_opts) (kv : pystr * pystr) : pystr :=
  json_string (ensure_ascii o) (fst kv) ++ key_separator o ++ snd kv.

(** [json.dumps(v, ...)] at nesting depth [level]. The members of an
    object are rendered in insertion order and the rendered items are then
    put in key order; the encoder sorts first and renders second, which
    gives the same text, and the same [TypeError] when a member is not
    serializable.  This is the encoder on [pyval], without the limits of
    the interpreter; [Obj.dumps] below is the encoder on any object, and
    the two agree where both are defined ([dumps_inject]). *)
Fixpoint json_encode `{Runtime} (o : json_opts) (level : nat) (v : pyval)
  {struct v} : result pystr :=
  match v with
  | PNone => Ok (py "null")
  | PBool true => Ok (py "true")
  | PBool false => Ok (py "false")
  | PInt z => Ok (int_repr z)
  | PFloat f => Ok (float_repr f)
  | PStr s => Ok (json_string (ensure_ascii o) s)
  | PBytes _ => raise TypeError MsgRuntime
  | PList l =>
      match
        (fix go (l : list pyval) : result (list pystr) :=
           match l with
           | [] => Ok []
           | x :: l' =>
               match json_encode o (S level) x with
               | Ok s =>
                   match go l' with
                   | Ok r => Ok (s :: r)
                   | Err e => Err e
                   end
               | Err e => Err e
               end
           end) l
      with
      | Ok parts => Ok (json_container o level (py "[") (py "]") parts)
      | Err e => Err e
      end
  | PDict d =>
      match
        (fix go (d : list (pystr * pyval)) : result (list (pystr * pystr)) :=
           match d with
           | [] => Ok []
           | (k, x) :: d' =>
               match json_encode o (S level) x with
               | Ok s =>
                   match go d' with
                   | Ok r => Ok ((k, s) :: r)
                   | Err e => Err e
                   end
               | Err e => Err e
               end
           end) d
      with
      | Ok rendered =>
          let ordered :=
            if sort_keys o then sorted key_ltb rendered else rendered in
          Ok (json_container o level (py "{") (py "}")
                (map (render_item o) ordered))
      | Err e => Err e
      end
  end.

(* ================================================================== *)
(** * utils.py *)
(* ================================================================== *)

Definition sha256_bytes (data : bytes) : pystr :=
  let h := SHA256.new in
  let h := SHA256.update h data in
  SHA256.hexdigest h.

(** [json.dumps(obj, sort_keys=True, separators=(",", ":"),
    ensure_ascii=False)]. *)
Definition canonical_opts : json_opts :=
  {| sort_keys := true; ensure_ascii := false; indent := None;
     item_separator := py ","; key_separator := py ":" |}.

Definition canonical_json_dumps `{Runtime} (obj : pyval) : result pystr :=
  json_encode canonical_opts 0 obj.

Definition sha256_json `{Runtime} (obj : pyval) : result pystr :=
  (s <- canonical_json_dumps obj ;;
   b <- str_encode s ;;
   Ok (sha256_bytes b))%result.

(* ================================================================== *)
(** * The world: file system, clock, platform *)
(* ================================================================== *)

Inductive node :=
| Dir
| File (readable : bool) (content : bytes).

(** What the program does to the world, in order. *)
Inductive event :=
| EvResolve (p : pystr)
| EvExists (p : pystr)
| EvIsFile (p : pystr)
| EvReadText (p : pystr)
| EvReadBytes (p : pystr)
| EvOpenRb (p : pystr)
| EvNow
| EvPlatform
| EvMkdir (p : pystr)
| EvWriteBytes (p : pystr)
| EvWriteText (p : pystr)
| EvStdout
| EvStderr (unexpected : bool) (e : exn).

(** A resolved [Path] is identified with its string form. [resolve] is
    [Path(s).resolve()]; [now_utc] is
    [datetime.now(timezone.utc).isoformat()]; [python_version] is
    [sys.version.split()[0]]. *)
Record world := {
  fs : pystr -> option node;
  resolve : pystr -> pystr;
  now_utc : pystr;
  python_version : pystr;
  platform_name : pystr;
  implementation : pystr;
  trace : list event
}.

Definition log (w : world) (e : event) : world :=
  {| fs := fs w; resolve := resolve w; now_utc := now_utc w;
     python_version := python_version w; platform_name := platform_name w;
     implementation := implementation w; trace := trace w ++ [e] |}.

Definition set_fs (w : world) (f : pystr -> option node) : world :=
  {| fs := f; resolve := resolve w; now_utc := now_utc w;
     python_version := python_version w; platform_name := platform_name w;
     implementation := implementation w; trace := trace w |}.

(** A computation with effects on the world that returns or raises. *)
Definition IO (A : Type) := world -> result A * world.

Definition io_ret {A} (a : A) : IO A := fun w => (Ok a, w).

Definition io_bind {A B} (m : IO A) (f : A -> IO B) : IO B :=
  fun w =>
    match m w with
    | (Ok a, w') => f a w'
    | (Err e, w') => (Err e, w')
    end.

Definition io_raise {A} (c : exn_class) (m : message) : IO A :=
  fun w => (Err (Raise c m), w).

Definition io_lift {A} (r : result A) : IO A := fun w => (r, w).

Definition io_log (e : event) : IO unit := fun w => (Ok tt, log w e).

Declare Scope io_scope.
Delimit Scope io_scope with io.
Notation "x <- m ;; k" := (io_bind m (fun x => k))
  (at level 61, m at next level, right associativity) : io_scope.
Notation "m ;; k" := (io_bind m (fun _ => k))
  (at level 61, right associativity) : io_scope.

(** [for x in xs: body(x)]. *)
Fixpoint io_for {X} (xs : list X) (body : X -> IO unit) : IO unit :=
  match xs with
  | [] => io_ret tt
  | x :: xs' => (body x ;; io_for xs' body)%io
  end.

(** [[f(x) for x in xs]]. *)
Fixpoint io_map {X Y} (f : X -> IO Y) (xs : list X) : IO (list Y) :=
  match xs with
  | [] => io_ret []
  | x :: xs' => (y <- f x ;; ys <- io_map f xs' ;; io_ret (y :: ys))%io
  end.

(** [{key(x): val(x) for x in xs}] with effects in [val]. *)
Fixpoint io_dict_comp {X V} (key : X -> pystr) (val : X -> IO V)
  (xs : list X) (acc : dict V) : IO (dict V) :=
  match xs with
  | [] => io_ret acc
  | x :: xs' =>
      (v <- val x ;; io_dict_comp key val xs' (dict_set acc (key x) v))%io
  end.

(* ------------------------------------------------------------------ *)
(** ** pathlib *)

Definition slash : N := 0x2F.

Fixpoint drop_name (r : pystr) : pystr :=
  match r with
  | [] => []
  | c :: r' => if c =? slash then r' else drop_name r'
  end.

(** [s.split("/")]. *)
Fixpoint split_slash (s : pystr) : list pystr :=
  match s with
  | [] => [[]]
  | c :: s' =>
      if c =? slash then [] :: split_slash s'
      else
        match split_slash s' with
        | part :: parts => (c :: part) :: parts
        | [] => [[c]]
        end
  end.

(** The components of [PurePosixPath(s)] after the root: the parser drops
    empty components and [.] (so repeated and trailing slashes do not
    count), and keeps [..]. *)
Definition path_components (s : pystr) : list pystr :=
  filter (fun part =>
            negb (match part with [] => true | _ => false end
                  || str_eqb part (py ".")))
    (split_slash s).

(** [Path(s).name]: the last of the components that are neither empty
    nor [.], so that [/x/a.txt/] has the name [a.txt] and [/x/.] the name
    [x]; the empty string when there is none. *)
Definition path_name (s : pystr) : pystr := last (path_components s) [].

(** [p.parent]; the root is its own parent. *)
Definition path_parent (p : pystr) : pystr :=
  match rev (drop_name (rev p)) with
  | [] => [slash]
  | q => q
  end.

(** [p / name]. *)
Definition path_join (p name : pystr) : pystr :=
  match rev p with
  | c :: _ => if c =? slash then p ++ name else p ++ [slash] ++ name
  | [] => name
  end.

Definition Path_resolve (s : pystr) : IO pystr :=
  fun w => (Ok (resolve w s), log w (EvResolve s)).

Definition Path_exists (p : pystr) : IO bool :=
  fun w =>
    (Ok (match fs w p with Some _ => true | None => false end),
     log w (EvExists p)).

Definition Path_is_file (p : pystr) : IO bool :=
  fun w =>
    (Ok (match fs w p with Some (File _ _) => true | _ => false end),
     log w (EvIsFile p)).

(** The bytes of a readable regular file, [OSError] otherwise. *)
Definition file_bytes (w : world) (p : pystr) : result bytes :=
  match fs w p with
  | Some (File true content) => Ok content
  | _ => raise OSError MsgRuntime
  end.

Definition Path_read_bytes (p : pystr) : IO bytes :=
  fun w => (file_bytes w p, log w (EvReadBytes p)).

(** Text mode reads with universal newlines: [\r\n] and [\r] become
    [\n]. *)
Fixpoint universal_newlines (s : pystr) : pystr :=
  match s with
  | [] => []
  | c :: s' =>
      if c =? 0x0D then
        match s' with
        | d :: s'' =>
            if d =? 0x0A then 0x0A :: universal_newlines s''
            else 0x0A :: universal_newlines s'
        | [] => [0x0A]
        end
      else c :: universal_newlines s'
  end.

(** The text of a file opened with [encoding="utf-8"]. *)
Definition decode_text (content : bytes) : result pystr :=
  (s <- bytes_decode content ;; Ok (universal_newlines s))%result.

(** [p.read_text(encoding="utf-8")]. *)
Definition Path_read_text (p : pystr) : IO pystr :=
  fun w =>
    (rbind (file_bytes w p) decode_text, log w (EvReadText p)).

Definition fs_set (f : pystr -> option node) (p : pystr) (n : node)
  : pystr -> option node :=
  fun q => if str_eqb q p then Some n else f q.

(** [p.mkdir(parents=True, exist_ok=True)] on the file system. *)
Fixpoint mkdir_p (fuel : nat) (f : pystr -> option node) (p : pystr)
  : result (pystr -> option node) :=
  match f p with
  | Some Dir => Ok f
  | Some (File _ _) => raise OSError MsgRuntime
  | None =>
      let par := path_parent p in
      match f par with
      | Some Dir => Ok (fs_set f p Dir)
      | Some (File _ _) => raise OSError MsgRuntime
      | None =>
          match fuel with
          | O => raise OSError MsgRuntime
          | S fuel' =>
              if str_eqb par p then raise OSError MsgRuntime
              else
                match mkdir_p fuel' f par with
                | Ok f' =>
                    match f' par with
                    | Some Dir => Ok (fs_set f' p Dir)
                    | _ => raise OSError MsgRuntime
                    end
                | Err e => Err e
                end
          end
      end
  end.

Definition Path_mkdir (p : pystr) : IO unit :=
  fun w =>
    match mkdir_p (List.length p) (fs w) p with
    | Ok f' => (Ok tt, log (set_fs w f') (EvMkdir p))
    | Err e => (Err e, log w (EvMkdir p))
    end.

(** Creating or replacing a regular file under an existing directory. *)
Definition write_file (w : world) (p : pystr) (content : bytes)
  : result (pystr -> option node) :=
  match fs w (path_parent p), fs w p with
  | Some Dir, None | Some Dir, Some (File _ _) =>
      Ok (fs_set (fs w) p (File true content))
  | _, _ => raise OSError MsgRuntime
  end.

Definition Path_write_bytes (p : pystr) (content : bytes) : IO unit :=
  fun w =>
    match write_file w p content with
    | Ok f' => (Ok tt, log (set_fs w f') (EvWriteBytes p))
    | Err e => (Err e, log w (EvWriteBytes p))
    end.

(** [p.write_text(text, encoding="utf-8")]. *)
Definition Path_write_text (p : pystr) (text : pystr) : IO unit :=
  fun w =>
    match rbind (str_encode text) (write_file w p) with
    | Ok f' => (Ok tt, log (set_fs w f') (EvWriteText p))
    | Err e => (Err e, log w (EvWriteText p))
    end.

(* ------------------------------------------------------------------ *)
(** ** utils.sha256_file *)

(** [f.read(n)] and the rest of the stream after it. *)
Fixpoint read_n (n : N) (rest : bytes) : bytes :=
  match rest with
  | [] => []
  | b :: rest' => if n =? 0 then [] else b :: read_n (N.pred n) rest'
  end.

Fixpoint after_n (n : N) (rest : bytes) : bytes :=
  match rest with
  | [] => []
  | _ :: rest' => if n =? 0 then rest else after_n (N.pred n) rest'
  end.

(** [for chunk in iter(lambda: f.read(size), b""): h.update(chunk)];
    [fuel] bounds the number of reads. *)
Fixpoint update_chunks (fuel : nat) (size : N) (rest : bytes)
  (h : SHA256.hasher) : SHA256.hasher :=
  match fuel with
  | O => h
  | S fuel' =>
      match read_n size rest with
      | [] => h
      | chunk =>
          update_chunks fuel' size (after_n size rest) (SHA256.update h chunk)
      end
  end.

Definition chunk_size : N := 1024 * 1024.

Definition sha256_file (path : pystr) : IO pystr :=
  fun w =>
    (match file_bytes w path with
     | Ok content =>
         let h := SHA256.new in
         let h := update_chunks (S (List.length content)) chunk_size content h in
         Ok (SHA256.hexdigest h)
     | Err e => Err e
     end,
     log w (EvOpenRb path)).

(* ================================================================== *)
(** * input_layer.py *)
(* ================================================================== *)

Record LoadedInputs := {
  input_paths : list pystr;
  input_hashes : dict pystr;
  config : dict pyval;
  config_hash : pystr;
  pipeline_version : pystr
}.

Definition _validate_paths (paths : list pystr) : IO unit :=
  match paths with
  | [] => io_raise InputValidationError MsgNoInputFiles
  | _ =>
      io_for paths (fun p =>
        (ex <- Path_exists p ;;
         if negb ex then io_raise InputValidationError (MsgInputDoesNotExist p)
         else
           isf <- Path_is_file p ;;
           if negb isf then io_raise InputValidationError (MsgInputNotAFile p)
           else io_ret tt)%io)
  end.

(** The [try] block of [_load_config]: any exception becomes a
    [ConfigError]. *)
Definition read_and_parse `{Runtime} (config_path : pystr) : IO pyval :=
  fun w =>
    match Path_read_text config_path w with
    | (Ok raw, w') =>
        match json_loads raw with
        | Some cfg => (Ok cfg, w')
        | None => (raise ConfigError MsgConfigParse, w')
        end
    | (Err _, w') => (raise ConfigError MsgConfigParse, w')
    end.

Definition required_keys : list pystr := [py "transform"; py "seed"].

Definition transforms : list pystr := [py "upper"; py "lower"; py "noop"].

(** The checks of [_load_config] on the parsed value. *)
Definition validate_config (cfg : pyval) : result (dict pyval) :=
  match cfg with
  | PDict d =>
      let missing :=
        filter (fun k => negb (dict_contains d k)) required_keys in
      match missing with
      | _ :: _ => raise ConfigError (MsgConfigMissingKeys missing)
      | [] =>
          (t <- dict_getitem d (py "transform") ;;
           if negb (existsb (eq_str t) transforms)
           then raise ConfigError MsgConfigTransform
           else
             s <- dict_getitem d (py "seed") ;;
             if negb (isinstance_int s)
             then raise ConfigError MsgConfigSeed
             else Ok d)%result
      end
  | _ => raise ConfigError MsgConfigNotObject
  end.

Definition _load_config `{Runtime} (config_path : pystr) : IO (dict pyval) :=
  (ex <- Path_exists config_path ;;
   if negb ex then io_raise ConfigError (MsgConfigDoesNotExist config_path)
   else
     isf <- Path_is_file config_path ;;
     if negb isf then io_raise ConfigError (MsgConfigNotAFile config_path)
     else
       cfg <- read_and_parse config_path ;;
       io_lift (validate_config cfg))%io.

Definition load_validate_hash `{Runtime}
  (input_files : list pystr) (config_file : pystr) (version : pystr)
  : IO LoadedInputs :=
  match str_strip version with
  | [] => io_raise InputValidationError MsgVersionEmpty
  | _ =>
      (paths <- io_map Path_resolve input_files ;;
       _validate_paths paths ;;
       cfg_path <- Path_resolve config_file ;;
       cfg <- _load_config cfg_path ;;
       hashes <- io_dict_comp (fun p => p) sha256_file paths [] ;;
       cfg_hash <- io_lift (sha256_json (PDict cfg)) ;;
       io_ret {| input_paths := paths;
                 input_hashes := hashes;
                 config := cfg;
                 config_hash := cfg_hash;
                 pipeline_version := str_strip version |})%io
  end.

(* ================================================================== *)
(** * processing_layer.py *)
(* ================================================================== *)

Record ProcessedArtifact := { items : dict bytes }.

Definition _transform_bytes `{Runtime} (data : bytes) (transform : pyval)
  : result bytes :=
  if eq_str transform (py "noop") then Ok data
  else
    (text <- bytes_decode data ;;
     if eq_str transform (py "upper") then str_encode (str_upper text)
     else if eq_str transform (py "lower") then str_encode (str_lower text)
     else raise ValueError MsgUnsupportedTransform)%result.

Definition process `{Runtime} (raw_inputs : dict bytes)
  (parameters : dict pyval) : result ProcessedArtifact :=
  if negb (dict_contains parameters (py "transform"))
  then raise ValueError (MsgMissingParameter (py "transform"))
  else if negb (dict_contains parameters (py "seed"))
  then raise ValueError (MsgMissingParameter (py "seed"))
  else
    (transform <- dict_getitem parameters (py "transform") ;;
     processed <- dict_comp fst (fun kv => _transform_bytes (snd kv) transform)
                    (dict_items raw_inputs) [] ;;
     Ok {| items := processed |})%result.

(* ================================================================== *)
(** * provenance_layer.py *)
(* ================================================================== *)

Record Provenance := { data : dict pyval }.

(** The loop of [_compute_run_id] over the sorted paths. *)
Fixpoint feed_inputs (hashes : dict pystr) (paths : list pystr)
  (h : SHA256.hasher) : result SHA256.hasher :=
  match paths with
  | [] => Ok h
  | path :: paths' =>
      (b <- str_encode path ;;
       let h := SHA256.update h b in
       v <- dict_getitem hashes path ;;
       b <- str_encode v ;;
       let h := SHA256.update h b in
       feed_inputs hashes paths' h)%result
  end.

(** The hash object of [_compute_run_id] just before [hexdigest]. *)
Definition run_id_hasher (hashes : dict pystr) (cfg_hash version : pystr)
  : result SHA256.hasher :=
  (let h := SHA256.new in
   h <- feed_inputs hashes (sorted str_ltb (dict_keys hashes)) h ;;
   b <- str_encode cfg_hash ;;
   let h := SHA256.update h b in
   b <- str_encode version ;;
   let h := SHA256.update h b in
   Ok h)%result.

Definition _compute_run_id (hashes : dict pystr) (cfg_hash version : pystr)
  : result pystr :=
  (h <- run_id_hasher hashes cfg_hash version ;;
   Ok (SHA256.hexdigest h))%result.

Definition now_isoformat : IO pystr :=
  fun w => (Ok (now_utc w), log w EvNow).

Definition platform_env : IO (dict pyval) :=
  fun w =>
    (Ok [(py "python_version", PStr (python_version w));
         (py "platform", PStr (platform_name w));
         (py "implementation", PStr (implementation w))],
     log w EvPlatform).

Definition build_provenance (hashes : dict pystr) (cfg_hash version : pystr)
  (parameters : dict pyval) : IO Provenance :=
  (ts <- now_isoformat ;;
   env <- platform_env ;;
   run_id <- io_lift (_compute_run_id hashes cfg_hash version) ;;
   let prov :=
     [(py "run_id", PStr run_id);
      (py "pipeline_version", PStr version);
      (py "timestamp_utc", PStr ts);
      (py "inputs",
       PList (map (fun ph => PDict [(py "path", PStr (fst ph));
                                    (py "sha256", PStr (snd ph))])
                  (sorted pair_ltb (dict_items hashes))));
      (py "config_sha256", PStr cfg_hash);
      (py "parameters", PDict parameters);
      (py "execution_environment", PDict env);
      (py "deterministic_scope", PStr (py "inputs + config + pipeline_version"))]
   in
   io_ret {| data := prov |})%io.

(* ================================================================== *)
(** * output_layer.py *)
(* ================================================================== *)

(** [json.dumps(obj, indent=2, sort_keys=True)]. *)
Definition pretty_opts : json_opts :=
  {| sort_keys := true; ensure_ascii := true; indent := Some 2%nat;
     item_separator := py ","; key_separator := py ": " |}.

Fixpoint write_artifacts (artifacts_dir : pystr)
  (entries : list (pystr * bytes)) (written : dict pystr)
  : IO (dict pystr) :=
  match entries with
  | [] => io_ret written
  | (input_path, content) :: entries' =>
      let name := path_name input_path in
      let out_file := path_join artifacts_dir (name ++ py ".processed") in
      (Path_write_bytes out_file content ;;
       write_artifacts artifacts_dir entries'
         (dict_set written input_path out_file))%io
  end.

Definition write_outputs `{Runtime} (out_dir : pystr)
  (processed : ProcessedArtifact) (provenance : Provenance)
  : IO (dict pystr) :=
  (out_path <- Path_resolve out_dir ;;
   Path_mkdir out_path ;;
   let artifacts_dir := path_join out_path (py "artifacts") in
   Path_mkdir artifacts_dir ;;
   written <- write_artifacts artifacts_dir
                (sorted key_ltb (dict_items (items processed))) [] ;;
   let prov_file := path_join out_path (py "provenance.json") in
   text <- io_lift (json_encode pretty_opts 0 (PDict (data provenance))) ;;
   Path_write_text prov_file text ;;
   io_ret (dict_set written (py "provenance") prov_file))%io.

(* ================================================================== *)
(** * run.py *)
(* ================================================================== *)

(** The parsed command line. *)
Record Args := {
  arg_inputs : list pystr;
  arg_config : pystr;
  arg_version : pystr;
  arg_out : pystr
}.

Definition _read_inputs (paths : list pystr) : IO (dict bytes) :=
  io_dict_comp (fun p => p) Path_read_bytes paths [].

(** The stages of [main] up to the provenance record: what the run
    computes before anything is written. *)
Definition run_stages `{Runtime} (args : Args)
  : IO (LoadedInputs * ProcessedArtifact * Provenance) :=
  (loaded <- load_validate_hash (arg_inputs args) (arg_config args)
               (arg_version args) ;;
   raw_inputs <- _read_inputs (input_paths loaded) ;;
   processed <- io_lift (process raw_inputs (config loaded)) ;;
   provenance <- build_provenance (input_hashes loaded) (config_hash loaded)
                   (pipeline_version loaded) (config loaded) ;;
   io_ret (loaded, processed, provenance))%io.

(** The body of the [try] in [main]. *)
Definition main_body `{Runtime} (args : Args) : IO unit :=
  (r <- run_stages args ;;
   let '(_, processed, provenance) := r in
   write_outputs (arg_out args) processed provenance ;;
   io_log EvStdout)%io.

(** [main], after [argparse]: the exit status. *)
Definition main `{Runtime} (args : Args) : world -> Z * world :=
  fun w =>
    match main_body args w with
    | (Ok _, w') => (0%Z, w')
    | (Err e, w') =>
        if isinstance_exn e PipelineError
        then (2%Z, log w' (EvStderr false e))
        else (3%Z, log w' (EvStderr true e))
    end.

(* ================================================================== *)
(** * Sample runs *)
(* ================================================================== *)

(** Concrete configurations, files and worlds on which the pipeline is
    evaluated. *)
Module Sample.

Definition cfg_upper : pyval :=
  PDict [(py "transform", PStr (py "upper")); (py "seed", PInt 123)].
Definition cfg_upper_reordered : pyval :=
  PDict [(py "seed", PInt 123); (py "transform", PStr (py "upper"))].
Definition cfg_no_seed : pyval :=
  PDict [(py "transform", PStr (py "upper"))].
Definition cfg_mixed : pyval :=
  PDict [(py "transform", PStr (py "mixed")); (py "seed", PInt 3)].
Definition cfg_seed_string : pyval :=
  PDict [(py "transform", PStr (py "upper")); (py "seed", PStr (py "3"))].
Definition cfg_seed_true : pyval :=
  PDict [(py "transform", PStr (py "lower")); (py "seed", PBool true)].

Definition params (transform : string) (seed : pyval) : dict pyval :=
  [(py "transform", PStr (py transform)); (py "seed", seed)].

Definition raw_mixed : dict bytes :=
  [(py "text", pyb "Hello World"); (py "binary", [Byte.xff; Byte.xfe])].

Definition configs : list pyval :=
  [cfg_upper; cfg_upper_reordered; cfg_no_seed; cfg_mixed;
   cfg_seed_string; cfg_seed_true].

(** A runtime without a parser, to write the sample texts with. *)
Definition printer : Runtime :=
  {| float_repr := fun _ => py "0.0";
     json_loads := fun _ => None;
     unicode_upper := fun s => s;
     unicode_lower := fun s => s |}.

Definition text_of (v : pyval) : pystr :=
  match @canonical_json_dumps printer v with
  | Ok s => s
  | Err _ => []
  end.

(** The parser restricted to the texts of the sample configurations. *)
Definition loads (s : pystr) : option pyval :=
  find (fun v => str_eqb (text_of v) s) configs.

Definition runtime : Runtime :=
  {| float_repr := fun _ => py "0.0";
     json_loads := loads;
     unicode_upper := fun s => s;
     unicode_lower := fun s => s |}.

Definition content_of (v : pyval) : bytes :=
  match str_encode (text_of v) with
  | Ok b => b
  | Err _ => []
  end.

Definition file_of (v : pyval) : node := File true (content_of v).

Definition hello : bytes := pyb "Hello World".

(** [/d/a.txt] holds text, [/d/bin] a byte that is not UTF-8, and there
    is one configuration file for each sample. *)
Definition files : list (pystr * node) :=
  [(py "/", Dir);
   (py "/d", Dir);
   (py "/d/a.txt", File true hello);
   (py "/d/b.txt", File true (pyb "second"));
   (py "/d/bin", File true [Byte.xff]);
   (py "/d/upper.json", file_of cfg_upper);
   (py "/d/no_seed.json", file_of cfg_no_seed);
   (py "/d/mixed.json", file_of cfg_mixed);
   (py "/d/seed_string.json", file_of cfg_seed_string);
   (py "/d/seed_true.json", file_of cfg_seed_true)].

(** Relative names resolve against the directory [/d]. *)
Definition resolve_in_d (s : pystr) : pystr :=
  match s with
  | c :: _ => if c =? slash then s else py "/d/" ++ s
  | [] => py "/d"
  end.

Definition world_at (ts : pystr) (plat : pystr) : world :=
  {| fs := dict_get files;
     resolve := resolve_in_d;
     now_utc := ts;
     python_version := py "3.12.1";
     platform_name := plat;
     implementation := py "CPython";
     trace := [] |}.

Definition w0 : world := world_at (py "2024-01-01T00:00:00+00:00") (py "Linux").
Definition w1 : world := world_at (py "2025-06-30T12:34:56+00:00") (py "Darwin").

Definition args_of (input cfg : string) : Args :=
  {| arg_inputs := [py input];
     arg_config := py cfg;
     arg_version := py "1.0";
     arg_out := py "/out" |}.

End Sample.

(* ================================================================== *)
(** * The vocabulary of the statements *)
(* ================================================================== *)

(** The orders that [sorted] is reasoned about with: [ltb] read as a strict
    order, and its reflexive closure. *)
Definition leq {A} (ltb : A -> A -> bool) (x y : A) : Prop := ltb y x = false.

Definition lt_rel {A} (ltb : A -> A -> bool) (x y : A) : Prop := ltb x y = true.

Definition str_lt (a b : pystr) : Prop := str_ltb a b = true.

(** [[s.encode("utf-8") for s in l]]. *)
Fixpoint encode_all (l : list pystr) : result (list bytes) :=
  match l with
  | [] => Ok []
  | s :: l' =>
      (b <- str_encode s ;; bs <- encode_all l' ;; Ok (b :: bs))%result
  end.

(** A string of Unicode scalar values: no surrogate, nothing above
    [0x10FFFF]. These are the strings that [encode("utf-8")] accepts. *)
Definition encodable (s : pystr) : bool :=
  forallb (fun c => negb (is_surrogate c) && (c <? 0x110000)) s.

(** The feed of [deriveRunId] in the words of the specification: each
    (path, hash) pair in sorted-by-path order, then the config hash, then
    the pipeline version. *)
Definition spec_feed_sequence (hashes : dict pystr) (cfg_hash version : pystr)
  : list pystr :=
  flat_map (fun ph => [fst ph; snd ph]) (sorted key_ltb hashes)
  ++ [cfg_hash; version].

Fixpoint rmap {A B} (f : A -> result B) (l : list A) : result (list B) :=
  match l with
  | [] => Ok []
  | x :: l' =>
      match f x with
      | Ok s => match rmap f l' with Ok r => Ok (s :: r) | Err e => Err e end
      | Err e => Err e
      end
  end.

Fixpoint rmap_snd {K A B} (f : A -> result B) (d : list (K * A))
  : result (list (K * B)) :=
  match d with
  | [] => Ok []
  | (k, x) :: d' =>
      match f x with
      | Ok s =>
          match rmap_snd f d' with Ok r => Ok ((k, s) :: r) | Err e => Err e end
      | Err e => Err e
      end
  end.

Definition not_serializable : exn := Raise TypeError MsgRuntime.

(** What [json.dumps] does on a value: it returns exactly on the
    representable ones and raises [TypeError] on the others. *)
Definition encode_outcome (r : result pystr) (v : pyval) : Prop :=
  match r with
  | Ok _ => representable v = true
  | Err e => representable v = false /\ e = not_serializable
  end.

Fixpoint forall2b {A B} (f : A -> B -> bool) (la : list A) (lb : list B)
  : bool :=
  match la, lb with
  | [], [] => true
  | x :: la', y :: lb' => f x y && forall2b f la' lb'
  | _, _ => false
  end.

(** The world after a sequence of events that leave the files alone. *)
Definition logs (w : world) (evs : list event) : world :=
  fold_left log evs w.

Definition is_regular_file (w : world) (p : pystr) : bool :=
  match fs w p with Some (File _ _) => true | _ => false end.

Definition stat_events (paths : list pystr) : list event :=
  flat_map (fun p => [EvExists p; EvIsFile p]) paths.

(** The events that read the contents of an input file: [sha256_file]
    opens it, [_read_inputs] reads it whole. *)
Definition reads_input (e : event) : bool :=
  match e with
  | EvOpenRb _ | EvReadBytes _ => true
  | _ => false
  end.

Definition no_input_read (evs : list event) : bool :=
  forallb (fun e => negb (reads_input e)) evs.

(** The three rejected shapes: no [seed] key, [transform: "mixed"],
    [seed: "3"]. *)
Definition bad_config (d : dict pyval) : Prop :=
  dict_contains d (py "seed") = false
  \/ dict_get d (py "transform") = Some (PStr (py "mixed"))
  \/ dict_get d (py "seed") = Some (PStr (py "3")).

Definition pipeline_error (e : exn) : bool := isinstance_exn e PipelineError.

(** The exception, if any, is not a [PipelineError]. *)
Definition foreign {A} (r : result A) : Prop :=
  match r with
  | Ok _ => True
  | Err e => pipeline_error e = false
  end.

Definition io_foreign {A} (m : IO A) : Prop := forall w, foreign (fst (m w)).

(** What [main] does once the inputs are loaded. *)
Definition after_load `{Runtime} (args : Args) (loaded : LoadedInputs)
  : IO unit :=
  (r <- (raw_inputs <- _read_inputs (input_paths loaded) ;;
         processed <- io_lift (process raw_inputs (config loaded)) ;;
         provenance <- build_provenance (input_hashes loaded)
                         (config_hash loaded) (pipeline_version loaded)
                         (config loaded) ;;
         io_ret (loaded, processed, provenance)) ;;
   let '(_, processed, provenance) := r in
   write_outputs (arg_out args) processed provenance ;;
   io_log EvStdout)%io.

(** Two worlds with the same files and the same path resolution; the
    clock, the platform descriptors and the past events are free. *)
Definition same_files (w1 w2 : world) : Prop :=
  (forall p, fs w1 p = fs w2 p) /\ (forall s, resolve w1 s = resolve w2 s).

(** A computation whose result depends on the files only. *)
Definition agnostic {A} (m : IO A) : Prop :=
  forall w1 w2, same_files w1 w2 ->
    fst (m w1) = fst (m w2) /\ same_files (snd (m w1)) (snd (m w2)).

(** The audit-only fields of the provenance record. *)
Definition audit_only (k : pystr) : bool :=
  str_eqb k (py "timestamp_utc") || str_eqb k (py "execution_environment").

(** Two records that agree on every field that is not audit-only. *)
Definition same_outside_audit (p1 p2 : Provenance) : Prop :=
  forall k, audit_only k = false -> dict_get (data p1) k = dict_get (data p2) k.

(** Two calls that raise the same exception, or return values related by
    [R]. *)
Definition same_outcome {A} (R : A -> A -> Prop) (r1 r2 : result A) : Prop :=
  match r1, r2 with
  | Ok a1, Ok a2 => R a1 a2
  | Err e1, Err e2 => e1 = e2
  | _, _ => False
  end.

(** The records of two runs: they agree outside the audit-only fields, and
    their run identifier is [_compute_run_id] of the hashes, the config
    hash and the version. *)
Definition records_of (hashes : dict pystr) (cfg_hash version : pystr)
  (p1 p2 : Provenance) : Prop :=
  same_outside_audit p1 p2
  /\ exists id,
       _compute_run_id hashes cfg_hash version = Ok id
       /\ dict_get (data p1) (py "run_id") = Some (PStr id)
       /\ dict_get (data p2) (py "run_id") = Some (PStr id).

(** The audit-only fields of a record made in the world [w]. *)
Definition stamped (w : world) (p : Provenance) : Prop :=
  dict_get (data p) (py "timestamp_utc") = Some (PStr (now_utc w))
  /\ dict_get (data p) (py "execution_environment")
     = Some (PDict [(py "python_version", PStr (python_version w));
                    (py "platform", PStr (platform_name w));
                    (py "implementation", PStr (implementation w))]).

(** The body of the loop of [_validate_paths]. *)
Definition check_path (p : pystr) : IO unit :=
  (ex <- Path_exists p ;;
   if negb ex then io_raise InputValidationError (MsgInputDoesNotExist p)
   else
     isf <- Path_is_file p ;;
     if negb isf then io_raise InputValidationError (MsgInputNotAFile p)
     else io_ret tt)%io.

(** What [_validate_paths] raises on the path [p], and the events up to
    the failure. *)
Definition invalid_path_outcome (w : world) (p : pystr)
  : exn * list event :=
  match fs w p with
  | None =>
      (Raise InputValidationError (MsgInputDoesNotExist p), [EvExists p])
  | Some _ =>
      (Raise InputValidationError (MsgInputNotAFile p),
       [EvExists p; EvIsFile p])
  end.

(** A configuration that passes the schema: [transform] is one of the
    three names and [seed] is an instance of [int]. *)
Definition valid_config (d : dict pyval) : Prop :=
  (exists t, dict_get d (py "transform") = Some (PStr t) /\ In t transforms)
  /\ (exists s, dict_get d (py "seed") = Some s /\ isinstance_int s = true).

(** The events of [_load_config] on the path [p], when it runs to the
    end. *)
Definition config_events (p : pystr) : list event :=
  [EvExists p; EvIsFile p; EvReadText p].

(** The events that change the file system. *)
Definition writes (e : event) : bool :=
  match e with
  | EvMkdir _ | EvWriteBytes _ | EvWriteText _ => true
  | _ => false
  end.

Definition no_write (evs : list event) : bool :=
  forallb (fun e => negb (writes e)) evs.

(** A computation that only adds events to the world, none of them a
    write. *)
Definition read_only {A} (m : IO A) : Prop :=
  forall w, exists evs, snd (m w) = logs w evs /\ no_write evs = true.

(** The events of a call of [load_validate_hash] that returns: the paths
    are resolved, each is tested, the config is resolved and loaded, and
    only then each input is opened for hashing. *)
Definition load_events (w : world) (input_files : list pystr)
  (config_file : pystr) : list event :=
  map EvResolve input_files
  ++ stat_events (map (resolve w) input_files)
  ++ EvResolve config_file :: config_events (resolve w config_file)
  ++ map EvOpenRb (map (resolve w) input_files).

(** One of the three transforms that [_transform_bytes] knows. *)
Definition supported (t : pyval) : bool :=
  eq_str t (py "noop") || eq_str t (py "upper") || eq_str t (py "lower").

(** An entry of the result of [process] against the entry it comes from:
    the same key, the payload transformed. *)
Definition transformed `{Runtime} (t : pyval) (kv ko : pystr * bytes) : Prop :=
  fst kv = fst ko /\ _transform_bytes (snd kv) t = Ok (snd ko).

(** A payload of ASCII bytes, and the case mappings on its bytes. *)
Definition ascii_bytes (data : bytes) : bool :=
  forallb (fun b => Byte.to_N b <? 0x80) data.

Definition upper_byte (b : Byte.byte) : Byte.byte :=
  byte_of_N (ascii_upper_char (Byte.to_N b)).

Definition lower_byte (b : Byte.byte) : Byte.byte :=
  byte_of_N (ascii_lower_char (Byte.to_N b)).

(** [f] applied to every payload of a mapping. *)
Definition map_payloads (f : Byte.byte -> Byte.byte) (raw : dict bytes)
  : dict bytes :=
  map (fun kv => (fst kv, map f (snd kv))) raw.

(** A chunk as [sha256_file] hands it to the hasher: not empty, and no
    longer than the requested size. *)
Definition chunk_ok (size : N) (c : bytes) : Prop :=
  c <> [] /\ N.of_nat (List.length c) <= size.

(** The form of [hexdigest()]: 64 characters of [0-9a-f]. *)
Definition is_hex_lower (c : N) : bool :=
  ((0x30 <=? c) && (c <=? 0x39)) || ((0x61 <=? c) && (c <=? 0x66)).

Definition hex_digest_form (s : pystr) : Prop :=
  List.length s = 64%nat /\ forallb is_hex_lower s = true.

(** One element of the [inputs] list of the provenance record. *)
Definition input_record (ph : pystr * pystr) : pyval :=
  PDict [(py "path", PStr (fst ph)); (py "sha256", PStr (snd ph))].

(** The keys of the provenance record, in insertion order. *)
Definition provenance_keys : list pystr :=
  [py "run_id"; py "pipeline_version"; py "timestamp_utc"; py "inputs";
   py "config_sha256"; py "parameters"; py "execution_environment";
   py "deterministic_scope"].

(** The keys of a dict comprehension over [paths]: each path once, at its
    first occurrence. *)
Definition add_key (ks : list pystr) (k : pystr) : list pystr :=
  if existsb (str_eqb k) ks then ks else ks ++ [k].

Definition first_occurrences (paths : list pystr) : list pystr :=
  fold_left add_key paths [].

(** What [run_stages] does to the world when it succeeds. *)
Definition run_events (w : world) (args : Args) : list event :=
  load_events w (arg_inputs args) (arg_config args)
  ++ map EvReadBytes (map (resolve w) (arg_inputs args))
  ++ [EvNow; EvPlatform].

(** The file [write_outputs] writes for the artifact of [input_path]. *)
Definition artifact_file (artifacts_dir input_path : pystr) : pystr :=
  path_join artifacts_dir (path_name input_path ++ py ".processed").

(** The content the loop of [write_outputs] leaves in [q]: that of the
    last entry written to it, if any. *)
Fixpoint last_write (artifacts_dir q : pystr) (entries : list (pystr * bytes))
  : option bytes :=
  match entries with
  | [] => None
  | (p, c) :: entries' =>
      match last_write artifacts_dir q entries' with
      | Some c' => Some c'
      | None => if str_eqb q (artifact_file artifacts_dir p) then Some c
                else None
      end
  end.

(** The mapping [written] after the loop. *)
Definition written_artifacts (artifacts_dir : pystr)
  (entries : list (pystr * bytes)) (written : dict pystr) : dict pystr :=
  fold_left
    (fun acc e => dict_set acc (fst e) (artifact_file artifacts_dir (fst e)))
    entries written.

(** [p] is a regular file that can be opened for reading. *)
Definition is_readable (w : world) (p : pystr) : bool :=
  match fs w p with Some (File true _) => true | _ => false end.

(** A run whose config is accepted but cannot be hashed: the file
    [/d/sur.json] holds a JSON object whose [note] is the escape of a lone
    surrogate, which the parser turns into that code point. *)
Module SurrogateSample.

Definition cfg : dict pyval :=
  [(py "transform", PStr (py "noop")); (py "seed", PInt 1);
   (py "note", PStr [0xD800])].

(** The text of the file, in ASCII. *)
Definition text : pystr :=
  match @json_encode Sample.printer pretty_opts 0 (PDict cfg) with
  | Ok s => s
  | Err _ => []
  end.

Definition content : bytes :=
  match str_encode text with
  | Ok b => b
  | Err _ => []
  end.

Definition runtime : Runtime :=
  {| float_repr := fun _ => py "0.0";
     json_loads := fun s => if str_eqb s text then Some (PDict cfg) else None;
     unicode_upper := fun s => s;
     unicode_lower := fun s => s |}.

Definition w : world :=
  set_fs Sample.w0
    (fs_set (fs Sample.w0) (py "/d/sur.json") (File true content)).

Definition args : Args := Sample.args_of "a.txt" "sur.json".

End SurrogateSample.

(* ------------------------------------------------------------------ *)
(** ** [json.dumps] on an arbitrary object *)

(** [canonical_json_dumps] and [sha256_json] take [Any].  [pyval] holds
    the values the pipeline passes to them, which come from [json.loads];
    the module [Obj] holds what a caller can pass: dicts with keys that
    are not [str], objects [json] has no encoding for, and lists and
    dicts that contain themselves.  The encoder here follows the one
    [json.dumps] runs, step by step, with the two limits of the
    interpreter it can meet. *)
Module Obj.

(** A dict key: a [str], an [int], a [bool], a [float] (its 64-bit
    pattern), [None], or a hashable object of another type (a tuple,
    [bytes], ...) whose [<] returns or raises [TypeError], as that of the
    built-in types does.  The keys of one dict are pairwise different. *)
Inductive key :=
| KStr (s : pystr)
| KInt (z : Z)
| KBool (b : bool)
| KFloat (bits : N)
| KNone
| KOther.

(** An object as [json.dumps] walks it: the graph of the object unfolded
    from the root along every path.  [OList] is a list or a tuple.
    [OOther] is an object of a type the encoder has no case for ([bytes],
    a set, an instance of a class).  [OBack] stands where a path comes
    back to a list or dict it is already inside: the value contains
    itself. *)
Inductive pyobj :=
| ONone
| OBool (b : bool)
| OInt (z : Z)
| OFloat (bits : N)
| OStr (s : pystr)
| OOther
| OList (l : list pyobj)
| ODict (d : list (key * pyobj))
| OBack.

(** The state of the interpreter that the encoder depends on: how many
    lists and dicts can be entered one inside the other, from where the
    call is made, before [RecursionError]; [sys.get_int_max_str_digits()],
    where [0] is no limit; and [<] between two numeric keys of which one
    is a [float]. *)
Record interp := {
  recursion_limit : nat;
  int_max_str_digits : nat;
  float_key_lt : key -> key -> bool
}.

(** The number of decimal digits of [z], without the sign. *)
Definition int_digits (z : Z) : nat := List.length (int_repr (Z.abs z)).

Definition too_long (I : interp) (z : Z) : bool :=
  ((0 <? int_max_str_digits I) && (int_max_str_digits I <? int_digits z))%nat.

(** [int.__repr__]: [ValueError] above the digit limit. *)
Definition int_str (I : interp) (z : Z) : result pystr :=
  if too_long I z then raise ValueError MsgRuntime else Ok (int_repr z).

(** The key as the encoder writes it; [TypeError] ("keys must be str,
    int, float, bool or None") for any other type. *)
Definition key_str `{Runtime} (I : interp) (k : key) : result pystr :=
  match k with
  | KStr s => Ok s
  | KFloat f => Ok (float_repr f)
  | KBool true => Ok (py "true")
  | KBool false => Ok (py "false")
  | KNone => Ok (py "null")
  | KInt z => int_str I z
  | KOther => raise TypeError MsgRuntime
  end.





(** The value of an [int] or [bool] key. *)
Definition key_num (k : key) : option Z :=
  match k with
  | KInt z => Some z
  | KBool true => Some 1%Z
  | KBool false => Some 0%Z
  | _ => None
  end.

(** [x < y] on keys: by code points on two [str], by value on two
    numbers, and [TypeError] ("'<' not supported between instances of
    ...") otherwise.  Keys of a type the encoder rejects are taken as
    unordered; whether their [<] raises or not, the call ends in
    [TypeError]. *)
Definition key_lt (I : interp) (x y : key) : result bool :=
  match x, y with
  | KStr a, KStr b => Ok (str_ltb a b)
  | (KInt _ | KBool _ | KFloat _), (KInt _ | KBool _ | KFloat _) =>
      match key_num x, key_num y with
      | Some a, Some b => Ok (a <? b)%Z
      | _, _ => Ok (float_key_lt I x y)
      end
  | _, _ => raise TypeError MsgRuntime
  end.

(** [<] on the [(key, value)] tuples of [dict.items()]: the keys of a dict
    differ, so the comparison is that of the keys. *)
Definition item_lt {A} (I : interp) (x y : key * A) : result bool :=
  key_lt I (fst x) (fst y).

(** [sorted(l)] with a [<] that may raise: the sort of [sorted] above,
    stopping at the first comparison that raises. *)
Fixpoint insert_r {A} (lt : A -> A -> result bool) (x : A) (l : list A)
  : result (list A) :=
  match l with
  | [] => Ok [x]
  | y :: l' =>
      match lt y x with
      | Ok true =>
          match insert_r lt x l' with
          | Ok r => Ok (y :: r)
          | Err e => Err e
          end
      | Ok false => Ok (x :: y :: l')
      | Err e => Err e
      end
  end.

Fixpoint sorted_r {A} (lt : A -> A -> result bool) (l : list A)
  : result (list A) :=
  match l with
  | [] => Ok []
  | x :: l' =>
      match sorted_r lt l' with
      | Ok s => insert_r lt x s
      | Err e => Err e
      end
  end.

(** [json.dumps(v, ...)] at nesting depth [level], with [budget] lists or
    dicts still to enter.  Entering a list or dict comes first and raises
    [RecursionError] when the budget is used up; a list or dict that is
    already being encoded raises [ValueError] ("Circular reference
    detected"); the items of a dict are sorted, then each key is written,
    then its value. *)
Fixpoint dumps `{Runtime} (o : json_opts) (I : interp) (budget level : nat)
  (v : pyobj) {struct budget} : result pystr :=
  match v with
  | ONone => Ok (py "null")
  | OBool true => Ok (py "true")
  | OBool false => Ok (py "false")
  | OInt z => int_str I z
  | OFloat f => Ok (float_repr f)
  | OStr s => Ok (json_string (ensure_ascii o) s)
  | OOther => raise TypeError MsgRuntime
  | OBack =>
      match budget with
      | O => raise RecursionError MsgRuntime
      | S _ => raise ValueError MsgRuntime
      end
  | OList l =>
      match budget with
      | O => raise RecursionError MsgRuntime
      | S b =>
          match rmap (dumps o I b (S level)) l with
          | Ok parts => Ok (json_container o level (py "[") (py "]") parts)
          | Err e => Err e
          end
      end
  | ODict d =>
      match budget with
      | O => raise RecursionError MsgRuntime
      | S b =>
          match (if sort_keys o then sorted_r (item_lt I) d else Ok d) with
          | Ok items =>
              match
                rmap (fun kv =>
                        match key_str I (fst kv) with
                        | Ok k =>
                            match dumps o I b (S level) (snd kv) with
                            | Ok s => Ok (k, s)
                            | Err e => Err e
                            end
                        | Err e => Err e
                        end) items
              with
              | Ok rendered =>
                  Ok (json_container o level (py "{") (py "}")
                        (map (render_item o) rendered))
              | Err e => Err e
              end
          | Err e => Err e
          end
      end
  end.

(** [canonical_json_dumps(obj)] for any object. *)
Definition canonical_json_dumps `{Runtime} (I : interp) (obj : pyobj)
  : result pystr :=
  dumps canonical_opts I (recursion_limit I) 0 obj.

(** [sha256_json(obj)] for any object. *)
Definition sha256_json `{Runtime} (I : interp) (obj : pyobj)
  : result pystr :=
  match canonical_json_dumps I obj with
  | Ok s =>
      match str_encode s with
      | Ok b => Ok (sha256_bytes b)
      | Err e => Err e
      end
  | Err e => Err e
  end.

(** A value of the pipeline as an object: [bytes] is one of the types
    without an encoding, and the keys are [str]. *)
Fixpoint inject (v : pyval) : pyobj :=
  match v with
  | PNone => ONone
  | PBool b => OBool b
  | PInt z => OInt z
  | PFloat f => OFloat f
  | PStr s => OStr s
  | PBytes _ => OOther
  | PList l => OList (map inject l)
  | PDict d =>
      ODict
        ((fix go (d : list (pystr * pyval)) : list (key * pyobj) :=
            match d with
            | [] => []
            | (k, x) :: d' => (KStr k, inject x) :: go d'
            end) d)
  end.

(** *** Why a call raises *)

(** The value holds a list or dict that contains itself. *)
Fixpoint circular (v : pyobj) : bool :=
  match v with
  | OBack => true
  | OList l => existsb circular l
  | ODict d =>
      (fix go (d : list (key * pyobj)) : bool :=
         match d with
         | [] => false
         | (_, x) :: d' => circular x || go d'
         end) d
  | _ => false
  end.

(** The value holds an [int], as a value or as a key, with more digits
    than the limit. *)
Definition long_key (I : interp) (k : key) : bool :=
  match k with
  | KInt z => too_long I z
  | _ => false
  end.

Fixpoint long_int (I : interp) (v : pyobj) : bool :=
  match v with
  | OInt z => too_long I z
  | OList l => existsb (long_int I) l
  | ODict d =>
      (fix go (d : list (key * pyobj)) : bool :=
         match d with
         | [] => false
         | (k, x) :: d' => long_key I k || long_int I x || go d'
         end) d
  | _ => false
  end.

(** The keys of [d] cannot be put in order: sorting its items raises. *)
Definition unorderable {A} (I : interp) (d : list (key * A)) : bool :=
  negb (is_ok (sorted_r (item_lt I) d)).

Definition other_key (k : key) : bool :=
  match k with
  | KOther => true
  | _ => false
  end.

(** The value holds something [json.dumps] has no text for: an object or
    a key of a type without an encoding, or, when the keys are to be
    sorted, a dict whose keys cannot be ordered. *)
Fixpoint unsupported (sorting : bool) (I : interp) (v : pyobj) : bool :=
  match v with
  | OOther => true
  | OList l => existsb (unsupported sorting I) l
  | ODict d =>
      (sorting && unorderable I d)
      || (fix go (d : list (key * pyobj)) : bool :=
            match d with
            | [] => false
            | (k, x) :: d' => other_key k || unsupported sorting I x || go d'
            end) d
  | _ => false
  end.

(** How many lists and dicts are entered one inside the other. *)
Fixpoint depth (v : pyobj) : nat :=
  match v with
  | OBack => 1
  | OList l => S (list_max (map depth l))
  | ODict d =>
      S ((fix go (d : list (key * pyobj)) : nat :=
            match d with
            | [] => O
            | (_, x) :: d' => Nat.max (depth x) (go d')
            end) d)
  | _ => O
  end.


End Obj.

(** [json.dumps] returns on [v]: nothing in the value makes it raise. *)
Definition encodes (sorting : bool) (I : Obj.interp) (budget : nat)
  (v : Obj.pyobj) : Prop :=
  Obj.unsupported sorting I v = false
  /\ Obj.circular v = false
  /\ Obj.long_int I v = false
  /\ (Obj.depth v <= budget)%nat.

(** [json.dumps] raises [e] on [v]: a built-in exception whose class names
    something that is in the value. *)
Definition raised_for (sorting : bool) (I : Obj.interp) (budget : nat)
  (v : Obj.pyobj) (e : exn) : Prop :=
  exn_msg e = MsgRuntime
  /\ match exn_cls e with
     | TypeError => Obj.unsupported sorting I v = true
     | ValueError => Obj.circular v || Obj.long_int I v = true
     | RecursionError => (budget < Obj.depth v)%nat
     | _ => False
     end.

(** An interpreter for the samples: room for 1000 lists and dicts one
    inside the other at the call, and the default digit limit
    ([sys.get_int_max_str_digits()] is 4300).  The samples have no
    [float] key, so its order on them is never asked. *)
Definition sample_interp : Obj.interp :=
  {| Obj.recursion_limit := 1000;
     Obj.int_max_str_digits := 4300;
     Obj.float_key_lt := fun _ _ => false |}.





(* ================================================================== *)
(** * Properties *)
(* ================================================================== *)

(** ** hashlib.sha256 on the standard test vectors *)

Example sha256_abc :
  SHA256.hexdigest (SHA256.update SHA256.new (pyb "abc"))
  = py "ba7816bf8f01cfea414140de5dae2223b00361a396177a9cb410ff61f20015ad".
Proof. vm_compute. reflexivity. Qed.

Example sha256_empty :
  SHA256.hexdigest SHA256.new
  = py "e3b0c44298fc1c149afbf4c8996fb92427ae41e4649b934ca495991b7852b855".
Proof. vm_compute. reflexivity. Qed.

Example sha256_two_blocks :
  SHA256.hexdigest
    (SHA256.update (SHA256.update SHA256.new (pyb "abcdbcdecdefdefgefghfghighij"))
                   (pyb "hijkijkljklmklmnlmnomnopnopq"))
  = py "248d6a61d20638b8e5c026930c3e6039a33ce45964ff2167f6ecedd419db06c1".
Proof. vm_compute. reflexivity. Qed.

(** ** The order on strings *)

Lemma str_eqb_eq (a b : pystr) : str_eqb a b = true <-> a = b.
Proof.
  revert b; induction a as [|x a IH]; intros [|y b]; simpl;
    try (split; [discriminate | discriminate]); try tauto.
  rewrite andb_true_iff, N.eqb_eq, IH.
  split; [intros [-> ->]; reflexivity | intros H; inversion H; auto].
Qed.

Lemma str_eqb_refl (a : pystr) : str_eqb a a = true.
Proof. apply str_eqb_eq; reflexivity. Qed.

Lemma str_eqb_neq (a b : pystr) : str_eqb a b = false <-> a <> b.
Proof.
  rewrite <- str_eqb_eq. destruct (str_eqb a b); split; congruence.
Qed.

Lemma str_eqb_sym (a b : pystr) : str_eqb a b = str_eqb b a.
Proof.
  destruct (str_eqb a b) eqn:E.
  - apply str_eqb_eq in E; subst; symmetry; apply str_eqb_refl.
  - symmetry; apply str_eqb_neq; apply str_eqb_neq in E; congruence.
Qed.

Lemma str_compare_eq (a b : pystr) : str_compare a b = Eq -> a = b.
Proof.
  revert b; induction a as [|x a IH]; intros [|y b]; simpl;
    try discriminate; auto.
  destruct (N.compare_spec x y) as [Hxy| |]; try discriminate.
  intros Hc; subst; f_equal; auto.
Qed.

Lemma str_compare_antisym (a b : pystr) :
  str_compare b a = CompOpp (str_compare a b).
Proof.
  revert b; induction a as [|x a IH]; intros [|y b]; simpl; auto.
  rewrite (N.compare_antisym x y).
  destruct (N.compare x y); simpl; auto.
Qed.

Lemma str_compare_trans (a b c : pystr) :
  str_compare a b = Lt -> str_compare b c = Lt -> str_compare a c = Lt.
Proof.
  revert b c; induction a as [|x a IH]; intros [|y b] [|z c]; simpl;
    try discriminate; auto.
  destruct (N.compare_spec x y) as [Hxy|Hxy|Hxy],
           (N.compare_spec y z) as [Hyz|Hyz|Hyz]; subst;
    try discriminate; intros H1 H2.
  - rewrite N.compare_refl; eauto.
  - apply N.compare_lt_iff in Hyz; rewrite Hyz; reflexivity.
  - apply N.compare_lt_iff in Hxy; rewrite Hxy; reflexivity.
  - assert (x < z) as Hxz by lia.
    apply N.compare_lt_iff in Hxz; rewrite Hxz; reflexivity.
Qed.

Lemma str_ltb_irrefl (a : pystr) : str_ltb a a = false.
Proof.
  unfold str_ltb. destruct (str_compare a a) eqn:E; auto.
  pose proof (str_compare_antisym a a) as H; rewrite E in H; discriminate.
Qed.

Lemma str_ltb_trans (a b c : pystr) :
  str_ltb a b = true -> str_ltb b c = true -> str_ltb a c = true.
Proof.
  unfold str_ltb.
  destruct (str_compare a b) eqn:E1; try discriminate.
  destruct (str_compare b c) eqn:E2; try discriminate.
  rewrite (str_compare_trans _ _ _ E1 E2); auto.
Qed.

Lemma str_ltb_total (a b : pystr) :
  str_ltb a b = false -> str_ltb b a = false -> a = b.
Proof.
  unfold str_ltb. rewrite (str_compare_antisym a b).
  destruct (str_compare a b) eqn:E; simpl; try discriminate.
  intros _ _; apply str_compare_eq; assumption.
Qed.

(** ** [sorted] on a strict total order *)

Section Sorting.

Variable A : Type.
Variable ltb : A -> A -> bool.
Hypothesis ltb_irrefl : forall x, ltb x x = false.
Hypothesis ltb_trans :
  forall x y z, ltb x y = true -> ltb y z = true -> ltb x z = true.
Hypothesis ltb_total :
  forall x y, ltb x y = false -> ltb y x = false -> x = y.

Lemma ltb_leq (x y : A) : ltb x y = true -> leq ltb x y.
Proof.
  unfold leq; intros H. destruct (ltb y x) eqn:E; auto.
  pose proof (ltb_trans _ _ _ H E) as Hxx.
  rewrite ltb_irrefl in Hxx; discriminate.
Qed.

Lemma leq_trans (x y z : A) :
  leq ltb x y -> leq ltb y z -> leq ltb x z.
Proof.
  unfold leq; intros H1 H2.
  destruct (ltb z x) eqn:E; auto.
  destruct (ltb x y) eqn:Exy.
  - rewrite (ltb_trans _ _ _ E Exy) in H2; discriminate.
  - rewrite (ltb_total _ _ Exy H1) in E; congruence.
Qed.

Lemma leq_antisym (x y : A) : leq ltb x y -> leq ltb y x -> x = y.
Proof. unfold leq; intros; apply ltb_total; assumption. Qed.

Lemma insert_sorted_perm (x : A) (l : list A) :
  Permutation (insert_sorted ltb x l) (x :: l).
Proof.
  induction l as [|y l IH]; simpl; auto.
  destruct (ltb y x); auto.
  rewrite IH; apply perm_swap.
Qed.

Lemma sorted_perm (l : list A) : Permutation (sorted ltb l) l.
Proof.
  induction l as [|x l IH]; simpl; auto.
  rewrite insert_sorted_perm; auto.
Qed.

Lemma insert_sorted_ordered (x : A) (l : list A) :
  StronglySorted (leq ltb) l ->
  StronglySorted (leq ltb) (insert_sorted ltb x l).
Proof.
  induction 1 as [|y l Hs IH Hy]; simpl.
  - repeat constructor.
  - destruct (ltb y x) eqn:E.
    + constructor; auto.
      assert (Forall (leq ltb y) (x :: l)) as Hall
        by (constructor; auto; apply ltb_leq; assumption).
      rewrite Forall_forall in *; intros z Hz; apply Hall.
      eapply Permutation_in; [apply insert_sorted_perm | exact Hz].
    + constructor; [constructor; auto|].
      constructor; [exact E|].
      eapply Forall_impl; [|exact Hy].
      intros z Hz; eapply leq_trans; [exact E | exact Hz].
Qed.

Lemma sorted_ordered (l : list A) : StronglySorted (leq ltb) (sorted ltb l).
Proof.
  induction l; simpl; [constructor | apply insert_sorted_ordered; auto].
Qed.

Lemma ordered_perm_unique (l1 l2 : list A) :
  StronglySorted (leq ltb) l1 -> StronglySorted (leq ltb) l2 ->
  Permutation l1 l2 -> l1 = l2.
Proof.
  intros H1; revert l2; induction H1 as [|a l1 Hs1 IH Ha];
    intros l2 H2 HP.
  - apply Permutation_nil in HP; subst; reflexivity.
  - destruct H2 as [|b l2 Hs2 Hb].
    + symmetry in HP; apply Permutation_nil in HP; discriminate.
    + assert (a = b) as ->.
      { assert (In b (a :: l1)) as Hin1
          by (eapply Permutation_in; [symmetry; exact HP | left; auto]).
        assert (In a (b :: l2)) as Hin2
          by (eapply Permutation_in; [exact HP | left; auto]).
        destruct Hin1 as [|Hin1]; auto.
        destruct Hin2 as [|Hin2]; auto.
        rewrite Forall_forall in Ha, Hb.
        apply leq_antisym; auto. }
      f_equal; apply IH; auto.
      eapply Permutation_cons_inv; exact HP.
Qed.

(** The result of [sorted] does not depend on the order of its input. *)
Lemma sorted_permutation (l1 l2 : list A) :
  Permutation l1 l2 -> sorted ltb l1 = sorted ltb l2.
Proof.
  intros HP; apply ordered_perm_unique; try apply sorted_ordered.
  rewrite !sorted_perm; assumption.
Qed.

(** Without repetitions the result is strictly increasing. *)
Lemma sorted_strict (l : list A) :
  NoDup l -> StronglySorted (lt_rel ltb) (sorted ltb l).
Proof.
  intros Hnd.
  assert (NoDup (sorted ltb l)) as Hnd'
    by (eapply Permutation_NoDup; [symmetry; apply sorted_perm | auto]).
  pose proof (sorted_ordered l) as Hs.
  induction Hs as [|a l' Hs IH Ha]; constructor.
  - apply IH; inversion Hnd'; auto.
  - inversion Hnd' as [|? ? Hnotin _]; subst.
    rewrite Forall_forall in *; intros z Hz.
    unfold lt_rel. destruct (ltb a z) eqn:E; auto.
    exfalso; apply Hnotin.
    rewrite (ltb_total _ _ E (Ha z Hz)); assumption.
Qed.

End Sorting.

Lemma sorted_keys_permutation (l1 l2 : list pystr) :
  Permutation l1 l2 -> sorted str_ltb l1 = sorted str_ltb l2.
Proof.
  apply sorted_permutation;
    [apply str_ltb_irrefl | apply str_ltb_trans | apply str_ltb_total].
Qed.

Lemma sorted_keys_strict (l : list pystr) :
  NoDup l -> StronglySorted str_lt (sorted str_ltb l).
Proof.
  apply sorted_strict;
    [apply str_ltb_irrefl | apply str_ltb_trans | apply str_ltb_total].
Qed.

(** Sorting entries by key sorts the keys. *)
Lemma insert_sorted_keys {V} (x : pystr * V) (l : list (pystr * V)) :
  map fst (insert_sorted key_ltb x l) = insert_sorted str_ltb (fst x) (map fst l).
Proof.
  induction l as [|y l IH]; simpl; auto.
  unfold key_ltb at 1. destruct (str_ltb (fst y) (fst x)); simpl; congruence.
Qed.

Lemma sorted_keys {V} (l : list (pystr * V)) :
  map fst (sorted key_ltb l) = sorted str_ltb (map fst l).
Proof.
  induction l as [|x l IH]; simpl; auto.
  rewrite insert_sorted_keys; congruence.
Qed.

Lemma insert_sorted_In {A} (ltb : A -> A -> bool) (x y : A) (l : list A) :
  In y (insert_sorted ltb x l) <-> y = x \/ In y l.
Proof.
  induction l as [|z l IH]; simpl.
  - intuition.
  - destruct (ltb z x); simpl; rewrite ?IH; intuition.
Qed.

Lemma sorted_In {A} (ltb : A -> A -> bool) (y : A) (l : list A) :
  In y (sorted ltb l) <-> In y l.
Proof.
  induction l as [|x l IH]; simpl; [tauto|].
  rewrite insert_sorted_In, IH; intuition.
Qed.

(** ** Dictionaries *)

Lemma dict_get_Some_In {V} (d : dict V) (k : pystr) (v : V) :
  dict_get d k = Some v -> In (k, v) d.
Proof.
  induction d as [|[k' v'] d IH]; simpl; [discriminate|].
  destruct (str_eqb k k') eqn:E.
  - apply str_eqb_eq in E; subst; intros H; inversion H; auto.
  - auto.
Qed.

Lemma dict_get_None {V} (d : dict V) (k : pystr) :
  dict_get d k = None <-> ~ In k (map fst d).
Proof.
  induction d as [|[k' v'] d IH]; simpl; [tauto|].
  destruct (str_eqb k k') eqn:E.
  - apply str_eqb_eq in E; subst; split; [discriminate | tauto].
  - apply str_eqb_neq in E. rewrite IH. intuition.
Qed.

Lemma dict_get_In {V} (d : dict V) (k : pystr) (v : V) :
  dict_wf d -> In (k, v) d -> dict_get d k = Some v.
Proof.
  unfold dict_wf.
  induction d as [|[k' v'] d IH]; simpl; [tauto|].
  intros Hnd [Heq|Hin]; inversion Hnd as [|? ? Hnotin Hnd']; subst.
  - inversion Heq; subst. rewrite str_eqb_refl; reflexivity.
  - destruct (str_eqb k k') eqn:E; auto.
    apply str_eqb_eq in E; subst.
    exfalso; apply Hnotin. apply (in_map fst) in Hin; exact Hin.
Qed.

Lemma dict_wf_permutation {V} (d1 d2 : dict V) :
  Permutation d1 d2 -> dict_wf d1 -> dict_wf d2.
Proof.
  unfold dict_wf; intros HP Hnd.
  eapply Permutation_NoDup; [apply Permutation_map; exact HP | exact Hnd].
Qed.

(** Lookup does not see the insertion order. *)
Lemma dict_get_permutation {V} (d1 d2 : dict V) (k : pystr) :
  dict_wf d1 -> Permutation d1 d2 -> dict_get d1 k = dict_get d2 k.
Proof.
  intros Hwf HP.
  pose proof (dict_wf_permutation _ _ HP Hwf) as Hwf2.
  destruct (dict_get d1 k) as [v|] eqn:E1.
  - symmetry; apply dict_get_In; auto.
    eapply Permutation_in; [exact HP|]. apply dict_get_Some_In; auto.
  - destruct (dict_get d2 k) as [v|] eqn:E2; auto.
    apply dict_get_Some_In in E2.
    apply dict_get_None in E1. exfalso; apply E1.
    apply (in_map fst) in E2; simpl in E2.
    eapply Permutation_in; [symmetry; apply Permutation_map; exact HP | exact E2].
Qed.

(** ** C2: the run identifier and the order of the entries *)

Lemma encode_all_app (a b : list pystr) :
  encode_all (a ++ b)
  = (x <- encode_all a ;; y <- encode_all b ;; Ok (x ++ y))%result.
Proof.
  induction a as [|s a IH]; simpl.
  - destruct (encode_all b); reflexivity.
  - destruct (str_encode s); simpl; auto.
    rewrite IH. destruct (encode_all a); simpl; auto.
    destruct (encode_all b); reflexivity.
Qed.

Lemma feed_inputs_spec (hashes : dict pystr) (l : list (pystr * pystr))
  (h : SHA256.hasher) :
  (forall k v, In (k, v) l -> dict_get hashes k = Some v) ->
  feed_inputs hashes (map fst l) h
  = (cs <- encode_all (flat_map (fun ph => [fst ph; snd ph]) l) ;;
     Ok {| SHA256.fed := SHA256.fed h ++ cs |})%result.
Proof.
  revert h; induction l as [|[k v] l IH]; intros h Hget; simpl.
  - rewrite app_nil_r; destruct h; reflexivity.
  - destruct (str_encode k) as [bk|e]; simpl; auto.
    unfold dict_getitem. rewrite (Hget k v) by (left; reflexivity). simpl.
    destruct (str_encode v) as [bv|e]; simpl; auto.
    rewrite IH by (intros; apply Hget; right; assumption).
    destruct (encode_all _); simpl; auto.
    unfold SHA256.update; simpl. rewrite <- !app_assoc; reflexivity.
Qed.

Lemma run_id_hasher_spec (hashes : dict pystr) (cfg_hash version : pystr) :
  dict_wf hashes ->
  run_id_hasher hashes cfg_hash version
  = (cs <- encode_all (spec_feed_sequence hashes cfg_hash version) ;;
     Ok {| SHA256.fed := cs |})%result.
Proof.
  intros Hwf. unfold run_id_hasher, spec_feed_sequence, dict_keys.
  rewrite <- sorted_keys, feed_inputs_spec.
  - rewrite encode_all_app. simpl.
    destruct (encode_all (flat_map _ _)) as [cs|e]; simpl; auto.
    destruct (str_encode cfg_hash); simpl; auto.
    destruct (str_encode version); simpl; auto.
    unfold SHA256.update; simpl. rewrite <- app_assoc; reflexivity.
  - intros k v Hin. apply dict_get_In; auto.
    apply sorted_In in Hin; exact Hin.
Qed.

Lemma run_id_hasher_permutation (d1 d2 : dict pystr) (cfg_hash version : pystr) :
  dict_wf d1 -> Permutation d1 d2 ->
  run_id_hasher d1 cfg_hash version = run_id_hasher d2 cfg_hash version.
Proof.
  intros Hwf HP. unfold run_id_hasher, dict_keys.
  rewrite (sorted_keys_permutation (map fst d1) (map fst d2))
    by (apply Permutation_map; exact HP).
  assert (forall paths h, feed_inputs d1 paths h = feed_inputs d2 paths h) as ->;
    [|reflexivity].
  induction paths as [|p paths IH]; intros h; simpl; auto.
  destruct (str_encode p); simpl; auto.
  unfold dict_getitem.
  rewrite (dict_get_permutation d1 d2 p Hwf HP).
  destruct (dict_get d2 p); simpl; auto.
  destruct (str_encode _); simpl; auto.
Qed.

Lemma str_encode_total (s : pystr) :
  encodable s = true -> exists b, str_encode s = Ok b.
Proof.
  induction s as [|c s IH]; simpl; [eauto|].
  rewrite andb_true_iff. intros [Hc Hs].
  destruct (IH Hs) as [b Hb]. rewrite Hb.
  apply andb_true_iff in Hc. destruct Hc as [Hsur Hmax].
  unfold utf8_encode_char.
  destruct (c <? 0x80); [eauto|]. destruct (c <? 0x800); [eauto|].
  destruct (is_surrogate c); [discriminate|].
  destruct (c <? 0x10000); [eauto|]. rewrite Hmax. eauto.
Qed.

Lemma encode_all_total (l : list pystr) :
  forallb encodable l = true -> exists bs, encode_all l = Ok bs.
Proof.
  induction l as [|s l IH]; simpl; [eauto|].
  rewrite andb_true_iff. intros [Hs Hl].
  destruct (str_encode_total s Hs) as [b ->].
  destruct (IH Hl) as [bs ->]. simpl. eauto.
Qed.

(** C2. [_compute_run_id] returns the same identifier (or raises the same
    exception) whatever the insertion order of the entries of
    [input_hashes]: the hasher is fed the encoded (path, hash) pairs in
    strictly increasing order of path, then the config hash, then the
    pipeline version; and it does return when these strings are encodable. *)
Theorem compute_run_id_order_invariant
  (d1 d2 : dict pystr) (cfg_hash version : pystr) :
  dict_wf d1 -> Permutation d1 d2 ->
  _compute_run_id d1 cfg_hash version = _compute_run_id d2 cfg_hash version
  /\ run_id_hasher d1 cfg_hash version
     = (cs <- encode_all (spec_feed_sequence d1 cfg_hash version) ;;
        Ok {| SHA256.fed := cs |})%result
  /\ StronglySorted str_lt (map fst (sorted key_ltb d1))
  /\ Permutation (sorted key_ltb d1) d1
  /\ (forallb encodable (spec_feed_sequence d1 cfg_hash version) = true ->
      exists id, _compute_run_id d1 cfg_hash version = Ok id).
Proof.
  intros Hwf HP. repeat split.
  - unfold _compute_run_id.
    rewrite (run_id_hasher_permutation d1 d2 cfg_hash version Hwf HP).
    reflexivity.
  - apply run_id_hasher_spec; assumption.
  - rewrite sorted_keys. apply sorted_keys_strict. exact Hwf.
  - apply sorted_perm.
  - intros Henc. unfold _compute_run_id.
    rewrite (run_id_hasher_spec d1 cfg_hash version Hwf).
    destruct (encode_all_total _ Henc) as [cs ->]. simpl. eauto.
Qed.

Example compute_run_id_order_invariant_witness :
  let d1 := [(py "/d/b.txt", py "16"); (py "/d/a.txt", py "a5")] in
  let d2 := [(py "/d/a.txt", py "a5"); (py "/d/b.txt", py "16")] in
  dict_wf d1 /\ Permutation d1 d2
  /\ _compute_run_id d1 (py "10") (py "1.0")
     = _compute_run_id d2 (py "10") (py "1.0")
  /\ exists id, _compute_run_id d1 (py "10") (py "1.0") = Ok id.
Proof.
  assert (dict_wf [(py "/d/b.txt", py "16"); (py "/d/a.txt", py "a5")]) as Hwf.
  { unfold dict_wf; simpl. constructor.
    - simpl; intros [Heq|[]]; vm_compute in Heq; discriminate.
    - constructor; [simpl; tauto | constructor]. }
  split; [exact Hwf|]. split; [apply perm_swap|].
  destruct (compute_run_id_order_invariant _ _ (py "10") (py "1.0")
              Hwf (perm_swap _ _ _)) as (Hsame & _ & _ & _ & Hret).
  split; [exact Hsame|]. apply Hret. vm_compute; reflexivity.
Defined.

(** ** The transformer *)

Lemma dict_get_contains {V} (d : dict V) (k : pystr) (v : V) :
  dict_get d k = Some v -> dict_contains d k = true.
Proof. unfold dict_contains; intros ->; reflexivity. Qed.

Lemma dict_set_fresh {V} (d : dict V) (k : pystr) (v : V) :
  ~ In k (map fst d) -> dict_set d k v = d ++ [(k, v)].
Proof.
  induction d as [|[k' v'] d IH]; simpl; auto.
  intros Hnotin. destruct (str_eqb k k') eqn:E.
  - apply str_eqb_eq in E; subst; tauto.
  - rewrite IH; tauto.
Qed.

(** A comprehension whose value never raises, over distinct keys, is a
    [map]. *)
Lemma dict_comp_total {X V} (key : X -> pystr) (val : X -> result V)
  (f : X -> V) (xs : list X) (acc : dict V) :
  (forall x, val x = Ok (f x)) ->
  NoDup (map fst acc ++ map key xs) ->
  dict_comp key val xs acc = Ok (acc ++ map (fun x => (key x, f x)) xs).
Proof.
  intros Hval.
  revert acc; induction xs as [|x xs IH]; intros acc Hnd; simpl.
  - rewrite app_nil_r; reflexivity.
  - rewrite Hval, dict_set_fresh.
    + rewrite IH.
      * rewrite <- app_assoc; reflexivity.
      * rewrite map_app; simpl. rewrite <- app_assoc; exact Hnd.
    + apply NoDup_remove_2 in Hnd. intros Hin; apply Hnd.
      apply in_or_app; left; exact Hin.
Qed.

Lemma transform_noop `{Runtime} (data : bytes) :
  _transform_bytes data (PStr (py "noop")) = Ok data.
Proof. reflexivity. Qed.

Lemma process_noop `{Runtime} (raw : dict bytes) (parameters : dict pyval) :
  dict_get parameters (py "transform") = Some (PStr (py "noop")) ->
  dict_contains parameters (py "seed") = true ->
  dict_wf raw ->
  process raw parameters = Ok {| items := raw |}.
Proof.
  intros Ht Hs Hwf. unfold process, dict_getitem.
  rewrite (dict_get_contains _ _ _ Ht), Hs, Ht. simpl.
  rewrite (dict_comp_total fst _ snd)
    by (auto using transform_noop || exact Hwf).
  simpl. do 2 f_equal. unfold dict_items. clear.
  induction raw as [|[k v] raw IH]; simpl; [reflexivity|].
  rewrite IH; reflexivity.
Qed.

Lemma process_single `{Runtime} (k : pystr) (data out : bytes)
  (parameters : dict pyval) (t : pyval) :
  dict_get parameters (py "transform") = Some t ->
  dict_contains parameters (py "seed") = true ->
  _transform_bytes data t = Ok out ->
  process [(k, data)] parameters = Ok {| items := [(k, out)] |}.
Proof.
  intros Ht Hs Hout. unfold process, dict_getitem.
  rewrite (dict_get_contains _ _ _ Ht), Hs, Ht. simpl.
  rewrite Hout. reflexivity.
Qed.

(** C3. On the entry [b"Hello World"], [process] yields [b"HELLO WORLD"]
    under [transform=upper] and [b"hello world"] under [transform=lower];
    under [transform=noop] every mapping of byte payloads, valid UTF-8 or
    not, is returned unchanged. *)
Theorem process_case_transforms `{Runtime}
  (p_upper p_lower p_noop : dict pyval) (k : pystr) (raw : dict bytes) :
  dict_get p_upper (py "transform") = Some (PStr (py "upper")) ->
  dict_contains p_upper (py "seed") = true ->
  dict_get p_lower (py "transform") = Some (PStr (py "lower")) ->
  dict_contains p_lower (py "seed") = true ->
  dict_get p_noop (py "transform") = Some (PStr (py "noop")) ->
  dict_contains p_noop (py "seed") = true ->
  dict_wf raw ->
  process [(k, pyb "Hello World")] p_upper
  = Ok {| items := [(k, pyb "HELLO WORLD")] |}
  /\ process [(k, pyb "Hello World")] p_lower
     = Ok {| items := [(k, pyb "hello world")] |}
  /\ process raw p_noop = Ok {| items := raw |}.
Proof.
  intros Hu Hus Hl Hls Hn Hns Hwf. repeat split.
  - eapply process_single; eauto.
  - eapply process_single; eauto.
  - apply process_noop; assumption.
Qed.

Example process_case_transforms_witness :
  dict_wf Sample.raw_mixed
  /\ bytes_decode [Byte.xff; Byte.xfe] = raise UnicodeDecodeError MsgRuntime
  /\ @process Sample.runtime [(py "f", pyb "Hello World")]
       (Sample.params "upper" (PInt 123))
     = Ok {| items := [(py "f", pyb "HELLO WORLD")] |}
  /\ @process Sample.runtime [(py "f", pyb "Hello World")]
       (Sample.params "lower" (PInt 123))
     = Ok {| items := [(py "f", pyb "hello world")] |}
  /\ @process Sample.runtime Sample.raw_mixed (Sample.params "noop" (PInt 123))
     = Ok {| items := Sample.raw_mixed |}.
Proof.
  assert (dict_wf Sample.raw_mixed) as Hwf.
  { unfold dict_wf; simpl. constructor.
    - simpl; intros [Heq|[]]; vm_compute in Heq; discriminate.
    - constructor; [simpl; tauto | constructor]. }
  split; [exact Hwf|]. split; [reflexivity|].
  exact (@process_case_transforms Sample.runtime
           (Sample.params "upper" (PInt 123))
           (Sample.params "lower" (PInt 123))
           (Sample.params "noop" (PInt 123))
           (py "f") Sample.raw_mixed
           eq_refl eq_refl eq_refl eq_refl eq_refl eq_refl Hwf).
Defined.

(** C9. Two parameter mappings that both contain [seed] and agree on
    [transform] give the same result on every raw-input mapping: the value
    bound to [seed] is never read. *)
Theorem process_ignores_seed `{Runtime}
  (raw : dict bytes) (p1 p2 : dict pyval) :
  dict_contains p1 (py "seed") = true ->
  dict_contains p2 (py "seed") = true ->
  dict_get p1 (py "transform") = dict_get p2 (py "transform") ->
  process raw p1 = process raw p2.
Proof.
  intros H1 H2 Ht. unfold process, dict_contains, dict_getitem in *.
  rewrite Ht.
  destruct (dict_get p2 (py "transform")); simpl; auto.
  destruct (dict_get p1 (py "seed")); try discriminate.
  destruct (dict_get p2 (py "seed")); try discriminate.
  reflexivity.
Qed.

Example process_ignores_seed_witness :
  @process Sample.runtime Sample.raw_mixed (Sample.params "noop" (PInt 1))
  = @process Sample.runtime Sample.raw_mixed
      [(py "seed", PStr (py "other")); (py "extra", PNone);
       (py "transform", PStr (py "noop"))].
Proof.
  exact (@process_ignores_seed Sample.runtime Sample.raw_mixed
           (Sample.params "noop" (PInt 1))
           [(py "seed", PStr (py "other")); (py "extra", PNone);
            (py "transform", PStr (py "noop"))]
           eq_refl eq_refl eq_refl).
Defined.

(** ** The canonical encoder *)

(** Induction on values, with the hypothesis for every member of a list
    or object. *)
Lemma pyval_induction (P : pyval -> Prop) :
  P PNone ->
  (forall b, P (PBool b)) ->
  (forall z, P (PInt z)) ->
  (forall f, P (PFloat f)) ->
  (forall s, P (PStr s)) ->
  (forall b, P (PBytes b)) ->
  (forall l, Forall P l -> P (PList l)) ->
  (forall d, Forall (fun kv => P (snd kv)) d -> P (PDict d)) ->
  forall v, P v.
Proof.
  intros HN HB HI HF HS HY HL HD.
  fix IH 1. intros [ | b | z | f | s | b | l | d].
  - exact HN.
  - apply HB.
  - apply HI.
  - apply HF.
  - apply HS.
  - apply HY.
  - apply HL. induction l as [|x l IHl]; constructor; [apply IH | exact IHl].
  - apply HD. induction d as [|[k x] d IHd]; constructor;
      [apply IH | exact IHd].
Qed.

Lemma json_encode_list `{Runtime} (o : json_opts) (level : nat)
  (l : list pyval) :
  json_encode o level (PList l)
  = match rmap (json_encode o (S level)) l with
    | Ok parts => Ok (json_container o level (py "[") (py "]") parts)
    | Err e => Err e
    end.
Proof.
  simpl.
  match goal with
  | |- match ?a with _ => _ end = match ?b with _ => _ end =>
      assert (a = b) as ->; [|reflexivity]
  end.
  induction l as [|x l IH]; simpl; auto.
  destruct (json_encode o (S level) x); auto. rewrite IH; reflexivity.
Qed.

Lemma json_encode_dict `{Runtime} (o : json_opts) (level : nat)
  (d : list (pystr * pyval)) :
  json_encode o level (PDict d)
  = match rmap_snd (json_encode o (S level)) d with
    | Ok rendered =>
        Ok (json_container o level (py "{") (py "}")
              (map (render_item o)
                 (if sort_keys o then sorted key_ltb rendered else rendered)))
    | Err e => Err e
    end.
Proof.
  simpl.
  match goal with
  | |- match ?a with _ => _ end = match ?b with _ => _ end =>
      assert (a = b) as ->; [|reflexivity]
  end.
  induction d as [|[k x] d IH]; simpl; auto.
  destruct (json_encode o (S level) x); auto. rewrite IH; reflexivity.
Qed.

Lemma representable_list (l : list pyval) :
  representable (PList l) = forallb representable l.
Proof. reflexivity. Qed.

Lemma representable_dict (d : list (pystr * pyval)) :
  representable (PDict d) = forallb (fun kv => representable (snd kv)) d.
Proof.
  simpl. induction d as [|[k x] d IH]; simpl; auto. rewrite IH; reflexivity.
Qed.

Lemma json_encode_outcome `{Runtime} (o : json_opts) (v : pyval) :
  forall level, encode_outcome (json_encode o level v) v.
Proof.
  induction v using pyval_induction; intros level;
    try (simpl; auto; fail).
  - match goal with b : bool |- _ => destruct b end; simpl; auto.
  - match goal with HF : Forall _ _ |- _ => rename HF into IHl end.
    rewrite json_encode_list. unfold encode_outcome.
    rewrite representable_list.
    induction IHl as [|x l Hx _ IH]; simpl; auto.
    specialize (Hx (S level)). unfold encode_outcome in Hx.
    destruct (json_encode o (S level) x) as [s|e].
    + rewrite Hx; simpl.
      destruct (rmap (json_encode o (S level)) l); simpl in *; auto.
    + destruct Hx as [-> ->]; simpl; auto.
  - match goal with HF : Forall _ _ |- _ => rename HF into IHd end.
    rewrite json_encode_dict. unfold encode_outcome.
    rewrite representable_dict.
    induction IHd as [|[k x] d Hx _ IH]; simpl; auto.
    specialize (Hx (S level)). unfold encode_outcome in Hx; simpl in Hx.
    destruct (json_encode o (S level) x) as [s|e].
    + rewrite Hx; simpl.
      destruct (rmap_snd (json_encode o (S level)) d); simpl in *; auto.
    + destruct Hx as [-> ->]; simpl; auto.
Qed.

(** ** C8: structural equality and the canonical text *)

Lemma struct_eqb_list (la lb : list pyval) :
  struct_eqb (PList la) (PList lb) = forall2b struct_eqb la lb.
Proof.
  simpl. revert lb; induction la as [|x la IH]; intros [|y lb]; simpl; auto.
  rewrite IH; reflexivity.
Qed.

Lemma struct_eqb_dict (da db : list (pystr * pyval)) :
  struct_eqb (PDict da) (PDict db)
  = (List.length da =? List.length db)%nat
    && forallb (fun kx => match dict_get db (fst kx) with
                          | Some y => struct_eqb (snd kx) y
                          | None => false
                          end) da.
Proof.
  simpl. f_equal. induction da as [|[k x] da IH]; simpl; auto.
  rewrite IH; reflexivity.
Qed.

Lemma pyval_wf_list (l : list pyval) :
  pyval_wf (PList l) <-> Forall pyval_wf l.
Proof.
  simpl. induction l as [|x l IH]; simpl.
  - split; auto.
  - rewrite IH. split; [intros []; constructor; auto | inversion 1; auto].
Qed.

Lemma pyval_wf_dict (d : list (pystr * pyval)) :
  pyval_wf (PDict d)
  <-> dict_wf d /\ Forall (fun kv => pyval_wf (snd kv)) d.
Proof.
  simpl. unfold dict_wf.
  assert ((fix go (d0 : list (pystr * pyval)) : Prop :=
             match d0 with
             | [] => True
             | (_, v) :: d' => pyval_wf v /\ go d'
             end) d <-> Forall (fun kv => pyval_wf (snd kv)) d) as ->;
    [|tauto].
  induction d as [|[k x] d IH]; simpl.
  - split; auto.
  - rewrite IH. split; [intros []; constructor; auto | inversion 1; auto].
Qed.

Lemma rmap_snd_Ok {K A B} (f : A -> result B) (d : list (K * A))
  (r : list (K * B)) :
  rmap_snd f d = Ok r ->
  map fst r = map fst d
  /\ forall k s, In (k, s) r <-> exists x, In (k, x) d /\ f x = Ok s.
Proof.
  revert r; induction d as [|[k x] d IH]; simpl; intros r Hr.
  - inversion Hr; subst; simpl. split; auto.
    intros; split; [tauto | intros (? & [] & _)].
  - destruct (f x) as [s|e] eqn:Efx; try discriminate.
    destruct (rmap_snd f d) as [r'|e]; try discriminate.
    inversion Hr; subst; clear Hr.
    destruct (IH r' eq_refl) as [Hk Hin]. simpl. split; [congruence|].
    intros k0 s0; rewrite Hin. split.
    + intros [Heq|(x0 & Hx0 & Hf)].
      * inversion Heq; subst; eauto.
      * eauto.
    + intros (x0 & [Heq|Hx0] & Hf).
      * inversion Heq; subst. left; congruence.
      * right; eauto.
Qed.

Lemma rmap_snd_Err {K A B} (f : A -> result B) (d : list (K * A)) (e : exn) :
  rmap_snd f d = Err e -> exists k x, In (k, x) d /\ f x = Err e.
Proof.
  induction d as [|[k x] d IH]; simpl; [discriminate|].
  destruct (f x) as [s|e'] eqn:Efx.
  - destruct (rmap_snd f d) as [r'|e']; try discriminate.
    intros Hr; inversion Hr; subst.
    destruct (IH eq_refl) as (k0 & x0 & Hin & Hf); eauto 6.
  - intros Hr; inversion Hr; subst; eauto 6.
Qed.

Lemma rmap_snd_all_Ok {K A B} (f : A -> result B) (d : list (K * A)) :
  (forall k x, In (k, x) d -> exists s, f x = Ok s) ->
  exists r, rmap_snd f d = Ok r.
Proof.
  intros Hall. destruct (rmap_snd f d) as [r|e] eqn:E; eauto.
  apply rmap_snd_Err in E. destruct E as (k & x & Hin & Hf).
  destruct (Hall k x Hin) as [s Hs]; congruence.
Qed.

(** Two lists of entries with the same keys in the same order, without a
    repeated key, and with the same members are equal. *)
Lemma same_keys_same_entries {V} (l1 l2 : list (pystr * V)) :
  map fst l1 = map fst l2 -> NoDup (map fst l1) ->
  (forall x, In x l1 -> In x l2) -> l1 = l2.
Proof.
  revert l2; induction l1 as [|[k v1] l1 IH]; intros [|[k2 v2] l2];
    simpl; try discriminate; auto.
  intros Hk Hnd Hin. inversion Hk; subst. inversion Hnd as [|? ? Hnotin Hnd'].
  subst. assert (v1 = v2) as ->.
  { destruct (Hin (k2, v1) (or_introl eq_refl)) as [Heq|Hin2].
    - inversion Heq; reflexivity.
    - exfalso; apply Hnotin. rewrite H1.
      apply (in_map fst) in Hin2; exact Hin2. }
  f_equal. apply IH; auto.
  intros x Hx. destruct (Hin x (or_intror Hx)) as [Heq|Hin2]; auto.
  exfalso; apply Hnotin. subst x. apply (in_map fst) in Hx; exact Hx.
Qed.

Lemma sorted_entries_permutation {V} (l1 l2 : list (pystr * V)) :
  dict_wf l1 -> Permutation l1 l2 ->
  sorted key_ltb l1 = sorted key_ltb l2.
Proof.
  intros Hwf HP. apply same_keys_same_entries.
  - rewrite !sorted_keys. apply sorted_keys_permutation.
    apply Permutation_map; exact HP.
  - rewrite sorted_keys.
    eapply Permutation_NoDup; [symmetry; apply sorted_perm | exact Hwf].
  - intros x Hx. apply sorted_In. apply sorted_In in Hx.
    eapply Permutation_in; eauto.
Qed.

Lemma NoDup_keys_entries {V} (d : dict V) : dict_wf d -> NoDup d.
Proof.
  unfold dict_wf. induction d as [|[k v] d IH]; simpl; intros Hnd;
    constructor; inversion Hnd; subst; auto.
  intros Hin; apply (in_map fst) in Hin; auto.
Qed.

Lemma rmap_snd_Ok_all {K A B} (f : A -> result B) (d : list (K * A))
  (r : list (K * B)) :
  rmap_snd f d = Ok r ->
  forall k x, In (k, x) d -> exists s, f x = Ok s.
Proof.
  intros Hr k x Hin. destruct (f x) as [s|e] eqn:E; eauto.
  exfalso. revert r Hr. induction d as [|[k' x'] d IH]; simpl in *; [tauto|].
  intros r. destruct Hin as [Heq|Hin].
  - inversion Heq; subst. rewrite E; discriminate.
  - destruct (f x'); try discriminate.
    destruct (rmap_snd f d) as [r'|]; try discriminate.
    intros _. eapply IH; eauto.
Qed.

Lemma json_encode_error `{Runtime} (o : json_opts) (level : nat) (v : pyval)
  (e : exn) :
  json_encode o level v = Err e -> e = not_serializable.
Proof.
  intros He. pose proof (json_encode_outcome o v level) as Hout.
  rewrite He in Hout. apply Hout.
Qed.

(** The entries of two structurally equal objects are rendered to the same
    sorted list of items. *)
Lemma rendered_dict_eq `{Runtime} (o : json_opts) (level : nat)
  (da db : list (pystr * pyval)) :
  dict_wf da -> dict_wf db -> List.length da = List.length db ->
  (forall k x, In (k, x) da ->
     exists y, In (k, y) db /\ json_encode o level x = json_encode o level y) ->
  match rmap_snd (json_encode o level) da,
        rmap_snd (json_encode o level) db with
  | Ok ra, Ok rb => sorted key_ltb ra = sorted key_ltb rb
  | Err ea, Err eb => ea = eb
  | _, _ => False
  end.
Proof.
  intros Hwa Hwb Hlen Hpart.
  set (f := json_encode o level) in *.
  assert (forall k y, In (k, y) db ->
            exists x, In (k, x) da /\ f x = f y) as Hback.
  { intros k y Hy.
    assert (incl (map fst db) (map fst da)) as Hincl.
    { apply NoDup_length_incl; [exact Hwa | rewrite !length_map; lia |].
      intros k' Hk'. apply in_map_iff in Hk'.
      destruct Hk' as ([k0 x0] & <- & Hx0).
      destruct (Hpart _ _ Hx0) as (y0 & Hy0 & _).
      apply (in_map fst) in Hy0; exact Hy0. }
    assert (In k (map fst da)) as Hk
      by (apply Hincl; apply (in_map fst) in Hy; exact Hy).
    apply in_map_iff in Hk. destruct Hk as ([k0 x0] & Hk0 & Hx0).
    simpl in Hk0; subst k0.
    destruct (Hpart _ _ Hx0) as (y0 & Hy0 & Hf).
    exists x0; split; auto.
    assert (Some y0 = Some y) as Hsame
      by (rewrite <- (dict_get_In db k y0 Hwb Hy0);
          apply dict_get_In; assumption).
    inversion Hsame; subst; exact Hf. }
  destruct (rmap_snd f da) as [ra|ea] eqn:Ea.
  - destruct (rmap_snd_all_Ok f db) as [rb Eb].
    { intros k y Hy. destruct (Hback _ _ Hy) as (x & Hx & Hf).
      rewrite <- Hf. eapply rmap_snd_Ok_all; eauto. }
    rewrite Eb.
    destruct (rmap_snd_Ok _ _ _ Ea) as [Hka Hina].
    destruct (rmap_snd_Ok _ _ _ Eb) as [Hkb Hinb].
    assert (dict_wf ra) as Hwra by (unfold dict_wf; rewrite Hka; exact Hwa).
    apply sorted_entries_permutation; auto.
    apply NoDup_Permutation_bis.
    + apply NoDup_keys_entries; exact Hwra.
    + rewrite <- (length_map fst rb), <- (length_map fst ra), Hka, Hkb.
      rewrite !length_map; lia.
    + intros [k s] Hks. apply Hina in Hks. destruct Hks as (x & Hx & Hfx).
      destruct (Hpart _ _ Hx) as (y & Hy & Hf).
      apply Hinb. exists y; split; auto. rewrite <- Hf; exact Hfx.
  - destruct (rmap_snd_Err _ _ _ Ea) as (k & x & Hx & Hfx).
    destruct (Hpart _ _ Hx) as (y & Hy & Hf).
    destruct (rmap_snd f db) as [rb|eb] eqn:Eb.
    + destruct (rmap_snd_Ok_all _ _ _ Eb _ _ Hy) as [s Hs].
      unfold f in *; congruence.
    + destruct (rmap_snd_Err _ _ _ Eb) as (k' & y' & _ & Hfy').
      apply json_encode_error in Hfx. apply json_encode_error in Hfy'.
      congruence.
Qed.

Lemma bool_eqb_eq (x y : bool) : Bool.eqb x y = true -> x = y.
Proof. destruct x, y; simpl; congruence. Qed.

(** With sorted keys, structurally equal values have the same text. *)
Lemma json_encode_struct_eq `{Runtime} (o : json_opts) :
  sort_keys o = true ->
  forall a b level,
    pyval_wf a -> pyval_wf b -> struct_eqb a b = true ->
    json_encode o level a = json_encode o level b.
Proof.
  intros Hsort a.
  induction a using pyval_induction; intros v level Hwa Hwb Heq;
    destruct v; simpl in Heq; try discriminate.
  - reflexivity.
  - apply bool_eqb_eq in Heq; subst; reflexivity.
  - apply Z.eqb_eq in Heq; subst; reflexivity.
  - apply N.eqb_eq in Heq; subst; reflexivity.
  - apply str_eqb_eq in Heq; subst; reflexivity.
  - reflexivity.
  - match goal with HF : Forall _ _ |- _ => rename HF into IHl end.
    change (struct_eqb (PList l) (PList l0) = true) in Heq.
    rewrite struct_eqb_list in Heq. rewrite !json_encode_list.
    apply pyval_wf_list in Hwa. apply pyval_wf_list in Hwb.
    assert (rmap (json_encode o (S level)) l
            = rmap (json_encode o (S level)) l0) as ->; [|reflexivity].
    revert l0 Hwb Heq.
    induction IHl as [|x l Hx _ IH]; intros [|y l0] Hwb Heq; simpl in *;
      try discriminate; auto.
    apply andb_true_iff in Heq. destruct Heq as [Hxy Hrest].
    inversion Hwa; inversion Hwb; subst.
    rewrite (Hx y (S level)) by assumption.
    rewrite (IH ltac:(assumption) l0) by assumption.
    reflexivity.
  - match goal with HF : Forall _ _ |- _ => rename HF into IHd end.
    change (struct_eqb (PDict d) (PDict d0) = true) in Heq.
    rewrite struct_eqb_dict in Heq. rewrite !json_encode_dict, Hsort.
    apply pyval_wf_dict in Hwa. apply pyval_wf_dict in Hwb.
    destruct Hwa as [Hwa Hva]. destruct Hwb as [Hwb Hvb].
    apply andb_true_iff in Heq. destruct Heq as [Hlen Hall].
    apply Nat.eqb_eq in Hlen.
    pose proof (rendered_dict_eq o (S level) d d0 Hwa Hwb Hlen) as Hr.
    destruct (rmap_snd (json_encode o (S level)) d),
             (rmap_snd (json_encode o (S level)) d0);
      try (rewrite Hr; [reflexivity|]); try (exfalso; apply Hr).
    all: intros k x Hx;
      rewrite forallb_forall in Hall; specialize (Hall _ Hx); simpl in Hall;
      destruct (dict_get d0 k) as [y|] eqn:Ey; try discriminate;
      apply dict_get_Some_In in Ey;
      exists y; split; [exact Ey|];
      rewrite Forall_forall in IHd, Hva, Hvb;
      apply (IHd _ Hx); [exact (Hva _ Hx) | exact (Hvb _ Ey) | exact Hall].
Qed.

(** C8. Two structurally equal values, in particular two objects built
    with their keys inserted in different orders, have the same canonical
    text and therefore the same [sha256_json] digest. *)
Theorem sha256_json_stable `{Runtime} (a b : pyval) :
  pyval_wf a -> pyval_wf b -> struct_eqb a b = true ->
  canonical_json_dumps a = canonical_json_dumps b
  /\ sha256_json a = sha256_json b.
Proof.
  intros Hwa Hwb Heq.
  assert (canonical_json_dumps a = canonical_json_dumps b) as Hc
    by (apply json_encode_struct_eq; auto).
  split; [exact Hc|]. unfold sha256_json. rewrite Hc; reflexivity.
Qed.

Example sha256_json_stable_witness :
  pyval_wf Sample.cfg_upper /\ pyval_wf Sample.cfg_upper_reordered
  /\ struct_eqb Sample.cfg_upper Sample.cfg_upper_reordered = true
  /\ @sha256_json Sample.runtime Sample.cfg_upper
     = @sha256_json Sample.runtime Sample.cfg_upper_reordered.
Proof.
  assert (forall a b : pystr, str_eqb a b = false -> NoDup [a; b]) as Hnd2.
  { intros a b Hab. apply str_eqb_neq in Hab. constructor.
    - simpl; intros [Heq|[]]; congruence.
    - constructor; [simpl; tauto | constructor]. }
  assert (pyval_wf Sample.cfg_upper) as H1
    by (simpl; split; [apply Hnd2; reflexivity | tauto]).
  assert (pyval_wf Sample.cfg_upper_reordered) as H2
    by (simpl; split; [apply Hnd2; reflexivity | tauto]).
  split; [exact H1|]. split; [exact H2|]. split; [reflexivity|].
  exact (proj2 (@sha256_json_stable Sample.runtime _ _ H1 H2 eq_refl)).
Defined.

(** ** Reasoning about I/O *)

Lemma fs_logs (w : world) (evs : list event) : fs (logs w evs) = fs w.
Proof. revert w; induction evs; simpl; intros; [|rewrite IHevs]; auto. Qed.

Lemma resolve_logs (w : world) (evs : list event) :
  resolve (logs w evs) = resolve w.
Proof. revert w; induction evs; simpl; intros; [|rewrite IHevs]; auto. Qed.

Lemma trace_logs (w : world) (evs : list event) :
  trace (logs w evs) = trace w ++ evs.
Proof.
  revert w; induction evs as [|e evs IH]; simpl; intros.
  - rewrite app_nil_r; reflexivity.
  - rewrite IH. simpl. rewrite <- app_assoc; reflexivity.
Qed.

Lemma logs_app (w : world) (a b : list event) :
  logs w (a ++ b) = logs (logs w a) b.
Proof. apply fold_left_app. Qed.

Lemma file_bytes_logs (w : world) (evs : list event) (p : pystr) :
  file_bytes (logs w evs) p = file_bytes w p.
Proof. unfold file_bytes. rewrite fs_logs; reflexivity. Qed.

Lemma io_bind_Ok {A B} (m : IO A) (f : A -> IO B) (w w' : world) (a : A) :
  m w = (Ok a, w') -> io_bind m f w = f a w'.
Proof. unfold io_bind; intros ->; reflexivity. Qed.

Lemma io_bind_Err {A B} (m : IO A) (f : A -> IO B) (w w' : world) (e : exn) :
  m w = (Err e, w') -> io_bind m f w = (Err e, w').
Proof. unfold io_bind; intros ->; reflexivity. Qed.

Lemma resolve_all (files : list pystr) (w : world) :
  io_map Path_resolve files w
  = (Ok (map (resolve w) files), logs w (map EvResolve files)).
Proof.
  revert w; induction files as [|f files IH]; intros w; simpl; auto.
  unfold io_bind at 1. unfold Path_resolve at 1.
  unfold io_bind at 1. rewrite IH. simpl. reflexivity.
Qed.

Lemma validate_loop_ok (paths : list pystr) (w : world) :
  forallb (is_regular_file w) paths = true ->
  io_for paths (fun p =>
    (ex <- Path_exists p ;;
     if negb ex then io_raise InputValidationError (MsgInputDoesNotExist p)
     else
       isf <- Path_is_file p ;;
       if negb isf then io_raise InputValidationError (MsgInputNotAFile p)
       else io_ret tt)%io) w
  = (Ok tt, logs w (stat_events paths)).
Proof.
  revert w; induction paths as [|p paths IH]; intros w Hall; simpl in *; auto.
  apply andb_true_iff in Hall. destruct Hall as [Hp Hall].
  unfold is_regular_file in Hp.
  unfold io_bind at 1. unfold io_bind at 1. unfold Path_exists at 1.
  destruct (fs w p) as [[|r c]|] eqn:E; try discriminate. simpl.
  unfold io_bind at 1. unfold Path_is_file at 1. simpl. rewrite E. simpl.
  apply IH. exact Hall.
Qed.

(** Whatever the paths, validation returns or raises
    [InputValidationError], and it only stats the paths. *)
Lemma validate_paths_outcome (paths : list pystr) (w : world) :
  exists r evs,
    _validate_paths paths w = (r, logs w evs)
    /\ no_input_read evs = true
    /\ match r with
       | Ok _ => True
       | Err e => exn_cls e = InputValidationError
       end.
Proof.
  unfold _validate_paths. destruct paths as [|p0 paths0].
  - exists (Err (Raise InputValidationError MsgNoInputFiles)), [].
    repeat split.
  - generalize (p0 :: paths0) as paths; clear; intros paths.
    revert w; induction paths as [|p paths IH]; intros w; simpl.
    + exists (Ok tt), []; repeat split.
    + unfold io_bind at 1. unfold io_bind at 1. unfold Path_exists at 1.
      destruct (fs w p) as [n|] eqn:E; simpl.
      * unfold io_bind at 1. unfold Path_is_file at 1. simpl. rewrite E.
        destruct n as [|r c]; simpl.
        -- eexists _, [EvExists p; EvIsFile p]; repeat split.
        -- destruct (IH (log (log w (EvExists p)) (EvIsFile p)))
             as (r' & evs & Hrun & Hno & Hcls).
           exists r', ([EvExists p; EvIsFile p] ++ evs).
           rewrite logs_app. simpl. repeat split; auto.
      * eexists _, [EvExists p]; repeat split.
Qed.

Lemma validate_paths_ok (paths : list pystr) (w : world) :
  paths <> [] -> forallb (is_regular_file w) paths = true ->
  _validate_paths paths w = (Ok tt, logs w (stat_events paths)).
Proof.
  intros Hne Hall. unfold _validate_paths.
  destruct paths; [congruence|]. apply validate_loop_ok; assumption.
Qed.

(** An empty list, or a path that is missing or not a regular file, makes
    validation raise. *)
Lemma validate_paths_fail (paths : list pystr) (w : world) :
  paths = [] \/ forallb (is_regular_file w) paths = false ->
  exists e w',
    _validate_paths paths w = (Err e, w')
    /\ exn_cls e = InputValidationError.
Proof.
  unfold _validate_paths. destruct paths as [|p0 paths0].
  - intros _. eexists _, _; split; reflexivity.
  - intros [Hnil|Hbad]; [discriminate|].
    revert Hbad. generalize (p0 :: paths0) as paths; clear; intros paths.
    revert w; induction paths as [|p paths IH]; intros w Hbad; simpl in *;
      [discriminate|].
    unfold io_bind at 1. unfold io_bind at 1. unfold Path_exists at 1.
    unfold is_regular_file in Hbad at 1.
    destruct (fs w p) as [[|r c]|] eqn:E; simpl.
    + unfold io_bind at 1. unfold Path_is_file at 1. simpl. rewrite E. simpl.
      eexists _, _; split; reflexivity.
    + unfold io_bind at 1. unfold Path_is_file at 1. simpl. rewrite E. simpl.
      apply IH. exact Hbad.
    + eexists _, _; split; reflexivity.
Qed.

(** ** Config validation *)

Lemma load_config_run `{Runtime} (p : pystr) (w : world) (content : bytes)
  (raw : pystr) (cfg : pyval) :
  fs w p = Some (File true content) ->
  decode_text content = Ok raw ->
  json_loads raw = Some cfg ->
  _load_config p w
  = (validate_config cfg, logs w [EvExists p; EvIsFile p; EvReadText p]).
Proof.
  intros Hfs Hdec Hparse. unfold _load_config.
  unfold io_bind at 1. unfold Path_exists at 1. rewrite Hfs. simpl.
  unfold io_bind at 1. unfold Path_is_file at 1. simpl. rewrite Hfs. simpl.
  unfold io_bind, read_and_parse, Path_read_text, file_bytes. simpl.
  rewrite Hfs. simpl. rewrite Hdec, Hparse. unfold io_lift. reflexivity.
Qed.

Lemma validate_config_bad (d : dict pyval) :
  bad_config d -> exists m, validate_config (PDict d) = Err (Raise ConfigError m).
Proof.
  unfold bad_config, validate_config, dict_contains, dict_getitem, raise.
  simpl filter.
  intros [Hs|[Ht|Hs]].
  - destruct (dict_get d (py "seed")); try discriminate.
    destruct (dict_get d (py "transform")); simpl; eexists; reflexivity.
  - rewrite Ht. destruct (dict_get d (py "seed")); simpl; eexists; reflexivity.
  - rewrite Hs. destruct (dict_get d (py "transform")) as [t|]; simpl.
    + destruct (negb _); eexists; reflexivity.
    + eexists; reflexivity.
Qed.

(** C10. A configuration whose [seed] is the JSON value [true] or [false]
    passes [_load_config]: [isinstance(True, int)] holds, so no
    [ConfigError] is raised and the configuration is returned. *)
Theorem load_config_accepts_boolean_seed `{Runtime}
  (p : pystr) (w : world) (content : bytes) (raw : pystr)
  (d : dict pyval) (t : pystr) (b : bool) :
  fs w p = Some (File true content) ->
  decode_text content = Ok raw ->
  json_loads raw = Some (PDict d) ->
  dict_get d (py "transform") = Some (PStr t) ->
  In t transforms ->
  dict_get d (py "seed") = Some (PBool b) ->
  validate_config (PDict d) = Ok d
  /\ fst (_load_config p w) = Ok d.
Proof.
  intros Hfs Hdec Hparse Ht Hin Hs.
  assert (validate_config (PDict d) = Ok d) as Hv.
  { assert (existsb (eq_str (PStr t)) transforms = true) as Hex.
    { apply existsb_exists. exists t; split; auto. apply str_eqb_refl. }
    unfold validate_config, dict_contains, dict_getitem. simpl filter.
    rewrite Ht, Hs. unfold rbind. rewrite Hex. reflexivity. }
  split; [exact Hv|].
  rewrite (load_config_run p w content raw (PDict d)); auto.
Qed.

Example load_config_accepts_boolean_seed_witness :
  fs Sample.w0 (py "/d/seed_true.json") = Some (Sample.file_of Sample.cfg_seed_true)
  /\ @fst _ world (@_load_config Sample.runtime (py "/d/seed_true.json") Sample.w0)
     = Ok [(py "transform", PStr (py "lower")); (py "seed", PBool true)].
Proof.
  split; [reflexivity|].
  refine (proj2 (@load_config_accepts_boolean_seed Sample.runtime
                   (py "/d/seed_true.json") Sample.w0 _ _ _ (py "lower") true
                   _ _ _ _ _ _)).
  - vm_compute; reflexivity.
  - vm_compute; reflexivity.
  - vm_compute; reflexivity.
  - reflexivity.
  - right; left; reflexivity.
  - reflexivity.
Defined.

(** ** C4: a rejected config is rejected before any input is read *)

Lemma no_input_read_app (a b : list event) :
  no_input_read (a ++ b) = no_input_read a && no_input_read b.
Proof. apply forallb_app. Qed.

Lemma no_input_read_resolve (files : list pystr) :
  no_input_read (map EvResolve files) = true.
Proof. induction files; simpl; auto. Qed.

Lemma no_input_read_stat (paths : list pystr) :
  no_input_read (stat_events paths) = true.
Proof. induction paths; simpl; auto. Qed.

Lemma logs_inj (w : world) (a b : list event) : logs w a = logs w b -> a = b.
Proof.
  intros Heq. apply (f_equal trace) in Heq. rewrite !trace_logs in Heq.
  eapply app_inv_head; exact Heq.
Qed.

Lemma regular_files_logs (w : world) (evs : list event) (l : list pystr) :
  forallb (is_regular_file (logs w evs)) l = forallb (is_regular_file w) l.
Proof.
  induction l as [|p l IH]; simpl; auto.
  rewrite IH. unfold is_regular_file. rewrite fs_logs; reflexivity.
Qed.

Section BadConfig.

Context `{Runtime}.
Variables (input_files : list pystr) (config_file version : pystr).
Variables (w : world) (content : bytes) (raw : pystr) (d : dict pyval).

Let cfg_path := resolve w config_file.

Hypothesis config_is_file : fs w cfg_path = Some (File true content).
Hypothesis config_is_text : decode_text content = Ok raw.
Hypothesis config_parses : json_loads raw = Some (PDict d).
Hypothesis config_is_bad : bad_config d.

Lemma load_config_rejects (evs : list event) :
  exists m,
    _load_config cfg_path (logs w evs)
    = (Err (Raise ConfigError m),
       logs w (evs ++ [EvExists cfg_path; EvIsFile cfg_path;
                       EvReadText cfg_path])).
Proof.
  destruct (validate_config_bad d config_is_bad) as [m Hm].
  exists m.
  rewrite (load_config_run cfg_path (logs w evs) content raw (PDict d));
    auto.
  - rewrite Hm, logs_app; reflexivity.
  - rewrite fs_logs; exact config_is_file.
Qed.

(** Whatever the inputs and the version, the call fails with one of the
    two pipeline errors and has read no input. *)
Lemma load_rejects_without_reading :
  exists e evs,
    load_validate_hash input_files config_file version w
    = (Err e, logs w evs)
    /\ no_input_read evs = true
    /\ (exn_cls e = InputValidationError \/ exn_cls e = ConfigError).
Proof.
  unfold load_validate_hash. destruct (str_strip version) as [|c v'].
  - eexists _, []; repeat split; auto.
  - rewrite (io_bind_Ok _ _ _ _ _ (resolve_all input_files w)).
    destruct (validate_paths_outcome (map (resolve w) input_files)
                (logs w (map EvResolve input_files)))
      as (r & evs & Hrun & Hno & Hcls).
    rewrite <- logs_app in Hrun.
    destruct r as [[]|e].
    + rewrite (io_bind_Ok _ _ _ _ _ Hrun).
      unfold io_bind at 1. unfold Path_resolve at 1.
      rewrite resolve_logs.
      change (log (logs w ?a) ?e) with (logs (logs w a) [e]).
      rewrite <- logs_app. fold cfg_path.
      destruct (load_config_rejects
                  ((map EvResolve input_files ++ evs) ++ [EvResolve config_file]))
        as [m Hm].
      rewrite (io_bind_Err _ _ _ _ _ Hm).
      eexists _, _; split; [reflexivity|]. split; [|right; reflexivity].
      rewrite !no_input_read_app, no_input_read_resolve, Hno; reflexivity.
    + rewrite (io_bind_Err _ _ _ _ _ Hrun).
      eexists _, _; split; [reflexivity|]. split; [|left; exact Hcls].
      rewrite no_input_read_app, no_input_read_resolve, Hno; reflexivity.
Qed.

(** With a version and valid inputs the failure is the [ConfigError],
    after these events exactly. *)
Lemma load_rejects_config :
  str_strip version <> [] ->
  input_files <> [] ->
  forallb (is_regular_file w) (map (resolve w) input_files) = true ->
  exists m,
    load_validate_hash input_files config_file version w
    = (Err (Raise ConfigError m),
       logs w (map EvResolve input_files
               ++ stat_events (map (resolve w) input_files)
               ++ [EvResolve config_file; EvExists cfg_path;
                   EvIsFile cfg_path; EvReadText cfg_path])).
Proof.
  intros Hv Hne Hall.
  unfold load_validate_hash. destruct (str_strip version) as [|c v'];
    [congruence|].
  rewrite (io_bind_Ok _ _ _ _ _ (resolve_all input_files w)).
  assert (_validate_paths (map (resolve w) input_files)
            (logs w (map EvResolve input_files))
          = (Ok tt, logs w (map EvResolve input_files
                            ++ stat_events (map (resolve w) input_files))))
    as Hrun.
  { rewrite logs_app. apply validate_paths_ok.
    - destruct input_files; simpl; congruence.
    - rewrite regular_files_logs; exact Hall. }
  rewrite (io_bind_Ok _ _ _ _ _ Hrun).
  unfold io_bind at 1. unfold Path_resolve at 1. rewrite resolve_logs.
  change (log (logs w ?a) ?e) with (logs (logs w a) [e]).
  rewrite <- logs_app. fold cfg_path.
  destruct (load_config_rejects
              ((map EvResolve input_files
                ++ stat_events (map (resolve w) input_files))
               ++ [EvResolve config_file]))
    as [m Hm].
  rewrite (io_bind_Err _ _ _ _ _ Hm).
  exists m. repeat rewrite <- app_assoc. reflexivity.
Qed.

(** With a blank version or an invalid input the failure is the
    [InputValidationError], whatever the config. *)
Lemma load_rejects_inputs :
  str_strip version = [] \/ input_files = []
  \/ forallb (is_regular_file w) (map (resolve w) input_files) = false ->
  exists e w',
    load_validate_hash input_files config_file version w = (Err e, w')
    /\ exn_cls e = InputValidationError.
Proof.
  intros Hbad. unfold load_validate_hash.
  destruct (str_strip version) as [|c v'].
  - eexists _, _; split; reflexivity.
  - destruct Hbad as [Hv|Hbad]; [discriminate|].
    rewrite (io_bind_Ok _ _ _ _ _ (resolve_all input_files w)).
    destruct (validate_paths_fail (map (resolve w) input_files)
                (logs w (map EvResolve input_files)))
      as (e & w' & Hrun & Hcls).
    { destruct Hbad as [-> | Hbad]; [left; reflexivity|].
      right. rewrite regular_files_logs; exact Hbad. }
    rewrite (io_bind_Err _ _ _ _ _ Hrun). eauto.
Qed.

End BadConfig.

(** C4 (amended). When the config is missing [seed], or has
    [transform: "mixed"], or has [seed: "3"], [load_validate_hash] fails
    with a pipeline error and no input file has been opened or read: the
    only events are path resolutions, [exists]/[is_file] tests and the
    reading of the config file. The failure is the [ConfigError] whenever
    the version is not blank and every input path is a regular file;
    otherwise the earlier checks raise [InputValidationError]. *)
Theorem load_validate_hash_rejects_bad_config `{Runtime}
  (input_files : list pystr) (config_file version : pystr)
  (w : world) (content : bytes) (raw : pystr) (d : dict pyval) :
  fs w (resolve w config_file) = Some (File true content) ->
  decode_text content = Ok raw ->
  json_loads raw = Some (PDict d) ->
  bad_config d ->
  exists e evs,
    load_validate_hash input_files config_file version w = (Err e, logs w evs)
    /\ no_input_read evs = true
    /\ (exn_cls e = InputValidationError \/ exn_cls e = ConfigError)
    /\ (str_strip version <> [] ->
        input_files <> [] ->
        forallb (is_regular_file w) (map (resolve w) input_files) = true ->
        exn_cls e = ConfigError
        /\ evs = map EvResolve input_files
                 ++ stat_events (map (resolve w) input_files)
                 ++ [EvResolve config_file;
                     EvExists (resolve w config_file);
                     EvIsFile (resolve w config_file);
                     EvReadText (resolve w config_file)])
    /\ (str_strip version = [] \/ input_files = []
        \/ forallb (is_regular_file w) (map (resolve w) input_files) = false ->
        exn_cls e = InputValidationError).
Proof.
  intros Hfs Hdec Hparse Hbad.
  destruct (load_rejects_without_reading input_files config_file version
              w content raw d Hfs Hdec Hparse Hbad)
    as (e & evs & Hrun & Hno & Hcls).
  exists e, evs. repeat split; auto;
    [| |intros Hinv;
        destruct (load_rejects_inputs input_files config_file version w Hinv)
          as (e' & w' & Hrun' & Hcls');
        rewrite Hrun in Hrun'; inversion Hrun'; subst; exact Hcls'].
  - destruct (load_rejects_config input_files config_file version
                w content raw d Hfs Hdec Hparse Hbad) as [m Hm]; auto.
    rewrite Hrun in Hm. inversion Hm; reflexivity.
  - destruct (load_rejects_config input_files config_file version
                w content raw d Hfs Hdec Hparse Hbad) as [m Hm]; auto.
    rewrite Hrun in Hm. inversion Hm as [[He Hw]].
    apply logs_inj in Hw; exact Hw.
Qed.

Example load_validate_hash_rejects_bad_config_witness :
  bad_config [(py "transform", PStr (py "upper"))]
  /\ exists e evs,
       @load_validate_hash Sample.runtime [py "a.txt"] (py "no_seed.json")
         (py "1.0") Sample.w0 = (Err e, logs Sample.w0 evs)
       /\ no_input_read evs = true
       /\ exn_cls e = ConfigError.
Proof.
  assert (bad_config [(py "transform", PStr (py "upper"))]) as Hbad
    by (left; reflexivity).
  split; [exact Hbad|].
  destruct (@load_validate_hash_rejects_bad_config Sample.runtime
              [py "a.txt"] (py "no_seed.json") (py "1.0") Sample.w0
              (Sample.content_of Sample.cfg_no_seed)
              (Sample.text_of Sample.cfg_no_seed)
              [(py "transform", PStr (py "upper"))])
    as (e & evs & Hrun & Hno & _ & Hvalid & _).
  - vm_compute; reflexivity.
  - vm_compute; reflexivity.
  - vm_compute; reflexivity.
  - exact Hbad.
  - exists e, evs. split; [exact Hrun|]. split; [exact Hno|].
    apply Hvalid.
    + vm_compute; discriminate.
    + discriminate.
    + vm_compute; reflexivity.
Defined.

(** C4 as stated fails: with a config that lacks [seed] and an input path
    that does not exist, the call raises [InputValidationError], not
    [ConfigError]; the inputs are validated before the config is loaded. *)
Lemma bad_config_with_missing_input :
  @json_loads Sample.runtime (Sample.text_of Sample.cfg_no_seed)
  = Some (PDict [(py "transform", PStr (py "upper"))])
  /\ dict_contains [(py "transform", PStr (py "upper"))] (py "seed") = false
  /\ @fst _ world
       (@load_validate_hash Sample.runtime [py "nope.txt"] (py "no_seed.json")
          (py "1.0") Sample.w0)
     = Err (Raise InputValidationError (MsgInputDoesNotExist (py "/d/nope.txt"))).
Proof. repeat split; vm_compute; reflexivity. Qed.

(** ** C6: the returned record *)

Lemma read_after_n (size : N) (rest : bytes) :
  read_n size rest ++ after_n size rest = rest.
Proof.
  revert size; induction rest as [|b rest IH]; intros size; simpl; auto.
  destruct (size =? 0); simpl; [reflexivity|]. rewrite IH; reflexivity.
Qed.

Lemma after_n_length (size : N) (rest : bytes) :
  (List.length (after_n size rest) <= List.length rest)%nat.
Proof.
  revert size; induction rest as [|b rest IH]; intros size; simpl; auto.
  destruct (size =? 0); simpl; auto.
Qed.

(** Reading in chunks feeds the hasher the whole content, in order. *)
Lemma update_chunks_concat (size : N) (fuel : nat) :
  size <> 0 ->
  forall (rest : bytes) (h : SHA256.hasher),
    (List.length rest < fuel)%nat ->
    List.concat (SHA256.fed (update_chunks fuel size rest h))
    = List.concat (SHA256.fed h) ++ rest.
Proof.
  intros Hsize. induction fuel as [|fuel IH]; intros rest h Hlen; [lia|].
  simpl. destruct rest as [|b rest].
  - simpl. rewrite app_nil_r; reflexivity.
  - simpl. destruct (size =? 0) eqn:E; [apply N.eqb_eq in E; congruence|].
    rewrite IH.
    + simpl. rewrite concat_app. simpl. rewrite app_nil_r, <- app_assoc.
      simpl. rewrite read_after_n; reflexivity.
    + simpl in Hlen. pose proof (after_n_length (N.pred size) rest). lia.
Qed.

Lemma sha256_file_content (p : pystr) (w : world) :
  sha256_file p w
  = (match file_bytes w p with
     | Ok content => Ok (sha256_bytes content)
     | Err e => Err e
     end, log w (EvOpenRb p)).
Proof.
  unfold sha256_file. destruct (file_bytes w p) as [content|e]; auto.
  do 2 f_equal. unfold sha256_bytes, SHA256.hexdigest.
  rewrite update_chunks_concat by (try discriminate; lia).
  simpl. rewrite app_nil_r; reflexivity.
Qed.

Lemma dict_get_set {V} (d : dict V) (k k' : pystr) (v : V) :
  dict_get (dict_set d k v) k'
  = if str_eqb k' k then Some v else dict_get d k'.
Proof.
  induction d as [|[k0 v0] d IH]; simpl.
  - reflexivity.
  - destruct (str_eqb k k0) eqn:E; simpl.
    + apply str_eqb_eq in E; subst.
      destruct (str_eqb k' k0); reflexivity.
    + rewrite IH. destruct (str_eqb k' k0) eqn:E0; auto.
      apply str_eqb_eq in E0; subst.
      rewrite str_eqb_sym, E; reflexivity.
Qed.

Lemma dict_keys_set {V} (d : dict V) (k : pystr) (v : V) :
  dict_keys (dict_set d k v)
  = if dict_contains d k then dict_keys d else dict_keys d ++ [k].
Proof.
  unfold dict_contains, dict_keys.
  induction d as [|[k0 v0] d IH]; simpl; auto.
  destruct (str_eqb k k0) eqn:E; simpl; auto.
  rewrite IH. destruct (dict_get d k); reflexivity.
Qed.

Lemma dict_contains_In {V} (d : dict V) (k : pystr) :
  dict_contains d k = true <-> In k (dict_keys d).
Proof.
  unfold dict_contains, dict_keys.
  pose proof (dict_get_None d k) as Hn.
  destruct (dict_get d k); split; intros Hx; auto; try discriminate.
  - destruct (in_dec (list_eq_dec N.eq_dec) k (map fst d)); auto.
    apply Hn in n; discriminate.
  - exfalso; apply (proj1 Hn); auto.
Qed.

Lemma dict_wf_set {V} (d : dict V) (k : pystr) (v : V) :
  dict_wf d -> dict_wf (dict_set d k v).
Proof.
  unfold dict_wf. fold (dict_keys d). fold (dict_keys (dict_set d k v)).
  rewrite dict_keys_set. destruct (dict_contains d k) eqn:E; auto.
  intros Hnd. apply NoDup_app; auto.
  - repeat constructor; simpl; tauto.
  - intros x Hx [<-|[]]. apply dict_contains_In in Hx; congruence.
Qed.

(** The hash mapping built by the comprehension of [load_validate_hash]. *)
Lemma hash_all_inputs (paths : list pystr) :
  forall (acc : dict pystr) (w w' : world) (d : dict pystr),
    io_dict_comp (fun p => p) sha256_file paths acc w = (Ok d, w') ->
    dict_wf acc ->
    dict_wf d
    /\ fs w' = fs w
    /\ (forall p, In p (dict_keys d) <-> In p (dict_keys acc) \/ In p paths)
    /\ (NoDup (dict_keys acc ++ paths) -> dict_keys d = dict_keys acc ++ paths)
    /\ (forall p h, dict_get d p = Some h ->
          dict_get acc p = Some h
          \/ exists content,
               fs w p = Some (File true content) /\ h = sha256_bytes content).
Proof.
  induction paths as [|p paths IH]; intros acc w w' d Hrun Hwf; simpl in Hrun.
  - inversion Hrun; subst. repeat split; auto.
    + intros [|[]]; auto.
    + rewrite app_nil_r; reflexivity.
  - unfold io_bind in Hrun. rewrite sha256_file_content in Hrun.
    destruct (file_bytes w p) as [content|e] eqn:Efile; [|discriminate].
    destruct (IH _ _ _ _ Hrun (dict_wf_set acc p (sha256_bytes content) Hwf))
      as (Hwfd & Hfs & Hkeys & Hord & Hval).
    assert (fs w p = Some (File true content)) as Hp.
    { unfold file_bytes in Efile.
      destruct (fs w p) as [[|[] c]|]; try discriminate.
      inversion Efile; reflexivity. }
    split; [exact Hwfd|]. split; [exact Hfs|]. split; [|split].
    + intros q. rewrite Hkeys, dict_keys_set.
      destruct (dict_contains acc p) eqn:Ec; simpl.
      * apply dict_contains_In in Ec. intuition (subst; auto).
      * rewrite in_app_iff; simpl. intuition.
    + intros Hnd. rewrite Hord; rewrite dict_keys_set.
      * destruct (dict_contains acc p) eqn:Ec.
        -- apply dict_contains_In in Ec. apply NoDup_remove_2 in Hnd.
           exfalso; apply Hnd. apply in_or_app; left; exact Ec.
        -- rewrite <- app_assoc; reflexivity.
      * destruct (dict_contains acc p) eqn:Ec.
        -- apply dict_contains_In in Ec. apply NoDup_remove_2 in Hnd.
           exfalso; apply Hnd. apply in_or_app; left; exact Ec.
        -- rewrite <- app_assoc; exact Hnd.
    + intros q h Hq. destruct (Hval q h Hq) as [Hacc|Hfile].
      * rewrite dict_get_set in Hacc.
        destruct (str_eqb q p) eqn:Eq; auto.
        apply str_eqb_eq in Eq; subst. inversion Hacc; subst.
        right; exists content; auto.
      * right; exact Hfile.
Qed.

Lemma io_bind_inv {A B} (m : IO A) (f : A -> IO B) (w w' : world) (b : B) :
  io_bind m f w = (Ok b, w') ->
  exists a w1, m w = (Ok a, w1) /\ f a w1 = (Ok b, w').
Proof.
  unfold io_bind. destruct (m w) as [[a|e] w1]; [eauto | discriminate].
Qed.

Lemma load_config_fs `{Runtime} (p : pystr) (w : world) :
  fs (snd (_load_config p w)) = fs w.
Proof.
  unfold _load_config, io_bind, Path_exists, Path_is_file, read_and_parse,
    Path_read_text, io_raise, io_lift.
  simpl. destruct (fs w p) as [[|r c]|] eqn:E; simpl; rewrite ?E; simpl; auto.
  destruct (rbind _ _) as [raw|e]; simpl; auto.
  destruct (json_loads raw); simpl; auto.
Qed.

(** C6 (amended). In a record returned by [load_validate_hash] the keys of
    the hash mapping are exactly the entries of the input-path list, each
    once: an input path given twice has a single entry, and the two
    sequences coincide when the resolved input paths are pairwise
    distinct. Each hash is the SHA-256 of the bytes of that file. *)
Theorem loaded_inputs_invariant `{Runtime}
  (input_files : list pystr) (config_file version : pystr)
  (w w' : world) (li : LoadedInputs) :
  load_validate_hash input_files config_file version w = (Ok li, w') ->
  input_paths li = map (resolve w) input_files
  /\ dict_wf (input_hashes li)
  /\ (forall p, In p (dict_keys (input_hashes li)) <-> In p (input_paths li))
  /\ (NoDup (input_paths li) -> dict_keys (input_hashes li) = input_paths li)
  /\ (forall p h, dict_get (input_hashes li) p = Some h ->
        exists content,
          fs w p = Some (File true content) /\ h = sha256_bytes content).
Proof.
  unfold load_validate_hash. destruct (str_strip version) as [|c v'];
    [discriminate|].
  intros Hrun.
  apply io_bind_inv in Hrun. destruct Hrun as (paths & w1 & Hres & Hrun).
  rewrite resolve_all in Hres. inversion Hres; subst paths w1; clear Hres.
  apply io_bind_inv in Hrun. destruct Hrun as ([] & w2 & Hval & Hrun).
  destruct (validate_paths_outcome (map (resolve w) input_files)
              (logs w (map EvResolve input_files)))
    as (r & evs & Hval' & _ & _).
  rewrite Hval in Hval'. inversion Hval'; subst r w2; clear Hval'.
  apply io_bind_inv in Hrun. destruct Hrun as (cfg_path & w3 & Hcp & Hrun).
  unfold Path_resolve in Hcp. inversion Hcp; subst cfg_path w3; clear Hcp.
  apply io_bind_inv in Hrun. destruct Hrun as (cfg & w4 & Hcfg & Hrun).
  apply io_bind_inv in Hrun. destruct Hrun as (hashes & w5 & Hhash & Hrun).
  apply io_bind_inv in Hrun. destruct Hrun as (ch & w6 & _ & Hrun).
  unfold io_ret in Hrun. inversion Hrun; subst li w'; clear Hrun. simpl.
  assert (fs w4 = fs w) as Hfs4.
  { pose proof (load_config_fs (resolve (logs (logs w (map EvResolve input_files)) evs) config_file)
                  (log (logs (logs w (map EvResolve input_files)) evs)
                       (EvResolve config_file))) as Hfs.
    rewrite Hcfg in Hfs. simpl in Hfs. rewrite !fs_logs in Hfs. exact Hfs. }
  destruct (hash_all_inputs _ _ _ _ _ Hhash) as (Hwf & _ & Hkeys & Hord & Hval0).
  { constructor. }
  split; [reflexivity|]. split; [exact Hwf|]. split; [|split].
  - intros p. rewrite Hkeys. simpl. tauto.
  - intros Hnd. apply Hord. exact Hnd.
  - intros p h Hp. destruct (Hval0 p h Hp) as [Hacc|Hfile].
    + discriminate.
    + rewrite Hfs4 in Hfile. exact Hfile.
Qed.

Example loaded_inputs_invariant_witness :
  exists li w',
    @load_validate_hash Sample.runtime [py "a.txt"; py "b.txt"]
      (py "upper.json") (py "1.0") Sample.w0 = (Ok li, w')
    /\ dict_keys (input_hashes li) = [py "/d/a.txt"; py "/d/b.txt"]
    /\ dict_get (input_hashes li) (py "/d/a.txt")
       = Some (sha256_bytes Sample.hello).
Proof.
  assert (exists li w',
            @load_validate_hash Sample.runtime [py "a.txt"; py "b.txt"]
              (py "upper.json") (py "1.0") Sample.w0 = (Ok li, w')) as Hrun.
  { vm_compute. eexists; eexists; reflexivity. }
  destruct Hrun as (li & w' & Hrun). exists li, w'.
  split; [exact Hrun|].
  destruct (@loaded_inputs_invariant Sample.runtime _ _ _ _ _ _ Hrun)
    as (Hpaths & Hwf & Hkeys & Hord & Hval).
  assert (dict_keys (input_hashes li) = [py "/d/a.txt"; py "/d/b.txt"]) as Hk.
  { rewrite Hord; rewrite Hpaths; [reflexivity|].
    constructor.
    - simpl; intros [Heq|[]]; vm_compute in Heq; discriminate.
    - constructor; [simpl; tauto | constructor]. }
  split; [exact Hk|].
  destruct (dict_get (input_hashes li) (py "/d/a.txt")) as [h|] eqn:Eh.
  - destruct (Hval _ _ Eh) as (content & Hfile & ->).
    vm_compute in Hfile. inversion Hfile; reflexivity.
  - apply dict_get_None in Eh. exfalso; apply Eh.
    fold (dict_keys (input_hashes li)). rewrite Hk. left; reflexivity.
Defined.

(** C6 as stated fails: when the same input is named twice, the path list
    has two entries and the hash mapping one. *)
Lemma duplicate_input_has_one_hash :
  exists li,
    @fst _ world
      (@load_validate_hash Sample.runtime [py "a.txt"; py "/d/a.txt"]
         (py "upper.json") (py "1.0") Sample.w0) = Ok li
    /\ input_paths li = [py "/d/a.txt"; py "/d/a.txt"]
    /\ dict_keys (input_hashes li) = [py "/d/a.txt"].
Proof. vm_compute. eexists. repeat split. Qed.

(** ** C5: which failures are pipeline errors *)

Lemma foreign_rbind {A B} (r : result A) (f : A -> result B) :
  foreign r -> (forall a, foreign (f a)) -> foreign (rbind r f).
Proof. destruct r; simpl; auto. Qed.

Lemma io_foreign_bind {A B} (m : IO A) (f : A -> IO B) :
  io_foreign m -> (forall a, io_foreign (f a)) -> io_foreign (io_bind m f).
Proof.
  intros Hm Hf w. unfold io_bind. specialize (Hm w).
  destruct (m w) as [[a|e] w1]; simpl in *; auto. apply Hf.
Qed.

Lemma io_foreign_ret {A} (a : A) : io_foreign (io_ret a).
Proof. intros w; exact I. Qed.

Lemma io_foreign_lift {A} (r : result A) : foreign r -> io_foreign (io_lift r).
Proof. intros Hr w; exact Hr. Qed.

Lemma io_foreign_dict_comp {X V} (key : X -> pystr) (val : X -> IO V)
  (xs : list X) :
  (forall x, io_foreign (val x)) ->
  forall acc, io_foreign (io_dict_comp key val xs acc).
Proof.
  intros Hval. induction xs as [|x xs IH]; intros acc; simpl.
  - apply io_foreign_ret.
  - apply io_foreign_bind; auto.
Qed.

Lemma str_encode_error (s : pystr) (e : exn) :
  str_encode s = Err e -> exn_cls e = UnicodeEncodeError.
Proof.
  induction s as [|c s IH]; simpl; [discriminate|].
  destruct (utf8_encode_char c).
  - destruct (str_encode s); [discriminate|].
    intros Heq; inversion Heq; subst; auto.
  - intros Heq; inversion Heq; reflexivity.
Qed.

Lemma bytes_decode_error_bound (n : nat) :
  forall (bs : bytes) (e : exn),
    (List.length bs <= n)%nat ->
    bytes_decode bs = Err e -> exn_cls e = UnicodeDecodeError.
Proof.
  induction n as [|n IH]; intros bs e Hlen.
  - destruct bs; [discriminate | simpl in Hlen; lia].
  - destruct bs as [|x0 r0]; [discriminate|].
    simpl in Hlen. simpl bytes_decode.
    assert (forall r c, (List.length r <= n)%nat ->
              match bytes_decode r with
              | Ok s => Ok (c :: s)
              | Err e0 => Err e0
              end = Err e -> exn_cls e = UnicodeDecodeError) as Hcons.
    { intros r c Hr. destruct (bytes_decode r) eqn:Er; [discriminate|].
      intros Heq; inversion Heq; subst. eapply IH; eauto. }
    assert (forall A (x : A), @raise A UnicodeDecodeError MsgRuntime = Err e ->
              exn_cls e = UnicodeDecodeError) as Hbad
      by (intros A x Heq; inversion Heq; reflexivity).
    repeat match goal with
           | |- (if ?c then _ else _) = _ -> _ => destruct c
           | |- match ?l with [] => _ | _ :: _ => _ end = _ -> _ =>
               destruct l; simpl in Hlen
           end;
      try (apply (Hbad pystr []));
      try (apply Hcons; simpl in *; lia).
Qed.

Lemma bytes_decode_error (bs : bytes) (e : exn) :
  bytes_decode bs = Err e -> exn_cls e = UnicodeDecodeError.
Proof. apply (bytes_decode_error_bound (List.length bs)); lia. Qed.

Lemma transform_bytes_error `{Runtime} (data : bytes) (t : pyval) (e : exn) :
  _transform_bytes data t = Err e ->
  In (exn_cls e) [ValueError; UnicodeDecodeError; UnicodeEncodeError].
Proof.
  unfold _transform_bytes. destruct (eq_str t (py "noop")); [discriminate|].
  destruct (bytes_decode data) as [text|e'] eqn:Ed; simpl.
  - destruct (eq_str t (py "upper")).
    { intros He; apply str_encode_error in He; rewrite He; simpl; auto. }
    destruct (eq_str t (py "lower")).
    { intros He; apply str_encode_error in He; rewrite He; simpl; auto. }
    intros He; inversion He; simpl; auto.
  - intros He; inversion He; subst.
    apply bytes_decode_error in Ed; rewrite Ed; simpl; auto.
Qed.

Lemma dict_comp_error {X V} (key : X -> pystr) (val : X -> result V)
  (xs : list X) (e : exn) :
  forall acc, dict_comp key val xs acc = Err e -> exists x, val x = Err e.
Proof.
  induction xs as [|x xs IH]; intros acc; simpl; [discriminate|].
  destruct (val x) eqn:Ev; eauto.
  intros He; inversion He; subst; eauto.
Qed.

(** Every failure of [process] is a built-in [ValueError] or one of its
    Unicode subclasses. *)
Lemma process_error `{Runtime} (raw : dict bytes) (params : dict pyval)
  (e : exn) :
  process raw params = Err e ->
  In (exn_cls e) [ValueError; UnicodeDecodeError; UnicodeEncodeError].
Proof.
  unfold process, dict_contains, dict_getitem.
  destruct (dict_get params (py "transform")) as [t|]; simpl;
    [|intros He; inversion He; simpl; auto].
  destruct (dict_get params (py "seed")); simpl;
    [|intros He; inversion He; simpl; auto].
  destruct (dict_comp _ _ _ _) eqn:Ec; simpl; [discriminate|].
  intros He; inversion He; subst.
  apply dict_comp_error in Ec. destruct Ec as [x Hx].
  eapply transform_bytes_error; eauto.
Qed.

Lemma process_foreign `{Runtime} (raw : dict bytes) (params : dict pyval) :
  foreign (process raw params).
Proof.
  destruct (process raw params) as [a|e] eqn:E; simpl; auto.
  apply process_error in E. unfold pipeline_error, isinstance_exn.
  destruct E as [<-|[<-|[<-|[]]]]; reflexivity.
Qed.

Lemma file_bytes_foreign (w : world) (p : pystr) : foreign (file_bytes w p).
Proof.
  unfold file_bytes. destruct (fs w p) as [[|[] c]|]; simpl; auto.
Qed.

Lemma read_inputs_foreign (paths : list pystr) :
  io_foreign (_read_inputs paths).
Proof.
  apply io_foreign_dict_comp. intros p w. apply file_bytes_foreign.
Qed.

Lemma str_encode_foreign (s : pystr) : foreign (str_encode s).
Proof.
  destruct (str_encode s) as [b|e] eqn:E; simpl; auto.
  apply str_encode_error in E. unfold pipeline_error, isinstance_exn.
  rewrite E; reflexivity.
Qed.

Lemma feed_inputs_foreign (hashes : dict pystr) (paths : list pystr) :
  forall h, foreign (feed_inputs hashes paths h).
Proof.
  induction paths as [|p paths IH]; intros h; simpl; auto.
  apply foreign_rbind; [apply str_encode_foreign|]. intros b.
  apply foreign_rbind.
  { unfold dict_getitem. destruct (dict_get hashes p); simpl; auto. }
  intros v. apply foreign_rbind; [apply str_encode_foreign|]. auto.
Qed.

Lemma compute_run_id_foreign (hashes : dict pystr) (cfg_hash version : pystr) :
  foreign (_compute_run_id hashes cfg_hash version).
Proof.
  unfold _compute_run_id, run_id_hasher.
  apply foreign_rbind; [|intros h; exact I].
  apply foreign_rbind; [apply feed_inputs_foreign | intros h].
  apply foreign_rbind; [apply str_encode_foreign | intros b].
  apply foreign_rbind; [apply str_encode_foreign | intros b'].
  exact I.
Qed.

Lemma build_provenance_foreign (hashes : dict pystr)
  (cfg_hash version : pystr) (params : dict pyval) :
  io_foreign (build_provenance hashes cfg_hash version params).
Proof.
  unfold build_provenance.
  apply io_foreign_bind; [intros w; exact I | intros ts].
  apply io_foreign_bind; [intros w; exact I | intros env].
  apply io_foreign_bind;
    [apply io_foreign_lift, compute_run_id_foreign | intros id].
  apply io_foreign_ret.
Qed.

Lemma mkdir_p_foreign (fuel : nat) :
  forall f p, foreign (mkdir_p fuel f p).
Proof.
  induction fuel as [|fuel IH]; intros f p; simpl;
    destruct (f p) as [[|r c]|]; simpl; auto;
    destruct (f (path_parent p)) as [[|r c]|]; simpl; auto.
  destruct (str_eqb (path_parent p) p); simpl; auto.
  specialize (IH f (path_parent p)).
  destruct (mkdir_p fuel f (path_parent p)) as [f'|e]; simpl in *; auto.
  destruct (f' (path_parent p)) as [[|r c]|]; simpl; auto.
Qed.

Lemma Path_mkdir_foreign (p : pystr) : io_foreign (Path_mkdir p).
Proof.
  intros w. unfold Path_mkdir.
  pose proof (mkdir_p_foreign (List.length p) (fs w) p) as Hm.
  destruct (mkdir_p (List.length p) (fs w) p); simpl in *; auto.
Qed.

Lemma write_file_foreign (w : world) (p : pystr) (content : bytes) :
  foreign (write_file w p content).
Proof.
  unfold write_file.
  destruct (fs w (path_parent p)) as [[|r c]|]; simpl; auto;
    destruct (fs w p) as [[|r' c']|]; simpl; auto.
Qed.

Lemma Path_write_bytes_foreign (p : pystr) (content : bytes) :
  io_foreign (Path_write_bytes p content).
Proof.
  intros w. unfold Path_write_bytes.
  pose proof (write_file_foreign w p content) as Hm.
  destruct (write_file w p content); simpl in *; auto.
Qed.

Lemma Path_write_text_foreign (p : pystr) (text : pystr) :
  io_foreign (Path_write_text p text).
Proof.
  intros w. unfold Path_write_text.
  assert (foreign (rbind (str_encode text) (write_file w p))) as Hm
    by (apply foreign_rbind;
        [apply str_encode_foreign | intros; apply write_file_foreign]).
  destruct (rbind (str_encode text) (write_file w p)); simpl in *; auto.
Qed.

Lemma write_artifacts_foreign (dir : pystr) (entries : list (pystr * bytes)) :
  forall written, io_foreign (write_artifacts dir entries written).
Proof.
  induction entries as [|[k c] entries IH]; intros written; simpl.
  - apply io_foreign_ret.
  - apply io_foreign_bind; [apply Path_write_bytes_foreign | auto].
Qed.

Lemma json_encode_foreign `{Runtime} (o : json_opts) (level : nat)
  (v : pyval) :
  foreign (json_encode o level v).
Proof.
  destruct (json_encode o level v) as [s|e] eqn:E; simpl; auto.
  apply json_encode_error in E; subst; reflexivity.
Qed.

Lemma write_outputs_foreign `{Runtime} (out_dir : pystr)
  (processed : ProcessedArtifact) (provenance : Provenance) :
  io_foreign (write_outputs out_dir processed provenance).
Proof.
  unfold write_outputs.
  apply io_foreign_bind; [intros w; exact I | intros out_path].
  apply io_foreign_bind; [apply Path_mkdir_foreign | intros _].
  apply io_foreign_bind; [apply Path_mkdir_foreign | intros _].
  apply io_foreign_bind; [apply write_artifacts_foreign | intros written].
  apply io_foreign_bind;
    [apply io_foreign_lift, json_encode_foreign | intros text].
  apply io_foreign_bind; [apply Path_write_text_foreign | intros _].
  apply io_foreign_ret.
Qed.

Lemma io_bind_assoc {A B C} (m : IO A) (f : A -> IO B) (g : B -> IO C)
  (w : world) :
  io_bind (io_bind m f) g w = io_bind m (fun a => io_bind (f a) g) w.
Proof. unfold io_bind. destruct (m w) as [[a|e] w1]; reflexivity. Qed.

Lemma main_body_after_load `{Runtime} (args : Args) (w : world) :
  main_body args w
  = io_bind (load_validate_hash (arg_inputs args) (arg_config args)
               (arg_version args))
            (after_load args) w.
Proof. unfold main_body, run_stages. apply io_bind_assoc. Qed.

Lemma after_load_foreign `{Runtime} (args : Args) (loaded : LoadedInputs) :
  io_foreign (after_load args loaded).
Proof.
  unfold after_load.
  apply io_foreign_bind.
  - apply io_foreign_bind; [apply read_inputs_foreign | intros raw].
    apply io_foreign_bind;
      [apply io_foreign_lift, process_foreign | intros processed].
    apply io_foreign_bind; [apply build_provenance_foreign | intros prov].
    apply io_foreign_ret.
  - intros [[l processed] provenance].
    apply io_foreign_bind; [apply write_outputs_foreign | intros _].
    intros w; exact I.
Qed.

(** C5 (amended). [main] returns 2 exactly when [load_validate_hash]
    raises one of the pipeline errors, which are [InputValidationError] and
    [ConfigError]. The processing errors (missing parameter, unsupported
    transform, invalid byte decoding) are built-in [ValueError]s, not
    pipeline errors, and a run in which [process] fails returns 3. *)
Theorem main_exit_codes `{Runtime} (args : Args) (w : world) :
  let load :=
    load_validate_hash (arg_inputs args) (arg_config args) (arg_version args)
  in
  (forall e, fst (load w) = Err e ->
     exn_cls e = InputValidationError \/ exn_cls e = ConfigError ->
     fst (main args w) = 2%Z)
  /\ (fst (main args w) = 2%Z ->
      exists e, fst (load w) = Err e /\ pipeline_error e = true)
  /\ (forall raw params e, process raw params = Err e ->
        In (exn_cls e) [ValueError; UnicodeDecodeError; UnicodeEncodeError]
        /\ pipeline_error e = false)
  /\ (forall li w1 raw w2 e,
        load w = (Ok li, w1) ->
        _read_inputs (input_paths li) w1 = (Ok raw, w2) ->
        process raw (config li) = Err e ->
        fst (main args w) = 3%Z).
Proof.
  intros load. unfold main. rewrite main_body_after_load. fold load.
  repeat split.
  - intros e He Hcls. unfold io_bind.
    destruct (load w) as [[li|e'] w1]; simpl in He; [discriminate|].
    inversion He; subst e'. unfold isinstance_exn.
    destruct Hcls as [-> | ->]; reflexivity.
  - unfold io_bind. destruct (load w) as [[li|e] w1] eqn:El.
    + pose proof (after_load_foreign args li w1) as Hf.
      destruct (after_load args li w1) as [[u|e] w2]; simpl in *;
        [discriminate|].
      unfold pipeline_error in Hf. rewrite Hf. discriminate.
    + simpl. destruct (isinstance_exn e PipelineError) eqn:Ep;
        [|discriminate].
      intros _. exists e; auto.
  - eapply process_error; eauto.
  - match goal with
    | Hp : process ?raw ?params = Err _ |- _ =>
        pose proof (process_foreign raw params) as Hf; rewrite Hp in Hf
    end.
    exact Hf.
  - intros li w1 raw w2 e Hl Hr Hp. unfold io_bind at 1. rewrite Hl.
    unfold after_load.
    rewrite io_bind_assoc. rewrite (io_bind_Ok _ _ _ _ _ Hr).
    rewrite io_bind_assoc. unfold io_bind at 1. unfold io_lift at 1.
    rewrite Hp.
    pose proof (process_foreign raw (config li)) as Hf. rewrite Hp in Hf.
    simpl in Hf. unfold pipeline_error in Hf. rewrite Hf. reflexivity.
Qed.

Example main_exit_codes_witness :
  @fst _ world (@main Sample.runtime (Sample.args_of "a.txt" "mixed.json") Sample.w0)
  = 2%Z
  /\ @fst _ world (@main Sample.runtime (Sample.args_of "bin" "upper.json") Sample.w0)
     = 3%Z.
Proof.
  split.
  - refine (proj1 (@main_exit_codes Sample.runtime
                     (Sample.args_of "a.txt" "mixed.json") Sample.w0)
              (Raise ConfigError MsgConfigTransform) _ _).
    + vm_compute; reflexivity.
    + right; reflexivity.
  - refine (proj2 (proj2 (proj2 (@main_exit_codes Sample.runtime
                     (Sample.args_of "bin" "upper.json") Sample.w0)))
              _ _ _ _ (Raise UnicodeDecodeError MsgRuntime) _ _ _).
    + vm_compute; reflexivity.
    + vm_compute; reflexivity.
    + vm_compute; reflexivity.
Defined.

(** C5 as stated fails: an input that is not valid UTF-8 makes [process]
    raise [UnicodeDecodeError], and a missing parameter [ValueError];
    neither is a pipeline error, and the run ends with exit code 3. *)
Lemma processing_failure_exits_3 :
  @process Sample.runtime [(py "/d/bin", [Byte.xff])]
    (Sample.params "upper" (PInt 123))
  = Err (Raise UnicodeDecodeError MsgRuntime)
  /\ @process Sample.runtime [] [(py "transform", PStr (py "upper"))]
     = Err (Raise ValueError (MsgMissingParameter (py "seed")))
  /\ isinstance_exn (Raise UnicodeDecodeError MsgRuntime) PipelineError = false
  /\ isinstance_exn (Raise ValueError (MsgMissingParameter (py "seed")))
       PipelineError = false
  /\ @fst _ world
       (@main Sample.runtime (Sample.args_of "bin" "upper.json") Sample.w0)
     = 3%Z.
Proof. repeat split; vm_compute; reflexivity. Qed.

(** ** C1: the clock and the platform do not reach the results *)

Lemma same_files_log (w1 w2 : world) (e1 e2 : event) :
  same_files w1 w2 -> same_files (log w1 e1) (log w2 e2).
Proof. intros [Hf Hr]; split; simpl; auto. Qed.

Lemma agnostic_ret {A} (a : A) : agnostic (io_ret a).
Proof. intros w1 w2 Hs; simpl; auto. Qed.

Lemma agnostic_raise {A} (c : exn_class) (m : message) :
  agnostic (@io_raise A c m).
Proof. intros w1 w2 Hs; simpl; auto. Qed.

Lemma agnostic_lift {A} (r : result A) : agnostic (io_lift r).
Proof. intros w1 w2 Hs; simpl; auto. Qed.

Lemma agnostic_bind {A B} (m : IO A) (f : A -> IO B) :
  agnostic m -> (forall a, agnostic (f a)) -> agnostic (io_bind m f).
Proof.
  intros Hm Hf w1 w2 Hs. unfold io_bind.
  destruct (Hm w1 w2 Hs) as [Hres Hs'].
  destruct (m w1) as [[a1|e1] w1'], (m w2) as [[a2|e2] w2']; simpl in *;
    try discriminate.
  - inversion Hres; subst. apply Hf; assumption.
  - inversion Hres; subst. auto.
Qed.

Lemma agnostic_for {X} (xs : list X) (body : X -> IO unit) :
  (forall x, agnostic (body x)) -> agnostic (io_for xs body).
Proof.
  intros Hb. induction xs as [|x xs IH]; simpl.
  - apply agnostic_ret.
  - apply agnostic_bind; auto.
Qed.

Lemma agnostic_map {X Y} (f : X -> IO Y) (xs : list X) :
  (forall x, agnostic (f x)) -> agnostic (io_map f xs).
Proof.
  intros Hf. induction xs as [|x xs IH]; simpl.
  - apply agnostic_ret.
  - apply agnostic_bind; auto. intros y.
    apply agnostic_bind; auto. intros ys. apply agnostic_ret.
Qed.

Lemma agnostic_dict_comp {X V} (key : X -> pystr) (val : X -> IO V)
  (xs : list X) :
  (forall x, agnostic (val x)) ->
  forall acc, agnostic (io_dict_comp key val xs acc).
Proof.
  intros Hv. induction xs as [|x xs IH]; intros acc; simpl.
  - apply agnostic_ret.
  - apply agnostic_bind; auto.
Qed.

Lemma agnostic_resolve (s : pystr) : agnostic (Path_resolve s).
Proof.
  intros w1 w2 Hs. unfold Path_resolve; simpl. split.
  - rewrite (proj2 Hs s); reflexivity.
  - apply same_files_log; assumption.
Qed.

Lemma agnostic_exists (p : pystr) : agnostic (Path_exists p).
Proof.
  intros w1 w2 Hs. unfold Path_exists; simpl. split.
  - rewrite (proj1 Hs p); reflexivity.
  - apply same_files_log; assumption.
Qed.

Lemma agnostic_is_file (p : pystr) : agnostic (Path_is_file p).
Proof.
  intros w1 w2 Hs. unfold Path_is_file; simpl. split.
  - rewrite (proj1 Hs p); reflexivity.
  - apply same_files_log; assumption.
Qed.

Lemma file_bytes_same (w1 w2 : world) (p : pystr) :
  same_files w1 w2 -> file_bytes w1 p = file_bytes w2 p.
Proof. intros Hs. unfold file_bytes. rewrite (proj1 Hs p); reflexivity. Qed.

Lemma agnostic_read_bytes (p : pystr) : agnostic (Path_read_bytes p).
Proof.
  intros w1 w2 Hs. unfold Path_read_bytes; simpl. split.
  - apply file_bytes_same; assumption.
  - apply same_files_log; assumption.
Qed.

Lemma agnostic_sha256_file (p : pystr) : agnostic (sha256_file p).
Proof.
  intros w1 w2 Hs. rewrite !sha256_file_content; simpl. split.
  - rewrite (file_bytes_same w1 w2 p Hs); reflexivity.
  - apply same_files_log; assumption.
Qed.

Lemma agnostic_read_and_parse `{Runtime} (p : pystr) :
  agnostic (read_and_parse p).
Proof.
  intros w1 w2 Hs. unfold read_and_parse, Path_read_text.
  rewrite (file_bytes_same w1 w2 p Hs).
  destruct (rbind (file_bytes w2 p) decode_text) as [raw|e]; simpl.
  - destruct (json_loads raw); simpl; split; auto using same_files_log.
  - split; auto using same_files_log.
Qed.

Lemma agnostic_validate_paths (paths : list pystr) :
  agnostic (_validate_paths paths).
Proof.
  unfold _validate_paths. destruct paths as [|p0 paths0].
  - apply agnostic_raise.
  - apply agnostic_for. intros p.
    apply agnostic_bind; [apply agnostic_exists | intros ex].
    destruct (negb ex); [apply agnostic_raise|].
    apply agnostic_bind; [apply agnostic_is_file | intros isf].
    destruct (negb isf); [apply agnostic_raise | apply agnostic_ret].
Qed.

Lemma agnostic_load_config `{Runtime} (p : pystr) : agnostic (_load_config p).
Proof.
  unfold _load_config.
  apply agnostic_bind; [apply agnostic_exists | intros ex].
  destruct (negb ex); [apply agnostic_raise|].
  apply agnostic_bind; [apply agnostic_is_file | intros isf].
  destruct (negb isf); [apply agnostic_raise|].
  apply agnostic_bind; [apply agnostic_read_and_parse | intros cfg].
  apply agnostic_lift.
Qed.

Lemma agnostic_load_validate_hash `{Runtime}
  (input_files : list pystr) (config_file version : pystr) :
  agnostic (load_validate_hash input_files config_file version).
Proof.
  unfold load_validate_hash. destruct (str_strip version).
  - apply agnostic_raise.
  - apply agnostic_bind;
      [apply agnostic_map; intros; apply agnostic_resolve | intros paths].
    apply agnostic_bind; [apply agnostic_validate_paths | intros _].
    apply agnostic_bind; [apply agnostic_resolve | intros cfg_path].
    apply agnostic_bind; [apply agnostic_load_config | intros cfg].
    apply agnostic_bind;
      [apply agnostic_dict_comp; intros; apply agnostic_sha256_file
      | intros hashes].
    apply agnostic_bind; [apply agnostic_lift | intros ch].
    apply agnostic_ret.
Qed.

Lemma agnostic_read_inputs (paths : list pystr) :
  agnostic (_read_inputs paths).
Proof.
  apply agnostic_dict_comp. intros; apply agnostic_read_bytes.
Qed.

Lemma build_provenance_records (hashes : dict pystr)
  (cfg_hash version : pystr) (params : dict pyval) (w1 w2 : world) :
  same_outcome
    (fun p1 p2 =>
       records_of hashes cfg_hash version p1 p2
       /\ stamped w1 p1 /\ stamped w2 p2)
    (fst (build_provenance hashes cfg_hash version params w1))
    (fst (build_provenance hashes cfg_hash version params w2)).
Proof.
  unfold build_provenance, io_bind, now_isoformat, platform_env, io_lift,
    io_ret. simpl.
  destruct (_compute_run_id hashes cfg_hash version) as [id|e] eqn:Eid;
    simpl; auto.
  unfold records_of, stamped. rewrite Eid.
  split; [split|split; split]; try reflexivity.
  - intros k Hk. unfold audit_only in Hk.
    apply orb_false_iff in Hk. destruct Hk as [Hts Henv].
    cbn [data dict_get]. rewrite Hts, Henv. reflexivity.
  - exists id; repeat split.
Qed.

(** C1. Two runs on the same files with the same arguments, at different
    times and on different platforms, raise the same exception or return
    the same loaded inputs and the same processed artifacts, with
    provenance records that carry the same run identifier and differ at
    most in [timestamp_utc] and [execution_environment]. The same holds of
    [build_provenance] alone on any arguments: its run identifier is
    [_compute_run_id] of the hashes, the config hash and the version. *)
Theorem provenance_non_interference `{Runtime} (args : Args) (w1 w2 : world) :
  same_files w1 w2 ->
  same_outcome
    (fun r1 r2 =>
       let '(l1, a1, p1) := r1 in
       let '(l2, a2, p2) := r2 in
       l1 = l2 /\ a1 = a2
       /\ records_of (input_hashes l1) (config_hash l1) (pipeline_version l1)
            p1 p2)
    (fst (run_stages args w1)) (fst (run_stages args w2))
  /\ forall hashes cfg_hash version params,
       same_outcome
         (fun p1 p2 =>
            records_of hashes cfg_hash version p1 p2
            /\ stamped w1 p1 /\ stamped w2 p2)
         (fst (build_provenance hashes cfg_hash version params w1))
         (fst (build_provenance hashes cfg_hash version params w2)).
Proof.
  intros Hs. split; [|intros; apply build_provenance_records].
  unfold run_stages.
  destruct (agnostic_load_validate_hash (arg_inputs args) (arg_config args)
              (arg_version args) w1 w2 Hs) as [Hl Hs1].
  unfold io_bind at 1 5.
  destruct (load_validate_hash _ _ _ w1) as [[li|e] w1a],
           (load_validate_hash _ _ _ w2) as [[li2|e2] w2a];
    simpl in Hl, Hs1; try discriminate; [|inversion Hl; subst; reflexivity].
  inversion Hl; subst li2; clear Hl.
  destruct (agnostic_read_inputs (input_paths li) w1a w2a Hs1) as [Hr Hs2].
  unfold io_bind at 1 4.
  destruct (_read_inputs (input_paths li) w1a) as [[raw|e] w1b],
           (_read_inputs (input_paths li) w2a) as [[raw2|e2] w2b];
    simpl in Hr, Hs2; try discriminate; [|inversion Hr; subst; reflexivity].
  inversion Hr; subst raw2; clear Hr.
  unfold io_bind at 1 3. unfold io_lift.
  destruct (process raw (config li)) as [processed|e]; [|reflexivity].
  pose proof (build_provenance_records (input_hashes li) (config_hash li)
                (pipeline_version li) (config li) w1b w2b) as Hb.
  unfold io_bind, io_ret.
  destruct (build_provenance _ _ _ _ w1b) as [[p1|e1] w1c],
           (build_provenance _ _ _ _ w2b) as [[p2|e2] w2c];
    simpl in *; auto.
  destruct Hb as [Hrec _]. auto.
Qed.

Example provenance_non_interference_witness :
  same_files Sample.w0 Sample.w1
  /\ now_utc Sample.w0 <> now_utc Sample.w1
  /\ is_ok (fst (@run_stages Sample.runtime
                   (Sample.args_of "a.txt" "upper.json") Sample.w0)) = true
  /\ same_outcome
       (fun r1 r2 =>
          fst r1 = fst r2 /\ same_outside_audit (snd r1) (snd r2))
       (fst (@run_stages Sample.runtime
               (Sample.args_of "a.txt" "upper.json") Sample.w0))
       (fst (@run_stages Sample.runtime
               (Sample.args_of "a.txt" "upper.json") Sample.w1)).
Proof.
  assert (same_files Sample.w0 Sample.w1) as Hs
    by (split; intros; reflexivity).
  split; [exact Hs|].
  split; [vm_compute; discriminate|].
  split; [vm_compute; reflexivity|].
  pose proof (proj1 (@provenance_non_interference Sample.runtime
                       (Sample.args_of "a.txt" "upper.json")
                       Sample.w0 Sample.w1 Hs)) as Hrun.
  unfold same_outcome in *.
  destruct (fst (@run_stages Sample.runtime _ Sample.w0)) as [[[l1 a1] p1]|e1],
           (fst (@run_stages Sample.runtime _ Sample.w1)) as [[[l2 a2] p2]|e2];
    auto.
  destruct Hrun as (Hl & Ha & Hrec & _). simpl.
  split; [congruence | exact Hrec].
Defined.

(* ================================================================== *)
(** * Further properties of the layers *)
(* ================================================================== *)

(** ** input_layer: versions and paths *)

Lemma forallb_rev {A} (f : A -> bool) (l : list A) :
  forallb f (rev l) = forallb f l.
Proof.
  induction l as [|x l IH]; simpl; auto.
  rewrite forallb_app, IH. simpl. rewrite andb_true_r. apply andb_comm.
Qed.

Lemma str_lstrip_nil (s : pystr) :
  str_lstrip s = [] <-> forallb is_space s = true.
Proof.
  induction s as [|c s IH]; simpl; [tauto|].
  destruct (is_space c); simpl; [exact IH|].
  split; discriminate.
Qed.

Lemma str_lstrip_spaces (s : pystr) :
  forallb is_space (str_lstrip s) = forallb is_space s.
Proof.
  induction s as [|c s IH]; simpl; auto.
  destruct (is_space c) eqn:E; simpl; auto. rewrite E; reflexivity.
Qed.

(** [strip] leaves nothing exactly when every character is whitespace. *)
Lemma str_strip_nil (s : pystr) :
  str_strip s = [] <-> forallb is_space s = true.
Proof.
  unfold str_strip.
  rewrite <- str_lstrip_spaces, <- (forallb_rev is_space (str_lstrip s)).
  rewrite <- str_lstrip_nil.
  split; intros Hs.
  - apply (f_equal (@rev N)) in Hs. rewrite rev_involutive in Hs. exact Hs.
  - rewrite Hs; reflexivity.
Qed.

(** X1. A pipeline version that is empty or made of whitespace only is
    rejected with [InputValidationError] before any I/O: the world is
    returned as it was, whatever the inputs and the config. *)
Theorem blank_version_rejected_without_io `{Runtime}
  (input_files : list pystr) (config_file version : pystr) (w : world) :
  forallb is_space version = true ->
  load_validate_hash input_files config_file version w
  = (Err (Raise InputValidationError MsgVersionEmpty), w).
Proof.
  intros Hs. apply str_strip_nil in Hs.
  unfold load_validate_hash. rewrite Hs. reflexivity.
Qed.

Example blank_version_rejected_without_io_witness :
  @load_validate_hash Sample.runtime [py "a.txt"] (py "upper.json")
    [0x20; 0x09; 0x0A; 0xA0; 0x3000] Sample.w0
  = (Err (Raise InputValidationError MsgVersionEmpty), Sample.w0).
Proof.
  exact (@blank_version_rejected_without_io Sample.runtime
           [py "a.txt"] (py "upper.json") [0x20; 0x09; 0x0A; 0xA0; 0x3000]
           Sample.w0 eq_refl).
Defined.

Lemma validate_paths_loop (paths : list pystr) :
  paths <> [] -> _validate_paths paths = io_for paths check_path.
Proof. destruct paths; [congruence | reflexivity]. Qed.

Lemma check_path_ok (p : pystr) (w : world) :
  is_regular_file w p = true ->
  check_path p w = (Ok tt, logs w [EvExists p; EvIsFile p]).
Proof.
  unfold is_regular_file, check_path, io_bind, Path_exists, Path_is_file.
  simpl. destruct (fs w p) as [[|r c]|] eqn:E; try discriminate.
  intros _. simpl. rewrite E. reflexivity.
Qed.

Lemma check_path_fail (p : pystr) (w : world) :
  is_regular_file w p = false ->
  check_path p w
  = (Err (fst (invalid_path_outcome w p)),
     logs w (snd (invalid_path_outcome w p))).
Proof.
  unfold is_regular_file, invalid_path_outcome, check_path, io_bind,
    Path_exists, Path_is_file.
  simpl. destruct (fs w p) as [[|r c]|] eqn:E; try discriminate;
    intros _; simpl; rewrite ?E; reflexivity.
Qed.

(** X2. [_validate_paths] stops at the first path that is missing or not a
    regular file: the paths before it are tested with [exists] and
    [is_file], the exception names that path (does not exist, or is not a
    file), and no later path is touched. *)
Theorem validate_paths_first_invalid
  (good rest : list pystr) (p : pystr) (w : world) :
  forallb (is_regular_file w) good = true ->
  is_regular_file w p = false ->
  _validate_paths (good ++ p :: rest) w
  = (Err (fst (invalid_path_outcome w p)),
     logs w (stat_events good ++ snd (invalid_path_outcome w p))).
Proof.
  intros Hgood Hp.
  rewrite validate_paths_loop by (destruct good; discriminate).
  revert w Hgood Hp. induction good as [|g good IH]; intros w Hgood Hp.
  - simpl. unfold io_bind. rewrite (check_path_fail p w Hp). reflexivity.
  - simpl in Hgood. apply andb_true_iff in Hgood. destruct Hgood as [Hg Hgood].
    simpl app. cbn [io_for]. unfold io_bind at 1.
    rewrite (check_path_ok g w Hg).
    rewrite IH.
    + unfold invalid_path_outcome. rewrite fs_logs.
      rewrite <- logs_app. reflexivity.
    + rewrite regular_files_logs; exact Hgood.
    + unfold is_regular_file in *. rewrite fs_logs; exact Hp.
Qed.

Example validate_paths_first_invalid_witness :
  _validate_paths [py "/d/a.txt"; py "/d"; py "/d/nope"] Sample.w0
  = (Err (Raise InputValidationError (MsgInputNotAFile (py "/d"))),
     logs Sample.w0 [EvExists (py "/d/a.txt"); EvIsFile (py "/d/a.txt");
                     EvExists (py "/d"); EvIsFile (py "/d")]).
Proof.
  exact (validate_paths_first_invalid [py "/d/a.txt"] [py "/d/nope"]
           (py "/d") Sample.w0 eq_refl eq_refl).
Defined.

Lemma check_paths_prefix (paths : list pystr) :
  forall w, exists n,
    snd (io_for paths check_path w) = logs w (firstn n (stat_events paths)).
Proof.
  induction paths as [|p paths IH]; intros w; simpl.
  - exists 0%nat. reflexivity.
  - unfold io_bind. destruct (is_regular_file w p) eqn:E.
    + rewrite (check_path_ok p w E).
      destruct (IH (logs w [EvExists p; EvIsFile p])) as [n Hn].
      exists (S (S n)). rewrite Hn, <- logs_app. reflexivity.
    + rewrite (check_path_fail p w E). unfold invalid_path_outcome.
      destruct (fs w p); [exists 2%nat | exists 1%nat]; reflexivity.
Qed.

(** X3. [_validate_paths] returns exactly when the list is not empty and
    every path is an existing regular file; an empty list is refused
    without any I/O.  Whether it returns or raises, all it does is test
    paths with [exists()] and [is_file()], in the order of the list and
    stopping at the first refusal. *)
Theorem validate_paths_accepts_iff (paths : list pystr) (w : world) :
  (fst (_validate_paths paths w) = Ok tt
   <-> paths <> [] /\ forallb (is_regular_file w) paths = true)
  /\ _validate_paths [] w
     = (Err (Raise InputValidationError MsgNoInputFiles), w)
  /\ exists n,
       snd (_validate_paths paths w) = logs w (firstn n (stat_events paths)).
Proof.
  split; [|split; [reflexivity|]].
  - split.
    + intros Hok.
      destruct paths as [|p0 paths0]; [discriminate|].
      split; [discriminate|].
      destruct (forallb (is_regular_file w) (p0 :: paths0)) eqn:E; auto.
      destruct (validate_paths_fail (p0 :: paths0) w (or_intror E))
        as (e & w' & Hrun & _).
      rewrite Hrun in Hok. discriminate.
    + intros [Hne Hall]. rewrite (validate_paths_ok paths w Hne Hall).
      reflexivity.
  - destruct paths as [|p0 paths0]; [exists 0%nat; reflexivity|].
    rewrite validate_paths_loop by discriminate.
    apply check_paths_prefix.
Qed.

(** ** input_layer: the configuration *)

Lemma validate_config_Ok (v : pyval) (d : dict pyval) :
  validate_config v = Ok d <-> v = PDict d /\ valid_config d.
Proof.
  split.
  - destruct v as [ | | | | | | |d0]; try discriminate.
    unfold validate_config, valid_config, dict_contains, dict_getitem.
    simpl filter.
    destruct (dict_get d0 (py "transform")) as [t|] eqn:Et;
      destruct (dict_get d0 (py "seed")) as [s|] eqn:Es; cbn [rbind negb];
      try discriminate.
    destruct (existsb (eq_str t) transforms) eqn:Ex; cbn [rbind negb];
      try discriminate.
    destruct (isinstance_int s) eqn:Ei; cbn [rbind negb]; try discriminate.
    intros Hd; inversion Hd; subst. split; [reflexivity|].
    rewrite Et, Es. split; [|eauto].
    apply existsb_exists in Ex. destruct Ex as (x & Hin & Hx).
    destruct t; simpl in Hx; try discriminate.
    apply str_eqb_eq in Hx; subst. eauto.
  - intros [-> [(t & Ht & Hin) (s & Hs & Hi)]].
    assert (existsb (eq_str (PStr t)) transforms = true) as Hex.
    { apply existsb_exists. exists t; split; auto. apply str_eqb_refl. }
    unfold validate_config, dict_contains, dict_getitem. simpl filter.
    rewrite Ht, Hs. unfold rbind. rewrite Hex, Hi. reflexivity.
Qed.

Lemma validate_config_Err (v : pyval) (e : exn) :
  validate_config v = Err e -> exn_cls e = ConfigError.
Proof.
  destruct v as [ | | | | | | |d0];
    try (intros He; inversion He; reflexivity).
  unfold validate_config, dict_contains, dict_getitem. simpl filter.
  destruct (dict_get d0 (py "transform")) as [t|];
    destruct (dict_get d0 (py "seed")) as [s|]; cbn [rbind negb];
    try (intros He; inversion He; reflexivity).
  destruct (existsb (eq_str t) transforms); cbn [rbind negb];
    try (intros He; inversion He; reflexivity).
  destruct (isinstance_int s); cbn [rbind negb];
    intros He; inversion He; reflexivity.
Qed.

Lemma load_config_Ok_inv `{Runtime} (p : pystr) (w w' : world)
  (d : dict pyval) :
  _load_config p w = (Ok d, w') ->
  w' = logs w (config_events p)
  /\ exists content raw,
       fs w p = Some (File true content)
       /\ decode_text content = Ok raw
       /\ json_loads raw = Some (PDict d)
       /\ valid_config d.
Proof.
  unfold _load_config, io_bind, Path_exists, Path_is_file, read_and_parse,
    Path_read_text, file_bytes, io_raise, io_lift.
  simpl. destruct (fs w p) as [[|[] content]|] eqn:E;
    repeat (simpl; rewrite ?E); try discriminate.
  destruct (decode_text content) as [raw|e] eqn:Ed; simpl; try discriminate.
  destruct (json_loads raw) as [cfg|] eqn:Ej; simpl; try discriminate.
  intros Hv. inversion Hv as [[Hcfg Hw]].
  apply validate_config_Ok in Hcfg. destruct Hcfg as [-> Hvalid].
  split; [reflexivity|]. exists content, raw. auto.
Qed.

(** X4. [_load_config] returns a configuration exactly when the path is a
    readable regular file whose text parses to a JSON object with
    [transform] among upper, lower, noop and [seed] an [int] (a [bool]
    counts); what it returns is the parsed object itself, other keys
    included and nothing defaulted. *)
Theorem load_config_accepts_iff `{Runtime} (p : pystr) (w : world)
  (d : dict pyval) :
  fst (_load_config p w) = Ok d
  <-> exists content raw,
        fs w p = Some (File true content)
        /\ decode_text content = Ok raw
        /\ json_loads raw = Some (PDict d)
        /\ valid_config d.
Proof.
  split.
  - destruct (_load_config p w) as [r w'] eqn:Erun. simpl. intros ->.
    apply load_config_Ok_inv in Erun. tauto.
  - intros (content & raw & Hfs & Hdec & Hparse & Hvalid).
    rewrite (load_config_run p w content raw (PDict d)); auto. cbn [fst].
    apply validate_config_Ok. auto.
Qed.

Lemma load_config_outcome `{Runtime} (p : pystr) (w : world) :
  match fst (_load_config p w) with
  | Ok d => valid_config d
  | Err e => exn_cls e = ConfigError
  end
  /\ exists n, snd (_load_config p w) = logs w (firstn n (config_events p)).
Proof.
  unfold _load_config, io_bind, Path_exists, Path_is_file, read_and_parse,
    Path_read_text, io_raise, io_lift.
  simpl. destruct (fs w p) as [[|r c]|] eqn:E; simpl; rewrite ?E; simpl.
  - split; [reflexivity | exists 2%nat; reflexivity].
  - destruct (rbind _ _) as [raw|e]; simpl.
    + destruct (json_loads raw) as [cfg|]; simpl.
      * split; [|exists 3%nat; reflexivity].
        destruct (validate_config cfg) as [d|e] eqn:Ev.
        -- apply validate_config_Ok in Ev; tauto.
        -- eapply validate_config_Err; eauto.
      * split; [reflexivity | exists 3%nat; reflexivity].
    + split; [reflexivity | exists 3%nat; reflexivity].
  - split; [reflexivity | exists 1%nat; reflexivity].
Qed.

(** X5. What [_load_config] does after its two tests.  When [exists()]
    answers no, it raises the "does not exist" [ConfigError] and has done
    nothing else; when [exists()] answers yes and [is_file()] no, it
    raises the "not a file" [ConfigError] after these two tests.  When
    both answer yes it reads the text once; whatever fails while reading,
    decoding or parsing it (an unreadable file, bytes that are not UTF-8,
    text that is not JSON) is turned into the "Failed to parse"
    [ConfigError] by the [try] block, and otherwise the outcome is that of
    the schema checks on the parsed value: from the [try] block on, every
    failure is a [ConfigError].  The two tests are outside the [try]
    block, and nothing is said of a call in which one of them raises. *)
Theorem load_config_fails_with_ConfigError `{Runtime} (p : pystr) (w : world) :
  match fst (Path_exists p w), fst (Path_is_file p w) with
  | Ok false, _ =>
      _load_config p w
      = (Err (Raise ConfigError (MsgConfigDoesNotExist p)),
         logs w [EvExists p])
  | Ok true, Ok false =>
      _load_config p w
      = (Err (Raise ConfigError (MsgConfigNotAFile p)),
         logs w [EvExists p; EvIsFile p])
  | Ok true, Ok true =>
      snd (_load_config p w) = logs w (config_events p)
      /\ fst (_load_config p w)
         = match rbind (file_bytes w p) decode_text with
           | Ok raw =>
               match json_loads raw with
               | Some cfg => validate_config cfg
               | None => Err (Raise ConfigError MsgConfigParse)
               end
           | Err _ => Err (Raise ConfigError MsgConfigParse)
           end
      /\ match fst (_load_config p w) with
         | Ok d => valid_config d
         | Err e => exn_cls e = ConfigError /\ pipeline_error e = true
         end
  | _, _ => True
  end.
Proof.
  destruct (load_config_outcome p w) as [Hres _].
  unfold Path_exists at 1, Path_is_file at 1. cbn [fst].
  destruct (fs w p) as [[|r c]|] eqn:E.
  - unfold _load_config, io_bind, Path_exists, Path_is_file, io_raise.
    repeat (simpl; rewrite ?E). reflexivity.
  - split; [|split].
    + unfold _load_config, io_bind, Path_exists, Path_is_file, read_and_parse,
        Path_read_text, io_raise, io_lift.
      repeat (simpl; rewrite ?E).
      destruct (rbind _ _) as [raw|e]; [|reflexivity].
      destruct (json_loads raw); reflexivity.
    + unfold _load_config, io_bind, Path_exists, Path_is_file, read_and_parse,
        Path_read_text, io_raise, io_lift.
      repeat (simpl; rewrite ?E).
      destruct (rbind _ _) as [raw|e]; [|reflexivity].
      destruct (json_loads raw); reflexivity.
    + destruct (fst (_load_config p w)) as [d|e]; auto.
      split; auto. unfold pipeline_error, isinstance_exn. rewrite Hres.
      reflexivity.
  - unfold _load_config, io_bind, Path_exists, io_raise.
    repeat (simpl; rewrite ?E). reflexivity.
Qed.

Example load_config_fails_with_ConfigError_witness :
  @_load_config Sample.runtime (py "/d") Sample.w0
  = (Err (Raise ConfigError (MsgConfigNotAFile (py "/d"))),
     logs Sample.w0 [EvExists (py "/d"); EvIsFile (py "/d")]).
Proof.
  exact (@load_config_fails_with_ConfigError Sample.runtime (py "/d")
           Sample.w0).
Defined.

(** ** input_layer: the record *)

Lemma str_lstrip_head (s : pystr) :
  match str_lstrip s with
  | [] => True
  | c :: _ => is_space c = false
  end.
Proof.
  induction s as [|c s IH]; simpl; auto.
  destruct (is_space c) eqn:E; auto.
Qed.

Lemma str_lstrip_fixed (s : pystr) :
  match s with [] => True | c :: _ => is_space c = false end ->
  str_lstrip s = s.
Proof. destruct s as [|c s]; simpl; auto. intros ->; reflexivity. Qed.

Lemma str_lstrip_split (s : pystr) :
  exists sp, s = sp ++ str_lstrip s.
Proof.
  induction s as [|c s [sp IH]]; simpl.
  - exists []; reflexivity.
  - destruct (is_space c).
    + exists (c :: sp). simpl. rewrite <- IH; reflexivity.
    + exists []; reflexivity.
Qed.

(** [strip] is idempotent: its result has no whitespace at either end. *)
Lemma str_strip_idempotent (s : pystr) :
  str_strip (str_strip s) = str_strip s.
Proof.
  unfold str_strip.
  set (t := str_lstrip s). set (u := str_lstrip (rev t)).
  assert (str_lstrip (rev u) = rev u) as Hhead.
  { apply str_lstrip_fixed.
    destruct (str_lstrip_split (rev t)) as [sp Hsp]. fold u in Hsp.
    apply (f_equal (@rev N)) in Hsp.
    rewrite rev_involutive, rev_app_distr in Hsp.
    pose proof (str_lstrip_head s) as Ht. fold t in Ht.
    destruct (rev u) as [|c r]; auto.
    rewrite Hsp in Ht. simpl in Ht. exact Ht. }
  rewrite Hhead, rev_involutive.
  rewrite (str_lstrip_fixed u); [reflexivity|].
  apply str_lstrip_head.
Qed.

Lemma logs_cons (w : world) (e : event) (evs : list event) :
  logs w (e :: evs) = logs (log w e) evs.
Proof. reflexivity. Qed.

Lemma hash_all_world (paths : list pystr) :
  forall (acc d : dict pystr) (w w' : world),
    io_dict_comp (fun p => p) sha256_file paths acc w = (Ok d, w') ->
    w' = logs w (map EvOpenRb paths).
Proof.
  induction paths as [|p paths IH]; intros acc d w w' Hrun; simpl in Hrun.
  - inversion Hrun; reflexivity.
  - unfold io_bind in Hrun. rewrite sha256_file_content in Hrun.
    destruct (file_bytes w p); [|discriminate].
    apply IH in Hrun. exact Hrun.
Qed.

(** What a returning call of [load_validate_hash] went through. *)
Lemma load_validate_hash_inv `{Runtime}
  (input_files : list pystr) (config_file version : pystr)
  (w w' : world) (li : LoadedInputs) :
  load_validate_hash input_files config_file version w = (Ok li, w') ->
  str_strip version <> []
  /\ input_files <> []
  /\ forallb (is_regular_file w) (map (resolve w) input_files) = true
  /\ input_paths li = map (resolve w) input_files
  /\ pipeline_version li = str_strip version
  /\ (exists w3, fs w3 = fs w
        /\ _load_config (resolve w config_file) w3
           = (Ok (config li), logs w3 (config_events (resolve w config_file))))
  /\ (exists w4, fs w4 = fs w
        /\ io_dict_comp (fun p => p) sha256_file (input_paths li) [] w4
           = (Ok (input_hashes li), w'))
  /\ sha256_json (PDict (config li)) = Ok (config_hash li)
  /\ w' = logs w (load_events w input_files config_file).
Proof.
  unfold load_validate_hash. destruct (str_strip version) as [|c v'] eqn:Ev;
    [discriminate|].
  intros Hrun.
  apply io_bind_inv in Hrun. destruct Hrun as (paths & w1 & Hres & Hrun).
  rewrite resolve_all in Hres. inversion Hres; subst paths w1; clear Hres.
  apply io_bind_inv in Hrun. destruct Hrun as ([] & w2 & Hval & Hrun).
  assert (input_files <> []
          /\ forallb (is_regular_file w) (map (resolve w) input_files) = true)
    as [Hne Hall].
  { destruct input_files as [|f fs0]; [discriminate|].
    split; [discriminate|].
    destruct (forallb (is_regular_file w) (map (resolve w) (f :: fs0)))
      eqn:E; auto.
    destruct (validate_paths_fail (map (resolve w) (f :: fs0))
                (logs w (map EvResolve (f :: fs0))))
      as (e & wf & Hfail & _).
    { right. rewrite regular_files_logs. exact E. }
    rewrite Hfail in Hval. discriminate. }
  rewrite validate_paths_ok in Hval.
  2:{ destruct input_files; [congruence | discriminate]. }
  2:{ rewrite regular_files_logs. exact Hall. }
  inversion Hval; subst w2; clear Hval.
  apply io_bind_inv in Hrun. destruct Hrun as (cfg_path & w3 & Hcp & Hrun).
  unfold Path_resolve in Hcp. inversion Hcp; subst cfg_path w3; clear Hcp.
  rewrite !resolve_logs in Hrun.
  apply io_bind_inv in Hrun. destruct Hrun as (cfg & w4 & Hcfg & Hrun).
  apply io_bind_inv in Hrun. destruct Hrun as (hashes & w5 & Hhash & Hrun).
  apply io_bind_inv in Hrun. destruct Hrun as (ch & w6 & Hch & Hrun).
  unfold io_lift in Hch. inversion Hch; subst w6.
  unfold io_ret in Hrun. inversion Hrun; subst li w'; clear Hrun. simpl.
  pose proof (load_config_Ok_inv _ _ _ _ Hcfg) as [Hw4 _].
  pose proof (hash_all_world _ _ _ _ _ Hhash) as Hw5.
  repeat split; auto; try discriminate.
  - exists (log (logs (logs w (map EvResolve input_files))
                      (stat_events (map (resolve w) input_files)))
                (EvResolve config_file)).
    split; [|rewrite Hcfg, Hw4; reflexivity].
    simpl. rewrite !fs_logs. reflexivity.
  - exists w4; split; [|exact Hhash].
    rewrite Hw4. rewrite fs_logs. simpl. rewrite !fs_logs. reflexivity.
  - rewrite Hw5, Hw4. unfold load_events.
    rewrite !logs_app, logs_cons, logs_app. reflexivity.
Qed.

(** X6. In a record returned by [load_validate_hash], the version is the
    argument stripped, it is not empty and has no whitespace left at
    either end; the config is the object parsed from the config file and
    passes the schema; the config hash is [sha256_json] of that config. *)
Theorem loaded_record_fields `{Runtime}
  (input_files : list pystr) (config_file version : pystr)
  (w w' : world) (li : LoadedInputs) :
  load_validate_hash input_files config_file version w = (Ok li, w') ->
  pipeline_version li = str_strip version
  /\ pipeline_version li <> []
  /\ str_strip (pipeline_version li) = pipeline_version li
  /\ valid_config (config li)
  /\ sha256_json (PDict (config li)) = Ok (config_hash li)
  /\ exists content raw,
       fs w (resolve w config_file) = Some (File true content)
       /\ decode_text content = Ok raw
       /\ json_loads raw = Some (PDict (config li)).
Proof.
  intros Hrun. apply load_validate_hash_inv in Hrun.
  destruct Hrun as (Hv & _ & _ & _ & Hpv & (w3 & Hfs3 & Hcfg) & _ & Hch & _).
  apply load_config_Ok_inv in Hcfg.
  destruct Hcfg as (_ & content & raw & Hfile & Hdec & Hparse & Hvalid).
  rewrite Hfs3 in Hfile.
  repeat split; auto.
  - rewrite Hpv; exact Hv.
  - rewrite Hpv. apply str_strip_idempotent.
  - apply Hvalid.
  - apply Hvalid.
  - eauto.
Qed.

Example loaded_record_fields_witness :
  exists li w',
    @load_validate_hash Sample.runtime [py "a.txt"] (py "seed_true.json")
      ([0x20] ++ py "v 2" ++ [0x0A]) Sample.w0 = (Ok li, w')
    /\ pipeline_version li = py "v 2"
    /\ @sha256_json Sample.runtime (PDict (config li)) = Ok (config_hash li).
Proof.
  assert (exists li w',
            @load_validate_hash Sample.runtime [py "a.txt"]
              (py "seed_true.json") ([0x20] ++ py "v 2" ++ [0x0A]) Sample.w0
            = (Ok li, w')) as Hrun.
  { vm_compute. eexists; eexists; reflexivity. }
  destruct Hrun as (li & w' & Hrun). exists li, w'.
  split; [exact Hrun|].
  destruct (@loaded_record_fields Sample.runtime _ _ _ _ _ _ Hrun)
    as (Hpv & _ & _ & _ & Hch & _).
  split; [rewrite Hpv; reflexivity | exact Hch].
Defined.

(** X7. A call of [load_validate_hash] that returns has done exactly this,
    in this order: resolved the input paths, tested each with [exists] and
    [is_file], resolved the config path, tested and read the config, and
    only then opened each input once, in the order given, to hash it. It
    has changed no file. *)
Theorem load_validate_hash_event_order `{Runtime}
  (input_files : list pystr) (config_file version : pystr)
  (w w' : world) (li : LoadedInputs) :
  load_validate_hash input_files config_file version w = (Ok li, w') ->
  trace w' = trace w ++ load_events w input_files config_file
  /\ fs w' = fs w
  /\ no_write (load_events w input_files config_file) = true.
Proof.
  intros Hrun. apply load_validate_hash_inv in Hrun.
  destruct Hrun as (_ & _ & _ & _ & _ & _ & _ & _ & ->).
  rewrite trace_logs, fs_logs. repeat split.
  unfold load_events, no_write, config_events, stat_events.
  rewrite !forallb_app. simpl.
  repeat (apply andb_true_iff; split); auto.
  - induction input_files; simpl; auto.
  - induction (map (resolve w) input_files); simpl; auto.
  - induction (map (resolve w) input_files); simpl; auto.
Qed.

Example load_validate_hash_event_order_witness :
  exists li w',
    @load_validate_hash Sample.runtime [py "b.txt"; py "a.txt"]
      (py "upper.json") (py "1.0") Sample.w0 = (Ok li, w')
    /\ trace w'
       = [EvResolve (py "b.txt"); EvResolve (py "a.txt");
          EvExists (py "/d/b.txt"); EvIsFile (py "/d/b.txt");
          EvExists (py "/d/a.txt"); EvIsFile (py "/d/a.txt");
          EvResolve (py "upper.json");
          EvExists (py "/d/upper.json"); EvIsFile (py "/d/upper.json");
          EvReadText (py "/d/upper.json");
          EvOpenRb (py "/d/b.txt"); EvOpenRb (py "/d/a.txt")].
Proof.
  assert (exists li w',
            @load_validate_hash Sample.runtime [py "b.txt"; py "a.txt"]
              (py "upper.json") (py "1.0") Sample.w0 = (Ok li, w')) as Hrun.
  { vm_compute. eexists; eexists; reflexivity. }
  destruct Hrun as (li & w' & Hrun). exists li, w'.
  split; [exact Hrun|].
  destruct (@load_validate_hash_event_order Sample.runtime _ _ _ _ _ _ Hrun)
    as (Htrace & _).
  rewrite Htrace. reflexivity.
Defined.

(** ** processing_layer *)

Lemma dict_comp_rmap {V W} (f : V -> result W) (xs : list (pystr * V)) :
  forall acc : dict W,
    NoDup (map fst acc ++ map fst xs) ->
    dict_comp fst (fun kv => f (snd kv)) xs acc
    = (r <- rmap_snd f xs ;; Ok (acc ++ r))%result.
Proof.
  induction xs as [|[k v] xs IH]; intros acc Hnd; simpl.
  - rewrite app_nil_r; reflexivity.
  - destruct (f v) as [o|e]; simpl; auto.
    rewrite dict_set_fresh.
    + rewrite IH.
      * destruct (rmap_snd f xs); simpl; auto.
        rewrite <- app_assoc; reflexivity.
      * rewrite map_app; simpl. rewrite <- app_assoc; exact Hnd.
    + apply NoDup_remove_2 in Hnd. intros Hin; apply Hnd.
      apply in_or_app; left; exact Hin.
Qed.

Lemma rmap_snd_Forall2 {K A B} (f : A -> result B) (d : list (K * A))
  (r : list (K * B)) :
  rmap_snd f d = Ok r
  <-> Forall2 (fun kx ks => fst kx = fst ks /\ f (snd kx) = Ok (snd ks)) d r.
Proof.
  revert r; induction d as [|[k x] d IH]; intros r; simpl.
  - split.
    + intros Hr; inversion Hr; constructor.
    + intros Hr; inversion Hr; reflexivity.
  - split.
    + destruct (f x) as [s|e] eqn:Efx; try discriminate.
      destruct (rmap_snd f d) as [r'|e]; try discriminate.
      intros Hr; inversion Hr; subst. constructor; [split; auto|].
      apply IH; reflexivity.
    + intros Hr. inversion Hr as [|? [k' s] ? r' [Hk Hf] Hrest]; subst.
      simpl in *. subst k'. rewrite Hf.
      apply IH in Hrest. rewrite Hrest. reflexivity.
Qed.

Lemma rmap_snd_first_error {K A B} (f : A -> result B)
  (good rest : list (K * A)) (k : K) (x : A) (e : exn) :
  (forall kx, In kx good -> exists s, f (snd kx) = Ok s) ->
  f x = Err e ->
  rmap_snd f (good ++ (k, x) :: rest) = Err e.
Proof.
  intros Hgood Hx. induction good as [|[k0 x0] good IH]; simpl.
  - rewrite Hx; reflexivity.
  - destruct (Hgood (k0, x0) (or_introl eq_refl)) as [s Hs]. simpl in Hs.
    rewrite Hs, IH; auto. intros kx Hin; apply Hgood; right; exact Hin.
Qed.

Lemma process_rmap `{Runtime} (raw : dict bytes) (params : dict pyval)
  (t : pyval) :
  dict_wf raw ->
  dict_get params (py "transform") = Some t ->
  dict_contains params (py "seed") = true ->
  process raw params
  = (r <- rmap_snd (fun data => _transform_bytes data t) raw ;;
     Ok {| items := r |})%result.
Proof.
  intros Hwf Ht Hs. unfold process, dict_getitem.
  rewrite (dict_get_contains _ _ _ Ht), Hs, Ht. cbn [negb rbind].
  unfold dict_items.
  rewrite (dict_comp_rmap (fun data => _transform_bytes data t) raw [])
    by exact Hwf.
  destruct (rmap_snd _ raw); reflexivity.
Qed.

(** X8. With both parameters present, [process] transforms the entries one
    by one and independently: it returns exactly when every payload
    transforms, the result then has the same keys in the same order, each
    bound to the transform of its own payload; otherwise it raises the
    exception of the first entry, in insertion order, that fails. *)
Theorem process_entrywise `{Runtime} (raw : dict bytes) (params : dict pyval)
  (t : pyval) :
  dict_wf raw ->
  dict_get params (py "transform") = Some t ->
  dict_contains params (py "seed") = true ->
  (forall a, process raw params = Ok a <-> Forall2 (transformed t) raw (items a))
  /\ (forall good k data rest e,
        raw = good ++ (k, data) :: rest ->
        (forall kv, In kv good -> exists out, _transform_bytes (snd kv) t = Ok out) ->
        _transform_bytes data t = Err e ->
        process raw params = Err e).
Proof.
  intros Hwf Ht Hs. rewrite (process_rmap raw params t Hwf Ht Hs). split.
  - intros [r]. simpl.
    destruct (rmap_snd_Forall2 (fun data => _transform_bytes data t) raw r)
      as [Hto Hfrom].
    split.
    + intros Hr. apply Hto.
      destruct (rmap_snd _ raw) as [r'|e]; simpl in Hr;
        [congruence | discriminate].
    + intros Hr. apply Hfrom in Hr. rewrite Hr. reflexivity.
  - intros good k data rest e -> Hgood He.
    rewrite (rmap_snd_first_error _ good rest k data e); auto.
Qed.

Example process_entrywise_witness :
  @process Sample.runtime
    [(py "a", pyb "ok"); (py "b", [Byte.xff]); (py "c", [Byte.xc0])]
    (Sample.params "lower" (PInt 0))
  = Err (Raise UnicodeDecodeError MsgRuntime)
  /\ @process Sample.runtime [(py "z", pyb "Ab"); (py "a", pyb "cD")]
       (Sample.params "lower" (PInt 0))
     = Ok {| items := [(py "z", pyb "ab"); (py "a", pyb "cd")] |}.
Proof.
  assert (forall a b : pystr, str_eqb a b = false -> NoDup [a; b]) as Hnd2.
  { intros a b Hab. apply str_eqb_neq in Hab. constructor.
    - simpl; intros [Heq|[]]; congruence.
    - constructor; [simpl; tauto | constructor]. }
  split.
  - refine (proj2 (@process_entrywise Sample.runtime
                     [(py "a", pyb "ok"); (py "b", [Byte.xff]);
                      (py "c", [Byte.xc0])]
                     (Sample.params "lower" (PInt 0)) (PStr (py "lower"))
                     _ eq_refl eq_refl)
              [(py "a", pyb "ok")] (py "b") [Byte.xff] [(py "c", [Byte.xc0])]
              _ eq_refl _ eq_refl).
    + unfold dict_wf; simpl. constructor.
      * simpl; intros [Heq|[Heq|[]]]; vm_compute in Heq; discriminate.
      * apply Hnd2; reflexivity.
    + intros kv [<-|[]]. eexists; reflexivity.
  - apply (proj1 (@process_entrywise Sample.runtime
                    [(py "z", pyb "Ab"); (py "a", pyb "cD")]
                    (Sample.params "lower" (PInt 0)) (PStr (py "lower"))
                    (Hnd2 (py "z") (py "a") eq_refl) eq_refl eq_refl)).
    repeat constructor.
Defined.

(** X9. [_transform_bytes] decodes before it looks at the transform name,
    and [process] only looks at it once per entry. So with a transform
    other than noop, upper, lower: an empty mapping is processed without
    error, and a non-empty one fails on its first entry, with
    [UnicodeDecodeError] when that payload is not UTF-8 and with the
    unsupported-transform [ValueError] otherwise. *)
Theorem process_unsupported_transform `{Runtime} (params : dict pyval)
  (t : pyval) (k : pystr) (data : bytes) (rest : dict bytes) :
  dict_get params (py "transform") = Some t ->
  dict_contains params (py "seed") = true ->
  supported t = false ->
  process [] params = Ok {| items := [] |}
  /\ process ((k, data) :: rest) params
     = match bytes_decode data with
       | Ok _ => Err (Raise ValueError MsgUnsupportedTransform)
       | Err e => Err e
       end.
Proof.
  intros Ht Hs Hsup. unfold supported in Hsup.
  apply orb_false_iff in Hsup. destruct Hsup as [Hsup Hlower].
  apply orb_false_iff in Hsup. destruct Hsup as [Hnoop Hupper].
  unfold process, dict_getitem.
  rewrite (dict_get_contains _ _ _ Ht), Hs, Ht. cbn [negb rbind].
  split; [reflexivity|].
  unfold dict_items. cbn [dict_comp snd]. unfold _transform_bytes.
  rewrite Hnoop, Hupper, Hlower.
  destruct (bytes_decode data); reflexivity.
Qed.

Example process_unsupported_transform_witness :
  @process Sample.runtime [] (Sample.params "mixed" (PInt 1))
  = Ok {| items := [] |}
  /\ @process Sample.runtime [(py "f", pyb "x")] (Sample.params "mixed" (PInt 1))
     = Err (Raise ValueError MsgUnsupportedTransform)
  /\ @process Sample.runtime [(py "f", [Byte.xff])]
       (Sample.params "mixed" (PInt 1))
     = Err (Raise UnicodeDecodeError MsgRuntime).
Proof.
  split; [|split].
  - exact (proj1 (@process_unsupported_transform Sample.runtime
                    (Sample.params "mixed" (PInt 1)) (PStr (py "mixed"))
                    [] [] [] eq_refl eq_refl eq_refl)).
  - exact (proj2 (@process_unsupported_transform Sample.runtime
                    (Sample.params "mixed" (PInt 1)) (PStr (py "mixed"))
                    (py "f") (pyb "x") [] eq_refl eq_refl eq_refl)).
  - exact (proj2 (@process_unsupported_transform Sample.runtime
                    (Sample.params "mixed" (PInt 1)) (PStr (py "mixed"))
                    (py "f") [Byte.xff] [] eq_refl eq_refl eq_refl)).
Defined.

Lemma to_N_byte_of_N (n : N) : n < 256 -> Byte.to_N (byte_of_N n) = n.
Proof.
  intros Hn. unfold byte_of_N. rewrite N.mod_small by exact Hn.
  destruct (Byte.of_N n) as [b|] eqn:E.
  - apply Byte.to_of_N; exact E.
  - apply Byte.of_N_None_iff in E. lia.
Qed.

Lemma byte_of_N_to_N (b : Byte.byte) : byte_of_N (Byte.to_N b) = b.
Proof.
  unfold byte_of_N. pose proof (Byte.to_N_bounded b).
  rewrite N.mod_small by lia. rewrite Byte.of_to_N. reflexivity.
Qed.

Lemma bytes_decode_ascii (data : bytes) :
  ascii_bytes data = true -> bytes_decode data = Ok (map Byte.to_N data).
Proof.
  induction data as [|b data IH]; simpl; auto.
  intros Hall. apply andb_true_iff in Hall. destruct Hall as [Hb Hall].
  rewrite Hb, (IH Hall). reflexivity.
Qed.

Lemma str_encode_ascii (s : pystr) :
  is_ascii_str s = true -> str_encode s = Ok (map byte_of_N s).
Proof.
  induction s as [|c s IH]; simpl; auto.
  intros Hall. apply andb_true_iff in Hall. destruct Hall as [Hc Hall].
  unfold utf8_encode_char. rewrite Hc, (IH Hall). reflexivity.
Qed.

Lemma ascii_upper_char_bound (c : N) : c < 0x80 -> ascii_upper_char c < 0x80.
Proof.
  unfold ascii_upper_char.
  destruct (N.leb_spec 0x61 c), (N.leb_spec c 0x7A); cbn [andb]; lia.
Qed.

Lemma ascii_lower_char_bound (c : N) : c < 0x80 -> ascii_lower_char c < 0x80.
Proof.
  unfold ascii_lower_char.
  destruct (N.leb_spec 0x41 c), (N.leb_spec c 0x5A); cbn [andb]; lia.
Qed.

Lemma ascii_upper_upper (c : N) :
  ascii_upper_char (ascii_upper_char c) = ascii_upper_char c.
Proof.
  unfold ascii_upper_char.
  destruct (N.leb_spec 0x61 c) as [H1|H1], (N.leb_spec c 0x7A) as [H2|H2];
    cbn [andb];
    destruct (N.leb_spec 0x61 (c - 0x20)), (N.leb_spec (c - 0x20) 0x7A);
    cbn [andb];
    repeat match goal with
           | |- context [?a <=? ?b] => destruct (N.leb_spec a b)
           end; cbn [andb]; lia.
Qed.

Lemma ascii_lower_upper (c : N) :
  ascii_lower_char (ascii_upper_char c) = ascii_lower_char c.
Proof.
  unfold ascii_upper_char, ascii_lower_char.
  destruct (N.leb_spec 0x61 c) as [H1|H1], (N.leb_spec c 0x7A) as [H2|H2];
    cbn [andb];
    repeat match goal with
           | |- context [?a <=? ?b] => destruct (N.leb_spec a b)
           end; cbn [andb]; lia.
Qed.

Lemma ascii_map_bound (f : N -> N) (data : bytes) :
  (forall c, c < 0x80 -> f c < 0x80) ->
  ascii_bytes data = true ->
  is_ascii_str (map f (map Byte.to_N data)) = true.
Proof.
  intros Hf. induction data as [|b data IH]; simpl; auto.
  intros Hall. apply andb_true_iff in Hall. destruct Hall as [Hb Hall].
  rewrite (IH Hall), andb_true_r.
  apply N.ltb_lt. apply Hf. apply N.ltb_lt. exact Hb.
Qed.

Lemma transform_upper_ascii `{Runtime} (data : bytes) :
  ascii_bytes data = true ->
  _transform_bytes data (PStr (py "upper")) = Ok (map upper_byte data).
Proof.
  intros Ha. unfold _transform_bytes.
  change (eq_str (PStr (py "upper")) (py "noop")) with false.
  change (eq_str (PStr (py "upper")) (py "upper")) with true.
  rewrite (bytes_decode_ascii data Ha). cbn [rbind]. unfold str_upper.
  assert (is_ascii_str (map Byte.to_N data) = true) as Hd.
  { rewrite <- (map_id (map Byte.to_N data)).
    apply ascii_map_bound; auto. }
  rewrite Hd.
  rewrite str_encode_ascii
    by (apply ascii_map_bound; auto using ascii_upper_char_bound).
  rewrite !map_map. reflexivity.
Qed.

Lemma transform_lower_ascii `{Runtime} (data : bytes) :
  ascii_bytes data = true ->
  _transform_bytes data (PStr (py "lower")) = Ok (map lower_byte data).
Proof.
  intros Ha. unfold _transform_bytes.
  change (eq_str (PStr (py "lower")) (py "noop")) with false.
  change (eq_str (PStr (py "lower")) (py "upper")) with false.
  change (eq_str (PStr (py "lower")) (py "lower")) with true.
  rewrite (bytes_decode_ascii data Ha). cbn [rbind]. unfold str_lower.
  assert (is_ascii_str (map Byte.to_N data) = true) as Hd.
  { rewrite <- (map_id (map Byte.to_N data)).
    apply ascii_map_bound; auto. }
  rewrite Hd.
  rewrite str_encode_ascii
    by (apply ascii_map_bound; auto using ascii_lower_char_bound).
  rewrite !map_map. reflexivity.
Qed.

Lemma upper_byte_ascii (data : bytes) :
  ascii_bytes data = true -> ascii_bytes (map upper_byte data) = true.
Proof.
  induction data as [|b data IH]; simpl; auto.
  intros Hall. apply andb_true_iff in Hall. destruct Hall as [Hb Hall].
  rewrite (IH Hall), andb_true_r. apply N.ltb_lt in Hb.
  pose proof (ascii_upper_char_bound _ Hb).
  unfold upper_byte. rewrite to_N_byte_of_N by lia. apply N.ltb_lt. lia.
Qed.

Lemma upper_byte_idempotent (b : Byte.byte) :
  Byte.to_N b < 0x80 -> upper_byte (upper_byte b) = upper_byte b.
Proof.
  intros Hb. pose proof (ascii_upper_char_bound _ Hb). unfold upper_byte.
  rewrite to_N_byte_of_N by lia. rewrite ascii_upper_upper. reflexivity.
Qed.

Lemma lower_upper_byte (b : Byte.byte) :
  Byte.to_N b < 0x80 -> lower_byte (upper_byte b) = lower_byte b.
Proof.
  intros Hb. pose proof (ascii_upper_char_bound _ Hb).
  unfold lower_byte, upper_byte.
  rewrite to_N_byte_of_N by lia. rewrite ascii_lower_upper. reflexivity.
Qed.

Lemma map_ascii_ext (f g : Byte.byte -> Byte.byte) (data : bytes) :
  (forall b, Byte.to_N b < 0x80 -> f b = g b) ->
  ascii_bytes data = true -> map f data = map g data.
Proof.
  intros Hfg. induction data as [|b data IH]; simpl; auto.
  intros Hall. apply andb_true_iff in Hall. destruct Hall as [Hb Hall].
  rewrite (IH Hall), Hfg; auto. apply N.ltb_lt; exact Hb.
Qed.

Lemma rmap_snd_total {K A B} (f : A -> result B) (g : A -> B)
  (d : list (K * A)) :
  Forall (fun kx => f (snd kx) = Ok (g (snd kx))) d ->
  rmap_snd f d = Ok (map (fun kx => (fst kx, g (snd kx))) d).
Proof.
  induction 1 as [|[k x] d Hx _ IH]; simpl; auto.
  simpl in Hx. rewrite Hx, IH. reflexivity.
Qed.

Lemma process_map_payloads `{Runtime} (raw : dict bytes)
  (params : dict pyval) (t : pyval) (g : bytes -> bytes) :
  dict_wf raw ->
  dict_get params (py "transform") = Some t ->
  dict_contains params (py "seed") = true ->
  Forall (fun kv => _transform_bytes (snd kv) t = Ok (g (snd kv))) raw ->
  process raw params
  = Ok {| items := map (fun kv => (fst kv, g (snd kv))) raw |}.
Proof.
  intros Hwf Ht Hs Hall. rewrite (process_rmap raw params t Hwf Ht Hs).
  rewrite (rmap_snd_total (fun data => _transform_bytes data t) g raw Hall).
  reflexivity.
Qed.

(** X10. On a mapping whose payloads are all ASCII, [transform=upper]
    maps every byte a-z to A-Z and leaves the others and the keys alone,
    and [transform=lower] does the converse; so lengths are kept,
    processing the upper-cased result with upper again changes nothing,
    and processing it with lower gives what lower gives on the original. *)
Theorem process_ascii_case `{Runtime} (raw : dict bytes)
  (p_upper p_lower : dict pyval) :
  dict_wf raw ->
  Forall (fun kv => ascii_bytes (snd kv) = true) raw ->
  dict_get p_upper (py "transform") = Some (PStr (py "upper")) ->
  dict_contains p_upper (py "seed") = true ->
  dict_get p_lower (py "transform") = Some (PStr (py "lower")) ->
  dict_contains p_lower (py "seed") = true ->
  process raw p_upper = Ok {| items := map_payloads upper_byte raw |}
  /\ process raw p_lower = Ok {| items := map_payloads lower_byte raw |}
  /\ process (map_payloads upper_byte raw) p_upper
     = Ok {| items := map_payloads upper_byte raw |}
  /\ process (map_payloads upper_byte raw) p_lower
     = Ok {| items := map_payloads lower_byte raw |}.
Proof.
  intros Hwf Hascii Hu Hus Hl Hls.
  assert (dict_wf (map_payloads upper_byte raw)) as Hwf'.
  { unfold dict_wf, map_payloads. rewrite map_map. simpl. exact Hwf. }
  assert (Forall (fun kv => ascii_bytes (snd kv) = true)
            (map_payloads upper_byte raw)) as Hascii'.
  { unfold map_payloads. apply Forall_map. simpl.
    eapply Forall_impl; [|exact Hascii]. intros kv; apply upper_byte_ascii. }
  unfold map_payloads in *. repeat split.
  - apply (process_map_payloads raw p_upper (PStr (py "upper")) (map upper_byte));
      auto.
    eapply Forall_impl; [|exact Hascii].
    intros kv; apply transform_upper_ascii.
  - apply (process_map_payloads raw p_lower (PStr (py "lower")) (map lower_byte));
      auto.
    eapply Forall_impl; [|exact Hascii].
    intros kv; apply transform_lower_ascii.
  - rewrite (process_map_payloads _ p_upper (PStr (py "upper")) (map upper_byte)
               Hwf' Hu Hus).
    + rewrite map_map. simpl. do 2 f_equal.
      apply map_ext_in. intros kv Hin. f_equal. rewrite map_map.
      rewrite Forall_forall in Hascii.
      apply (map_ascii_ext (fun b => upper_byte (upper_byte b)) upper_byte);
        auto using upper_byte_idempotent.
    + eapply Forall_impl; [|exact Hascii'].
      intros kv; apply transform_upper_ascii.
  - rewrite (process_map_payloads _ p_lower (PStr (py "lower")) (map lower_byte)
               Hwf' Hl Hls).
    + rewrite map_map. simpl. do 2 f_equal.
      apply map_ext_in. intros kv Hin. f_equal. rewrite map_map.
      rewrite Forall_forall in Hascii.
      apply (map_ascii_ext (fun b => lower_byte (upper_byte b)) lower_byte);
        auto using lower_upper_byte.
    + eapply Forall_impl; [|exact Hascii'].
      intros kv; apply transform_lower_ascii.
Qed.

Example process_ascii_case_witness :
  @process Sample.runtime [(py "f", pyb "MiXed 42!")]
    (Sample.params "upper" (PInt 1))
  = Ok {| items := [(py "f", pyb "MIXED 42!")] |}
  /\ @process Sample.runtime [(py "f", pyb "MIXED 42!")]
       (Sample.params "lower" (PInt 1))
     = Ok {| items := [(py "f", pyb "mixed 42!")] |}.
Proof.
  destruct (@process_ascii_case Sample.runtime [(py "f", pyb "MiXed 42!")]
              (Sample.params "upper" (PInt 1))
              (Sample.params "lower" (PInt 1)))
    as (Hup & _ & _ & Hlow); try reflexivity.
  - unfold dict_wf; simpl. constructor; [simpl; tauto | constructor].
  - constructor; [reflexivity | constructor].
  - split; [exact Hup | exact Hlow].
Defined.

(* ------------------------------------------------------------------ *)
(** ** utils.sha256_file: reading in chunks *)

Lemma read_n_length (size : N) (rest : bytes) :
  N.of_nat (List.length (read_n size rest)) <= size.
Proof.
  revert size; induction rest as [|b rest IH]; intros size; simpl; [lia|].
  destruct (N.eqb_spec size 0) as [E|E]; simpl; [lia|].
  specialize (IH (N.pred size)). lia.
Qed.

Lemma update_chunks_fed (size : N) (fuel : nat) :
  forall (rest : bytes) (h : SHA256.hasher),
    Forall (chunk_ok size) (SHA256.fed h) ->
    Forall (chunk_ok size) (SHA256.fed (update_chunks fuel size rest h)).
Proof.
  induction fuel as [|fuel IH]; intros rest h Hh; simpl; auto.
  destruct (read_n size rest) as [|b chunk] eqn:E; auto.
  apply IH. unfold SHA256.update; simpl.
  apply Forall_app; split; auto. constructor; [|constructor].
  split; [discriminate|]. rewrite <- E. apply read_n_length.
Qed.

(** X11. [sha256_file] on a readable regular file returns the SHA-256 of
    the whole content, as [sha256_bytes] computes it in one call, and
    records one open of the file. The digest does not depend on the chunk
    size: for every positive size the loop feeds the hasher chunks that
    are non-empty, at most that long, and concatenate to the content. *)
Theorem sha256_file_chunking (p : pystr) (w : world) (content : bytes) :
  fs w p = Some (File true content) ->
  sha256_file p w = (Ok (sha256_bytes content), log w (EvOpenRb p))
  /\ forall (size : N) (fuel : nat),
       size <> 0 -> (List.length content < fuel)%nat ->
       let h := update_chunks fuel size content SHA256.new in
       Forall (chunk_ok size) (SHA256.fed h)
       /\ List.concat (SHA256.fed h) = content
       /\ SHA256.hexdigest h = sha256_bytes content.
Proof.
  intros Hfile. split.
  - rewrite sha256_file_content. unfold file_bytes. rewrite Hfile.
    reflexivity.
  - intros size fuel Hsize Hfuel h.
    assert (List.concat (SHA256.fed h) = content) as Hcat.
    { unfold h. rewrite update_chunks_concat by assumption. reflexivity. }
    split; [|split]; auto.
    + apply update_chunks_fed. constructor.
    + unfold sha256_bytes, SHA256.hexdigest. rewrite Hcat.
      unfold SHA256.update, SHA256.new. simpl.
      rewrite app_nil_r. reflexivity.
Qed.

Example sha256_file_chunking_witness :
  sha256_file (py "/d/a.txt") Sample.w0
  = (Ok (sha256_bytes Sample.hello),
     log Sample.w0 (EvOpenRb (py "/d/a.txt"))).
Proof.
  apply (sha256_file_chunking (py "/d/a.txt") Sample.w0 Sample.hello).
  reflexivity.
Defined.

(** On a path that is missing, a directory or an unreadable file
    [sha256_file] raises [OSError], which is not a [PipelineError]. *)
Lemma sha256_file_unreadable (p : pystr) (w : world) :
  (forall content, fs w p <> Some (File true content)) ->
  exists e,
    sha256_file p w = (Err e, log w (EvOpenRb p))
    /\ exn_cls e = OSError
    /\ pipeline_error e = false.
Proof.
  intros Hno. exists (Raise OSError MsgRuntime).
  rewrite sha256_file_content. unfold file_bytes.
  destruct (fs w p) as [[|[|] content]|] eqn:E; auto.
  exfalso. exact (Hno content eq_refl).
Qed.

(* ------------------------------------------------------------------ *)
(** ** The form of the digests *)

Lemma round_length (st : list N) (kw : N * N) :
  List.length (SHA256.round st kw) = List.length st.
Proof.
  unfold SHA256.round.
  repeat (destruct st as [|? st]; try reflexivity).
Qed.

Lemma fold_round_length (kws : list (N * N)) :
  forall st, List.length (fold_left SHA256.round kws st) = List.length st.
Proof.
  induction kws as [|kw kws IH]; intros st; simpl; auto.
  rewrite IH. apply round_length.
Qed.

Lemma compress_length (hs blk : list N) :
  List.length (SHA256.compress hs blk) = List.length hs.
Proof.
  unfold SHA256.compress.
  rewrite length_map, length_combine, fold_round_length.
  apply Nat.min_id.
Qed.

Lemma fold_compress_length (blks : list (list N)) :
  forall hs,
    List.length (fold_left SHA256.compress blks hs) = List.length hs.
Proof.
  induction blks as [|blk blks IH]; intros hs; simpl; auto.
  rewrite IH. apply compress_length.
Qed.

Lemma be_bytes_length (k : nat) (n : N) :
  List.length (SHA256.be_bytes k n) = k.
Proof. induction k as [|k IH]; simpl; auto. Qed.

Lemma be_bytes_bound (k : nat) (n : N) :
  Forall (fun b => b < 256) (SHA256.be_bytes k n).
Proof.
  induction k as [|k IH]; simpl; constructor; auto.
  change 0xFF with (N.ones 8). rewrite N.land_ones.
  apply N.mod_lt. discriminate.
Qed.

Lemma digest_length (msg : bytes) :
  List.length (SHA256.digest msg) = 32%nat.
Proof.
  unfold SHA256.digest.
  set (hs := fold_left SHA256.compress _ SHA256.H0).
  assert (List.length hs = 8%nat) as Hlen
    by (unfold hs; rewrite fold_compress_length; reflexivity).
  clearbody hs.
  do 9 (destruct hs as [|? hs]; try discriminate Hlen).
  reflexivity.
Qed.

Lemma digest_bound (msg : bytes) :
  Forall (fun b => b < 256) (SHA256.digest msg).
Proof.
  unfold SHA256.digest.
  set (hs := fold_left SHA256.compress _ SHA256.H0). clearbody hs.
  induction hs as [|x hs IH]; cbn [flat_map]; [constructor|].
  apply Forall_app; split; [apply be_bytes_bound | exact IH].
Qed.

Lemma hex_digit_form (n : N) : n < 16 -> is_hex_lower (SHA256.hex_digit n) = true.
Proof.
  intros Hn. unfold SHA256.hex_digit, is_hex_lower.
  destruct (N.ltb_spec n 10).
  - apply orb_true_iff; left. apply andb_true_iff; split; apply N.leb_le; lia.
  - apply orb_true_iff; right. apply andb_true_iff; split; apply N.leb_le; lia.
Qed.

Lemma hex_form (bs : list N) :
  Forall (fun b => b < 256) bs ->
  List.length (SHA256.hex bs) = (2 * List.length bs)%nat
  /\ forallb is_hex_lower (SHA256.hex bs) = true.
Proof.
  induction 1 as [|b bs Hb _ [IHl IHf]]; [split; reflexivity|].
  change (SHA256.hex (b :: bs)) with
    (SHA256.hex_digit (N.shiftr b 4) :: SHA256.hex_digit (N.land b 0xF)
     :: SHA256.hex bs).
  cbn [List.length forallb]. split; [rewrite IHl; lia|].
  rewrite IHf, andb_true_r. apply andb_true_iff; split; apply hex_digit_form.
  - rewrite N.shiftr_div_pow2. apply N.Div0.div_lt_upper_bound.
    change (2 ^ 4 * 16) with 256. exact Hb.
  - change 0xF with (N.ones 4). rewrite N.land_ones.
    apply N.mod_lt. discriminate.
Qed.

Lemma hexdigest_form (h : SHA256.hasher) :
  hex_digest_form (SHA256.hexdigest h).
Proof.
  unfold SHA256.hexdigest, hex_digest_form.
  destruct (hex_form _ (digest_bound (List.concat (SHA256.fed h))))
    as [Hlen Hall].
  rewrite Hlen, digest_length. split; [reflexivity | exact Hall].
Qed.

(** X12. Every digest the pipeline computes has the form of a SHA-256
    [hexdigest()]: exactly 64 characters, each one of [0-9a-f].  This holds
    for [sha256_bytes] on any bytes, and for [sha256_json], [sha256_file]
    and [_compute_run_id] whenever they return. *)
Theorem digests_have_hex_form `{Runtime} :
  (forall data, hex_digest_form (sha256_bytes data))
  /\ (forall obj s, sha256_json obj = Ok s -> hex_digest_form s)
  /\ (forall p w s, fst (sha256_file p w) = Ok s -> hex_digest_form s)
  /\ (forall hashes cfg_hash version s,
        _compute_run_id hashes cfg_hash version = Ok s ->
        hex_digest_form s).
Proof.
  split; [|split; [|split]].
  - intros data. apply hexdigest_form.
  - intros obj s Hs. unfold sha256_json, rbind in Hs.
    destruct (canonical_json_dumps obj); [|discriminate].
    destruct (str_encode _); [|discriminate].
    injection Hs as <-. apply hexdigest_form.
  - intros p w s Hs. rewrite sha256_file_content in Hs. simpl in Hs.
    destruct (file_bytes w p); [|discriminate].
    injection Hs as <-. apply hexdigest_form.
  - intros hashes cfg_hash version s Hs.
    unfold _compute_run_id, rbind in Hs.
    destruct (run_id_hasher _ _ _); [|discriminate].
    injection Hs as <-. apply hexdigest_form.
Qed.

(* ------------------------------------------------------------------ *)
(** ** provenance_layer.build_provenance: the record *)

Lemma insert_sorted_ext {A} (lt1 lt2 : A -> A -> bool) (x : A) (l : list A) :
  (forall y, In y l -> lt1 y x = lt2 y x) ->
  insert_sorted lt1 x l = insert_sorted lt2 x l.
Proof.
  induction l as [|y l IH]; intros Hext; simpl; auto.
  rewrite (Hext y (or_introl eq_refl)).
  destruct (lt2 y x); auto. rewrite IH; auto.
  intros z Hz. apply Hext. right; exact Hz.
Qed.

(** With distinct keys, comparing [(path, hash)] tuples never gets to the
    hash: sorting the items is sorting by key. *)
Lemma sorted_items_by_key (d : dict pystr) :
  dict_wf d -> sorted pair_ltb d = sorted key_ltb d.
Proof.
  unfold dict_wf. induction d as [|[k v] d IH]; intros Hwf; simpl; auto.
  inversion Hwf as [|? ? Hk Hd]; subst. rewrite (IH Hd).
  apply insert_sorted_ext. intros [k' v'] Hin.
  apply sorted_In in Hin. unfold pair_ltb, key_ltb; simpl.
  destruct (str_eqb k' k) eqn:E; auto.
  apply str_eqb_eq in E; subst. exfalso. apply Hk.
  apply (in_map fst) in Hin. exact Hin.
Qed.

(** X13. When [build_provenance] returns a record for a mapping of input
    hashes with distinct keys, the record has the eight keys in the order of
    the source; its [inputs] list has one [path]/[sha256] entry for each
    input hash, in strictly increasing order of path, which is the order in
    which [_compute_run_id] feeds them; [run_id] is the value of
    [_compute_run_id]; the version, the config hash and the parameters are
    stored as given.  Whether it returns or raises, all it does to the
    world is read the clock and the platform. *)
Theorem build_provenance_record (hashes : dict pystr)
  (cfg_hash version : pystr) (params : dict pyval) (w w' : world)
  (prov : Provenance) :
  dict_wf hashes ->
  build_provenance hashes cfg_hash version params w = (Ok prov, w') ->
  let entries := sorted key_ltb hashes in
  dict_keys (data prov) = provenance_keys
  /\ dict_get (data prov) (py "inputs")
     = Some (PList (map input_record entries))
  /\ Permutation entries hashes
  /\ map fst entries = sorted str_ltb (dict_keys hashes)
  /\ StronglySorted str_lt (map fst entries)
  /\ (exists id, _compute_run_id hashes cfg_hash version = Ok id
        /\ dict_get (data prov) (py "run_id") = Some (PStr id))
  /\ dict_get (data prov) (py "pipeline_version") = Some (PStr version)
  /\ dict_get (data prov) (py "config_sha256") = Some (PStr cfg_hash)
  /\ dict_get (data prov) (py "parameters") = Some (PDict params)
  /\ w' = logs w [EvNow; EvPlatform].
Proof.
  intros Hwf Hrun entries.
  unfold build_provenance, io_bind, now_isoformat, platform_env, io_lift,
    io_ret in Hrun.
  destruct (_compute_run_id hashes cfg_hash version) as [id|e] eqn:Eid;
    [|discriminate].
  injection Hrun as <- <-.
  unfold dict_items. rewrite (sorted_items_by_key hashes Hwf).
  repeat split; try reflexivity.
  - apply sorted_perm.
  - apply sorted_keys.
  - unfold entries. rewrite sorted_keys. apply sorted_keys_strict. exact Hwf.
  - exists id. split; reflexivity.
Qed.

Example build_provenance_record_witness :
  exists prov,
    build_provenance
      [(py "/d/b.txt", py "16"); (py "/d/a.txt", py "a5")]
      (py "10") (py "1.0") [] Sample.w0
    = (Ok prov, logs Sample.w0 [EvNow; EvPlatform])
    /\ dict_get (data prov) (py "inputs")
       = Some (PList [input_record (py "/d/a.txt", py "a5");
                      input_record (py "/d/b.txt", py "16")]).
Proof.
  destruct (build_provenance
              [(py "/d/b.txt", py "16"); (py "/d/a.txt", py "a5")]
              (py "10") (py "1.0") [] Sample.w0) as [[prov|e] w'] eqn:E;
    [|vm_compute in E; discriminate].
  exists prov.
  assert (dict_wf [(py "/d/b.txt", py "16"); (py "/d/a.txt", py "a5")])
    as Hwf.
  { unfold dict_wf; simpl. constructor.
    - intros [E'|[]]. vm_compute in E'. discriminate.
    - constructor; [intros [] | constructor]. }
  destruct (build_provenance_record _ _ _ _ _ _ _ Hwf E)
    as (_ & Hin & _ & _ & _ & _ & _ & _ & _ & Hw).
  split; [rewrite Hw; reflexivity | exact Hin].
Defined.

(* ------------------------------------------------------------------ *)
(** ** run.py: the stages before the output *)

Lemma dict_contains_keys {V} (d : dict V) (k : pystr) :
  dict_contains d k = existsb (str_eqb k) (dict_keys d).
Proof.
  unfold dict_contains. induction d as [|[k' v] d IH]; simpl; auto.
  destruct (str_eqb k k'); simpl; auto.
Qed.

Lemma dict_keys_add {V} (d : dict V) (k : pystr) (v : V) :
  dict_keys (dict_set d k v) = add_key (dict_keys d) k.
Proof.
  rewrite dict_keys_set, dict_contains_keys. reflexivity.
Qed.

Lemma io_dict_comp_keys {X V} (key : X -> pystr) (val : X -> IO V)
  (xs : list X) :
  forall (acc d : dict V) (w w' : world),
    io_dict_comp key val xs acc w = (Ok d, w') ->
    dict_keys d = fold_left add_key (map key xs) (dict_keys acc).
Proof.
  induction xs as [|x xs IH]; intros acc d w w' Hrun; simpl in Hrun.
  - inversion Hrun; reflexivity.
  - apply io_bind_inv in Hrun. destruct Hrun as (v & w1 & _ & Hrest).
    rewrite (IH _ _ _ _ Hrest), dict_keys_add. reflexivity.
Qed.

Lemma read_all_inputs (paths : list pystr) :
  forall (acc d : dict bytes) (w w' : world),
    io_dict_comp (fun p => p) Path_read_bytes paths acc w = (Ok d, w') ->
    dict_wf acc ->
    dict_wf d
    /\ w' = logs w (map EvReadBytes paths)
    /\ (forall p c, dict_get d p = Some c ->
          dict_get acc p = Some c \/ fs w p = Some (File true c)).
Proof.
  induction paths as [|p paths IH]; intros acc d w w' Hrun Hwf;
    simpl in Hrun.
  - inversion Hrun; subst. auto.
  - unfold io_bind, Path_read_bytes in Hrun.
    destruct (file_bytes w p) as [content|e] eqn:Efile; [|discriminate].
    destruct (IH _ _ _ _ Hrun (dict_wf_set acc p content Hwf))
      as (Hwfd & Hw & Hval).
    assert (fs w p = Some (File true content)) as Hp.
    { unfold file_bytes in Efile.
      destruct (fs w p) as [[|[] c]|]; try discriminate.
      inversion Efile; reflexivity. }
    split; [exact Hwfd|]. split; [exact Hw|].
    intros q c Hq. destruct (Hval q c Hq) as [Hacc|Hfile].
    + rewrite dict_get_set in Hacc.
      destruct (str_eqb q p) eqn:E; auto.
      apply str_eqb_eq in E; subst q. inversion Hacc; subst. auto.
    + right. exact Hfile.
Qed.

Lemma build_provenance_world (hashes : dict pystr)
  (cfg_hash version : pystr) (params : dict pyval) (w : world) :
  snd (build_provenance hashes cfg_hash version params w)
  = logs w [EvNow; EvPlatform].
Proof.
  unfold build_provenance, io_bind, now_isoformat, platform_env, io_lift,
    io_ret.
  destruct (_compute_run_id hashes cfg_hash version); reflexivity.
Qed.

Lemma dict_get_key {V} (d : dict V) (k : pystr) :
  In k (dict_keys d) -> exists v, dict_get d k = Some v.
Proof.
  intros Hin. destruct (dict_get d k) as [v|] eqn:E; [eauto|].
  apply dict_get_None in E. contradiction.
Qed.

Lemma no_write_app (a b : list event) :
  no_write (a ++ b) = no_write a && no_write b.
Proof. unfold no_write. apply forallb_app. Qed.

Lemma no_write_load_events (w : world) (input_files : list pystr)
  (config_file : pystr) :
  no_write (load_events w input_files config_file) = true.
Proof.
  unfold load_events, no_write, config_events, stat_events.
  rewrite !forallb_app. simpl.
  repeat (apply andb_true_iff; split); auto.
  - induction input_files; simpl; auto.
  - induction (map (resolve w) input_files); simpl; auto.
  - induction (map (resolve w) input_files); simpl; auto.
Qed.

Lemma no_write_reads (paths : list pystr) :
  no_write (map EvReadBytes paths) = true.
Proof. induction paths; simpl; auto. Qed.

(** What a successful [run_stages] has computed, stage by stage. *)
Lemma run_stages_inv `{Runtime} (args : Args) (w w' : world)
  (li : LoadedInputs) (art : ProcessedArtifact) (prov : Provenance) :
  run_stages args w = (Ok (li, art, prov), w') ->
  exists raw t,
    input_paths li = map (resolve w) (arg_inputs args)
    /\ dict_get (config li) (py "transform") = Some (PStr t)
    /\ In t transforms
    /\ dict_wf (input_hashes li)
    /\ dict_wf raw
    /\ dict_keys (input_hashes li) = first_occurrences (input_paths li)
    /\ dict_keys raw = dict_keys (input_hashes li)
    /\ (forall p, In p (dict_keys (input_hashes li)) <-> In p (input_paths li))
    /\ (forall p h, dict_get (input_hashes li) p = Some h ->
          exists content,
            fs w p = Some (File true content) /\ h = sha256_bytes content)
    /\ (forall p c, dict_get raw p = Some c -> fs w p = Some (File true c))
    /\ rmap_snd (fun data => _transform_bytes data (PStr t)) raw
       = Ok (items art)
    /\ w' = logs w (run_events w args).
Proof.
  intros Hrun. unfold run_stages in Hrun.
  apply io_bind_inv in Hrun. destruct Hrun as (li0 & w1 & Hload & Hrun).
  apply io_bind_inv in Hrun. destruct Hrun as (raw & w2 & Hread & Hrun).
  apply io_bind_inv in Hrun. destruct Hrun as (art0 & w2' & Hproc & Hrun).
  apply io_bind_inv in Hrun. destruct Hrun as (prov0 & w3 & Hprov & Hrun).
  unfold io_ret in Hrun. inversion Hrun; subst li0 art0 prov0 w3. clear Hrun.
  unfold io_lift in Hproc. inversion Hproc as [[Hp Hw2]]. subst w2'.
  clear Hproc.
  destruct (load_validate_hash_inv _ _ _ _ _ _ Hload)
    as (_ & _ & _ & Hpaths & _ & (w3 & Hfs3 & Hcfg) & (w4 & Hfs4 & Hhash)
        & _ & Hw1).
  destruct (load_config_Ok_inv _ _ _ _ Hcfg)
    as (_ & _ & _ & _ & _ & _ & ((t & Ht & Hin) & (s & Hs & _))).
  destruct (hash_all_inputs _ _ _ _ _ Hhash (NoDup_nil _))
    as (Hwfh & _ & Hkeys & _ & Hval).
  unfold _read_inputs in Hread.
  destruct (read_all_inputs _ _ _ _ _ Hread (NoDup_nil _))
    as (Hwfr & Hw2 & Hraw).
  assert (fs w1 = fs w) as Hfs1 by (rewrite Hw1; apply fs_logs).
  rewrite (process_rmap raw (config li) (PStr t) Hwfr Ht
             (dict_get_contains _ _ _ Hs)) in Hp.
  destruct (rmap_snd (fun data => _transform_bytes data (PStr t)) raw)
    as [r|e] eqn:Er; [|discriminate].
  cbn [rbind] in Hp. injection Hp as Hart.
  exists raw, t. split; [exact Hpaths|]. split; [exact Ht|].
  split; [exact Hin|]. split; [exact Hwfh|]. split; [exact Hwfr|].
  split; [|split; [|split; [|split; [|split; [|split]]]]].
  - rewrite (io_dict_comp_keys _ _ _ _ _ _ _ Hhash), map_id. reflexivity.
  - rewrite (io_dict_comp_keys _ _ _ _ _ _ _ Hread).
    rewrite (io_dict_comp_keys _ _ _ _ _ _ _ Hhash). reflexivity.
  - intros p. rewrite Hkeys. simpl. tauto.
  - intros p h Hh. destruct (Hval p h Hh) as [Hnil|(content & Hfile & Hhc)];
      [discriminate|].
    exists content. rewrite <- Hfs4. auto.
  - intros p c Hc. destruct (Hraw p c Hc) as [Hnil|Hfile]; [discriminate|].
    rewrite <- Hfs1. exact Hfile.
  - rewrite Er, <- Hart. reflexivity.
  - pose proof (build_provenance_world (input_hashes li) (config_hash li)
                  (pipeline_version li) (config li) w2) as Hw3.
    rewrite Hprov in Hw3. cbn [snd] in Hw3. rewrite Hw3, Hw2, Hw1.
    unfold run_events. rewrite Hpaths, !logs_app. reflexivity.
Qed.

(** The artifact of an input the stages read is the transform of the
    content the file had when the run began. *)
Lemma run_stages_artifact `{Runtime} (w : world) (li : LoadedInputs)
  (art : ProcessedArtifact) (raw : dict bytes) (t : pystr) (p : pystr) :
  dict_wf raw ->
  dict_keys raw = dict_keys (input_hashes li) ->
  (forall q, In q (dict_keys (input_hashes li)) <-> In q (input_paths li)) ->
  (forall q c, dict_get raw q = Some c -> fs w q = Some (File true c)) ->
  rmap_snd (fun data => _transform_bytes data (PStr t)) raw = Ok (items art) ->
  In p (input_paths li) ->
  exists content out,
    fs w p = Some (File true content)
    /\ _transform_bytes content (PStr t) = Ok out
    /\ dict_get (items art) p = Some out.
Proof.
  intros Hwfr Hsame Hkeys Hraw Er Hp.
  destruct (rmap_snd_Ok _ _ _ Er) as (Hrk & Hrv).
  apply Hkeys in Hp. rewrite <- Hsame in Hp.
  destruct (dict_get_key _ _ Hp) as (c & Hc).
  destruct (rmap_snd_Ok_all _ _ _ Er p c (dict_get_Some_In _ _ _ Hc))
    as (out & Hout).
  exists c, out. split; [apply Hraw; exact Hc|]. split; [exact Hout|].
  apply dict_get_In.
  - unfold dict_wf. rewrite Hrk. exact Hwfr.
  - apply Hrv. exists c. split; [|exact Hout].
    apply dict_get_Some_In. exact Hc.
Qed.

(** X14. When the stages before the output succeed, the record, the
    artifacts and the hashes agree about the inputs: the artifacts have
    the keys of the input hashes, in the same order, which are the resolved
    input paths, each once; for every input path the recorded hash is the
    SHA-256 of the file's content, and the artifact is the configured
    transform of that same content.  The stages wrote nothing: the files
    are as before, and the events are those of loading, one read of each
    input, the clock and the platform. *)
Theorem run_stages_consistent `{Runtime} (args : Args) (w w' : world)
  (li : LoadedInputs) (art : ProcessedArtifact) (prov : Provenance) :
  run_stages args w = (Ok (li, art, prov), w') ->
  exists t,
    dict_get (config li) (py "transform") = Some (PStr t)
    /\ In t transforms
    /\ dict_keys (input_hashes li) = first_occurrences (input_paths li)
    /\ dict_keys (items art) = dict_keys (input_hashes li)
    /\ (forall p, In p (input_paths li) ->
          exists content out,
            fs w p = Some (File true content)
            /\ dict_get (input_hashes li) p = Some (sha256_bytes content)
            /\ _transform_bytes content (PStr t) = Ok out
            /\ dict_get (items art) p = Some out)
    /\ fs w' = fs w
    /\ trace w' = trace w ++ run_events w args
    /\ no_write (run_events w args) = true.
Proof.
  intros Hrun.
  destruct (run_stages_inv _ _ _ _ _ _ Hrun)
    as (raw & t & Hpaths & Ht & Hin & Hwfh & Hwfr & Hfirst & Hsame & Hkeys
        & Hval & Hraw & Er & Hw').
  exists t. split; [exact Ht|]. split; [exact Hin|]. split; [exact Hfirst|].
  split; [|split; [|split; [|split]]].
  - destruct (rmap_snd_Ok _ _ _ Er) as (Hrk & _).
    unfold dict_keys in *. rewrite Hrk. exact Hsame.
  - intros p Hp.
    destruct (run_stages_artifact w li art raw t p Hwfr Hsame Hkeys Hraw Er Hp)
      as (content & out & Hfile & Hout & Hget).
    exists content, out. repeat split; auto.
    destruct (dict_get_key _ _ (proj2 (Hkeys p) Hp)) as (h & Hh).
    destruct (Hval p h Hh) as (content' & Hfile' & ->).
    rewrite Hfile in Hfile'. injection Hfile' as <-. exact Hh.
  - rewrite Hw'. apply fs_logs.
  - rewrite Hw'. apply trace_logs.
  - unfold run_events.
    rewrite !no_write_app, no_write_load_events, no_write_reads.
    reflexivity.
Qed.

Example run_stages_consistent_witness :
  exists li art prov w',
    @run_stages Sample.runtime (Sample.args_of "a.txt" "upper.json") Sample.w0
    = (Ok (li, art, prov), w')
    /\ dict_keys (items art) = dict_keys (input_hashes li)
    /\ fs w' = fs Sample.w0.
Proof.
  assert (exists li art prov w',
            @run_stages Sample.runtime (Sample.args_of "a.txt" "upper.json")
              Sample.w0 = (Ok (li, art, prov), w')) as Hrun.
  { vm_compute. do 4 eexists; reflexivity. }
  destruct Hrun as (li & art & prov & w' & Hrun). exists li, art, prov, w'.
  split; [exact Hrun|].
  destruct (@run_stages_consistent Sample.runtime _ _ _ _ _ _ Hrun)
    as (t & _ & _ & _ & Hk & _ & Hfs & _).
  split; [exact Hk | exact Hfs].
Defined.

(* ------------------------------------------------------------------ *)
(** ** run.py: failures and the file system *)

Lemma read_only_ret {A} (a : A) : read_only (io_ret a).
Proof. intros w. exists []. split; reflexivity. Qed.

Lemma read_only_raise {A} (c : exn_class) (m : message) :
  read_only (@io_raise A c m).
Proof. intros w. exists []. split; reflexivity. Qed.

Lemma read_only_lift {A} (r : result A) : read_only (io_lift r).
Proof. intros w. exists []. split; reflexivity. Qed.

Lemma read_only_event {A} (m : IO A) (e : event) :
  writes e = false -> (forall w, snd (m w) = log w e) -> read_only m.
Proof.
  intros He Hm w. exists [e]. split; [apply Hm|].
  simpl. rewrite He. reflexivity.
Qed.

Lemma read_only_bind {A B} (m : IO A) (f : A -> IO B) :
  read_only m -> (forall a, read_only (f a)) -> read_only (io_bind m f).
Proof.
  intros Hm Hf w. destruct (Hm w) as (evs1 & Hw1 & Hn1). unfold io_bind.
  destruct (m w) as [[a|e] w1]; simpl in Hw1; subst w1.
  - destruct (Hf a (logs w evs1)) as (evs2 & Hw2 & Hn2).
    exists (evs1 ++ evs2).
    rewrite Hw2, logs_app, no_write_app, Hn1, Hn2. auto.
  - exists evs1. auto.
Qed.

Lemma read_only_for {X} (xs : list X) (body : X -> IO unit) :
  (forall x, read_only (body x)) -> read_only (io_for xs body).
Proof.
  intros Hb. induction xs as [|x xs IH]; simpl.
  - apply read_only_ret.
  - apply read_only_bind; auto.
Qed.

Lemma read_only_map {X Y} (f : X -> IO Y) (xs : list X) :
  (forall x, read_only (f x)) -> read_only (io_map f xs).
Proof.
  intros Hf. induction xs as [|x xs IH]; simpl.
  - apply read_only_ret.
  - apply read_only_bind; auto. intros y.
    apply read_only_bind; auto. intros ys. apply read_only_ret.
Qed.

Lemma read_only_dict_comp {X V} (key : X -> pystr) (val : X -> IO V)
  (xs : list X) :
  (forall x, read_only (val x)) ->
  forall acc, read_only (io_dict_comp key val xs acc).
Proof.
  intros Hv. induction xs as [|x xs IH]; intros acc; simpl.
  - apply read_only_ret.
  - apply read_only_bind; auto.
Qed.

Lemma read_only_check_path (p : pystr) : read_only (check_path p).
Proof.
  unfold check_path. apply read_only_bind.
  - apply (read_only_event _ (EvExists p)); reflexivity.
  - intros ex. destruct (negb ex); [apply read_only_raise|].
    apply read_only_bind.
    + apply (read_only_event _ (EvIsFile p)); reflexivity.
    + intros isf. destruct (negb isf);
        [apply read_only_raise | apply read_only_ret].
Qed.

Lemma read_only_validate_paths (paths : list pystr) :
  read_only (_validate_paths paths).
Proof.
  destruct paths as [|p paths]; [apply read_only_raise|].
  apply (read_only_for (p :: paths) check_path). apply read_only_check_path.
Qed.

Lemma read_only_read_and_parse `{Runtime} (p : pystr) :
  read_only (read_and_parse p).
Proof.
  apply (read_only_event _ (EvReadText p)); [reflexivity|].
  intros w. unfold read_and_parse, Path_read_text.
  destruct (rbind (file_bytes w p) decode_text) as [raw|e]; [|reflexivity].
  destruct (json_loads raw); reflexivity.
Qed.

Lemma read_only_load_config `{Runtime} (p : pystr) :
  read_only (_load_config p).
Proof.
  unfold _load_config. apply read_only_bind.
  - apply (read_only_event _ (EvExists p)); reflexivity.
  - intros ex. destruct (negb ex); [apply read_only_raise|].
    apply read_only_bind.
    + apply (read_only_event _ (EvIsFile p)); reflexivity.
    + intros isf. destruct (negb isf); [apply read_only_raise|].
      apply read_only_bind; [apply read_only_read_and_parse|].
      intros cfg. apply read_only_lift.
Qed.

Lemma read_only_load_validate_hash `{Runtime}
  (input_files : list pystr) (config_file version : pystr) :
  read_only (load_validate_hash input_files config_file version).
Proof.
  unfold load_validate_hash.
  destruct (str_strip version) as [|c v']; [apply read_only_raise|].
  apply read_only_bind.
  { apply read_only_map. intros s.
    apply (read_only_event _ (EvResolve s)); reflexivity. }
  intros paths. apply read_only_bind; [apply read_only_validate_paths|].
  intros _. apply read_only_bind.
  { apply (read_only_event _ (EvResolve config_file)); reflexivity. }
  intros cfg_path. apply read_only_bind; [apply read_only_load_config|].
  intros cfg. apply read_only_bind.
  { apply read_only_dict_comp. intros q.
    apply (read_only_event _ (EvOpenRb q)); reflexivity. }
  intros hashes. apply read_only_bind; [apply read_only_lift|].
  intros cfg_hash. apply read_only_ret.
Qed.

Lemma read_only_build_provenance (hashes : dict pystr)
  (cfg_hash version : pystr) (params : dict pyval) :
  read_only (build_provenance hashes cfg_hash version params).
Proof.
  intros w. exists [EvNow; EvPlatform].
  split; [apply build_provenance_world | reflexivity].
Qed.

Lemma read_only_run_stages `{Runtime} (args : Args) :
  read_only (run_stages args).
Proof.
  unfold run_stages.
  apply read_only_bind; [apply read_only_load_validate_hash|].
  intros loaded. apply read_only_bind.
  { unfold _read_inputs. apply read_only_dict_comp. intros p.
    apply (read_only_event _ (EvReadBytes p)); reflexivity. }
  intros raw. apply read_only_bind; [apply read_only_lift|].
  intros processed.
  apply read_only_bind; [apply read_only_build_provenance|].
  intros provenance. apply read_only_ret.
Qed.

(** X15. The stages before the output never write: whatever they return,
    they made no directory and wrote no file, and the files are as before.
    So when one of them fails, [main] ends with status 2 for a pipeline
    error and 3 for any other, after one line on the standard error, and
    the output directory has not been touched. *)
Theorem failure_before_output_writes_nothing `{Runtime} (args : Args)
  (w : world) :
  (exists evs,
     snd (run_stages args w) = logs w evs /\ no_write evs = true)
  /\ fs (snd (run_stages args w)) = fs w
  /\ forall e,
       fst (run_stages args w) = Err e ->
       main args w
       = (if pipeline_error e then 2%Z else 3%Z,
          log (snd (run_stages args w))
            (EvStderr (negb (pipeline_error e)) e))
       /\ fs (snd (main args w)) = fs w.
Proof.
  destruct (read_only_run_stages args w) as (evs & Hw & Hn).
  split; [exists evs; auto|].
  split; [rewrite Hw; apply fs_logs|].
  intros e He.
  assert (main args w
          = (if pipeline_error e then 2%Z else 3%Z,
             log (snd (run_stages args w))
               (EvStderr (negb (pipeline_error e)) e))) as Hmain.
  { unfold main, main_body, io_bind.
    destruct (run_stages args w) as [[r|e'] w1]; simpl in He;
      [discriminate|].
    injection He as ->. unfold pipeline_error. simpl.
    destruct (isinstance_exn e PipelineError); reflexivity. }
  split; [exact Hmain|].
  rewrite Hmain. simpl. rewrite Hw. apply fs_logs.
Qed.

Example failure_before_output_writes_nothing_witness :
  @main Sample.runtime (Sample.args_of "bin" "upper.json") Sample.w0
  = (3%Z,
     log (snd (@run_stages Sample.runtime
                 (Sample.args_of "bin" "upper.json") Sample.w0))
       (EvStderr true (Raise UnicodeDecodeError MsgRuntime)))
  /\ fs (snd (@main Sample.runtime (Sample.args_of "bin" "upper.json")
                Sample.w0))
     = fs Sample.w0.
Proof.
  apply (proj2 (proj2 (@failure_before_output_writes_nothing Sample.runtime
                         (Sample.args_of "bin" "upper.json") Sample.w0))
           (Raise UnicodeDecodeError MsgRuntime)).
  vm_compute. reflexivity.
Defined.

Lemma sha256_json_foreign `{Runtime} (v : pyval) : foreign (sha256_json v).
Proof.
  unfold sha256_json, canonical_json_dumps.
  apply foreign_rbind; [apply json_encode_foreign|].
  intros s. apply foreign_rbind; [apply str_encode_foreign|].
  intros b. exact I.
Qed.

Lemma sha256_file_foreign (p : pystr) : io_foreign (sha256_file p).
Proof.
  intros w. rewrite sha256_file_content. simpl.
  pose proof (file_bytes_foreign w p) as Hf.
  destruct (file_bytes w p); [exact I | exact Hf].
Qed.

Lemma no_input_read_config (p : pystr) (n : nat) :
  no_input_read (firstn n (config_events p)) = true.
Proof. destruct n as [|[|[|[|n]]]]; reflexivity. Qed.

(** A pipeline error of [load_validate_hash] comes before any input is
    opened. *)
Lemma load_pipeline_error_events `{Runtime}
  (input_files : list pystr) (config_file version : pystr)
  (w w' : world) (e : exn) :
  load_validate_hash input_files config_file version w = (Err e, w') ->
  pipeline_error e = true ->
  exists evs, w' = logs w evs /\ no_input_read evs = true.
Proof.
  unfold load_validate_hash. destruct (str_strip version) as [|c v'].
  - intros Hrun _. inversion Hrun; subst. exists []. auto.
  - rewrite (io_bind_Ok _ _ _ _ _ (resolve_all input_files w)).
    destruct (validate_paths_outcome (map (resolve w) input_files)
                (logs w (map EvResolve input_files)))
      as (r & evs & Hrun & Hno & _).
    rewrite <- logs_app in Hrun.
    destruct r as [[]|e1].
    + rewrite (io_bind_Ok _ _ _ _ _ Hrun).
      unfold io_bind at 1. unfold Path_resolve at 1.
      rewrite resolve_logs.
      change (log (logs w ?a) ?ev) with (logs (logs w a) [ev]).
      rewrite <- logs_app.
      set (w2 := logs w _). set (cfg_path := resolve w config_file).
      destruct (load_config_outcome cfg_path w2) as (_ & n & Hw3).
      destruct (_load_config cfg_path w2) as [[cfg|e2] w3] eqn:Ecfg;
        simpl in Hw3; subst w3.
      * rewrite (io_bind_Ok _ _ _ _ _ Ecfg). intros Hrest Hpe. exfalso.
        assert (io_foreign
                  (hashes <- io_dict_comp (fun p => p) sha256_file
                               (map (resolve w) input_files) [] ;;
                   cfg_hash <- io_lift (sha256_json (PDict cfg)) ;;
                   io_ret {| input_paths := map (resolve w) input_files;
                             input_hashes := hashes;
                             config := cfg;
                             config_hash := cfg_hash;
                             pipeline_version := c :: v' |})%io) as Hf.
        { apply io_foreign_bind.
          - apply io_foreign_dict_comp. apply sha256_file_foreign.
          - intros hashes. apply io_foreign_bind.
            + apply io_foreign_lift. apply sha256_json_foreign.
            + intros cfg_hash. apply io_foreign_ret. }
        specialize (Hf (logs w2 (firstn n (config_events cfg_path)))).
        rewrite Hrest in Hf. simpl in Hf. congruence.
      * rewrite (io_bind_Err _ _ _ _ _ Ecfg). intros Hrest _.
        inversion Hrest; subst. unfold w2. rewrite <- logs_app.
        eexists; split; [reflexivity|].
        rewrite !no_input_read_app, no_input_read_resolve, Hno,
          no_input_read_config.
        reflexivity.
    + rewrite (io_bind_Err _ _ _ _ _ Hrun). intros Hrest _.
      inversion Hrest; subst. eexists; split; [reflexivity|].
      rewrite no_input_read_app, no_input_read_resolve, Hno; reflexivity.
Qed.

(** X16. Status 2 means the run was refused while loading: [main] returns
    2 exactly when [load_validate_hash] raised a pipeline error, and then
    no input file was opened or read (at most the config was read),
    nothing was written, and the one line on the standard error is the
    last thing the run did. *)
Theorem exit_2_before_any_input_is_read `{Runtime} (args : Args) (w : world) :
  let load :=
    load_validate_hash (arg_inputs args) (arg_config args) (arg_version args)
  in
  fst (main args w) = 2%Z
  <-> exists e evs,
        load w = (Err e, logs w evs)
        /\ pipeline_error e = true
        /\ no_input_read evs = true
        /\ no_write evs = true
        /\ snd (main args w) = logs w (evs ++ [EvStderr false e]).
Proof.
  intros load. unfold main. rewrite main_body_after_load. unfold io_bind.
  fold load. split.
  - destruct (load w) as [[li|e] w1] eqn:El.
    + pose proof (after_load_foreign args li w1) as Hf.
      destruct (after_load args li w1) as [[u|e] w2]; simpl in *;
        [discriminate|].
      unfold pipeline_error in Hf. rewrite Hf. discriminate.
    + destruct (isinstance_exn e PipelineError) eqn:Ep; [|discriminate].
      intros _.
      destruct (load_pipeline_error_events _ _ _ _ _ _ El Ep)
        as (evs & Hw1 & Hno).
      destruct (read_only_load_validate_hash (arg_inputs args)
                  (arg_config args) (arg_version args) w)
        as (evs' & Hw1' & Hnw).
      fold load in Hw1'. rewrite El in Hw1'. simpl in Hw1'.
      assert (evs' = evs) as -> by (apply (logs_inj w); congruence).
      exists e, evs. subst w1. repeat split; auto.
      simpl. rewrite logs_app. reflexivity.
  - intros (e & evs & Hl & Hpe & _). rewrite Hl.
    unfold pipeline_error in Hpe. rewrite Hpe. reflexivity.
Qed.

Example exit_2_before_any_input_is_read_witness :
  exists e evs,
    @load_validate_hash Sample.runtime [py "a.txt"] (py "mixed.json")
      (py "1.0") Sample.w0 = (Err e, logs Sample.w0 evs)
    /\ pipeline_error e = true
    /\ no_input_read evs = true
    /\ no_write evs = true
    /\ snd (@main Sample.runtime (Sample.args_of "a.txt" "mixed.json")
              Sample.w0)
       = logs Sample.w0 (evs ++ [EvStderr false e]).
Proof.
  apply (proj1 (@exit_2_before_any_input_is_read Sample.runtime
                  (Sample.args_of "a.txt" "mixed.json") Sample.w0)).
  vm_compute. reflexivity.
Defined.

(* ------------------------------------------------------------------ *)
(** ** output_layer.write_outputs *)

Lemma mkdir_p_preserves (fuel : nat) :
  forall (f f' : pystr -> option node) (p : pystr),
    mkdir_p fuel f p = Ok f' ->
    forall q n, f q = Some n -> f' q = Some n.
Proof.
  induction fuel as [|fuel IH]; intros f f' p Hrun q n Hq; simpl in Hrun.
  - destruct (f p) as [[|r c]|] eqn:Ep; try discriminate.
    + inversion Hrun; subst; exact Hq.
    + destruct (f (path_parent p)) as [[|r c]|]; try discriminate.
      inversion Hrun; subst. unfold fs_set.
      destruct (str_eqb q p) eqn:E; auto.
      apply str_eqb_eq in E; subst. congruence.
  - destruct (f p) as [[|r c]|] eqn:Ep; try discriminate.
    + inversion Hrun; subst; exact Hq.
    + destruct (f (path_parent p)) as [[|r c]|]; try discriminate.
      * inversion Hrun; subst. unfold fs_set.
        destruct (str_eqb q p) eqn:E; auto.
        apply str_eqb_eq in E; subst. congruence.
      * destruct (str_eqb (path_parent p) p); try discriminate.
        destruct (mkdir_p fuel f (path_parent p)) as [f1|e] eqn:Epar;
          try discriminate.
        destruct (f1 (path_parent p)) as [[|r c]|]; try discriminate.
        inversion Hrun; subst. unfold fs_set.
        destruct (str_eqb q p) eqn:E.
        -- apply str_eqb_eq in E; subst. congruence.
        -- eapply IH; eauto.
Qed.

Lemma Path_mkdir_Ok (p : pystr) (w w' : world) :
  Path_mkdir p w = (Ok tt, w') ->
  trace w' = trace w ++ [EvMkdir p]
  /\ resolve w' = resolve w
  /\ forall q n, fs w q = Some n -> fs w' q = Some n.
Proof.
  unfold Path_mkdir.
  destruct (mkdir_p (List.length p) (fs w) p) as [f'|e] eqn:E;
    [|discriminate].
  intros Hrun; inversion Hrun; subst; simpl. repeat split; auto.
  intros q n. apply (mkdir_p_preserves _ _ _ _ E).
Qed.

Lemma write_file_Ok (w : world) (p : pystr) (content : bytes)
  (f' : pystr -> option node) :
  write_file w p content = Ok f' ->
  f' = fs_set (fs w) p (File true content).
Proof.
  unfold write_file.
  destruct (fs w (path_parent p)) as [[|r c]|]; try discriminate;
    destruct (fs w p) as [[|r' c']|]; try discriminate;
    intros Hrun; inversion Hrun; reflexivity.
Qed.

Lemma Path_write_bytes_Ok (p : pystr) (content : bytes) (w w' : world) :
  Path_write_bytes p content w = (Ok tt, w') ->
  trace w' = trace w ++ [EvWriteBytes p]
  /\ fs w' = fs_set (fs w) p (File true content).
Proof.
  unfold Path_write_bytes.
  destruct (write_file w p content) as [f'|e] eqn:E; [|discriminate].
  intros Hrun; inversion Hrun; subst; simpl.
  split; [reflexivity | apply (write_file_Ok _ _ _ _ E)].
Qed.

Lemma Path_write_text_Ok (p text : pystr) (w w' : world) :
  Path_write_text p text w = (Ok tt, w') ->
  exists b,
    str_encode text = Ok b
    /\ trace w' = trace w ++ [EvWriteText p]
    /\ fs w' = fs_set (fs w) p (File true b).
Proof.
  unfold Path_write_text.
  destruct (str_encode text) as [b|e] eqn:Eb; simpl; [|discriminate].
  destruct (write_file w p b) as [f'|e] eqn:E; [|discriminate].
  intros Hrun; inversion Hrun; subst; simpl.
  exists b. repeat split; auto. apply (write_file_Ok _ _ _ _ E).
Qed.

Lemma write_artifacts_effect (dir : pystr) (entries : list (pystr * bytes)) :
  forall (written written' : dict pystr) (w w' : world),
    write_artifacts dir entries written w = (Ok written', w') ->
    written' = written_artifacts dir entries written
    /\ trace w' = trace w
                  ++ map (fun e => EvWriteBytes (artifact_file dir (fst e)))
                       entries
    /\ forall q,
         fs w' q = match last_write dir q entries with
                   | Some c => Some (File true c)
                   | None => fs w q
                   end.
Proof.
  induction entries as [|[p c] entries IH]; intros written written' w w' Hrun;
    simpl in Hrun.
  - inversion Hrun; subst. simpl. rewrite app_nil_r. auto.
  - apply io_bind_inv in Hrun. destruct Hrun as ([] & w1 & Hwrite & Hrest).
    apply Path_write_bytes_Ok in Hwrite. destruct Hwrite as (Ht1 & Hf1).
    destruct (IH _ _ _ _ Hrest) as (Hwr & Ht & Hf).
    split; [exact Hwr|]. split.
    + rewrite Ht, Ht1, <- app_assoc. reflexivity.
    + intros q. rewrite Hf. simpl.
      destruct (last_write dir q entries); auto.
      rewrite Hf1. unfold fs_set, artifact_file.
      destruct (str_eqb q _); reflexivity.
Qed.

(** What a successful [write_outputs] has done, step by step; [f3] is the
    file system after the two directories were made. *)
Lemma write_outputs_inv `{Runtime} (out_dir : pystr)
  (processed : ProcessedArtifact) (provenance : Provenance)
  (written : dict pystr) (w w' : world) :
  write_outputs out_dir processed provenance w = (Ok written, w') ->
  let out_path := resolve w out_dir in
  let dir := path_join out_path (py "artifacts") in
  let prov_file := path_join out_path (py "provenance.json") in
  let entries := sorted key_ltb (items processed) in
  exists text b f3,
    json_encode pretty_opts 0 (PDict (data provenance)) = Ok text
    /\ str_encode text = Ok b
    /\ (forall q n, fs w q = Some n -> f3 q = Some n)
    /\ (forall q,
          fs w' q
          = if str_eqb q prov_file then Some (File true b)
            else match last_write dir q entries with
                 | Some c => Some (File true c)
                 | None => f3 q
                 end)
    /\ trace w'
       = trace w
         ++ [EvResolve out_dir; EvMkdir out_path; EvMkdir dir]
         ++ map (fun e => EvWriteBytes (artifact_file dir (fst e))) entries
         ++ [EvWriteText prov_file]
    /\ written
       = dict_set (written_artifacts dir entries []) (py "provenance")
           prov_file.
Proof.
  intros Hrun out_path dir prov_file entries. unfold write_outputs in Hrun.
  unfold io_bind at 1 in Hrun. unfold Path_resolve at 1 in Hrun.
  fold out_path in Hrun.
  apply io_bind_inv in Hrun. destruct Hrun as ([] & w2 & Hmk1 & Hrun).
  apply io_bind_inv in Hrun. destruct Hrun as ([] & w3 & Hmk2 & Hrun).
  apply io_bind_inv in Hrun. destruct Hrun as (wr & w4 & Hloop & Hrun).
  apply io_bind_inv in Hrun. destruct Hrun as (text & w4' & Henc & Hrun).
  apply io_bind_inv in Hrun. destruct Hrun as ([] & w5 & Htext & Hrun).
  unfold io_ret in Hrun. inversion Hrun; subst written w5. clear Hrun.
  unfold io_lift in Henc. inversion Henc as [[Htxt Hw4]]. subst w4'.
  clear Henc.
  apply Path_mkdir_Ok in Hmk1. destruct Hmk1 as (Ht2 & _ & Hf2).
  apply Path_mkdir_Ok in Hmk2. destruct Hmk2 as (Ht3 & _ & Hf3).
  apply write_artifacts_effect in Hloop. destruct Hloop as (Hwr & Ht4 & Hf4).
  apply Path_write_text_Ok in Htext.
  destruct Htext as (b & Hb & Ht5 & Hf5).
  fold dir in Ht3, Hf3, Ht4, Hf4, Hwr. fold prov_file in Ht5, Hf5.
  unfold dict_items in *. fold entries in Ht4, Hf4, Hwr.
  exists text, b, (fs w3).
  split; [exact Htxt|]. split; [exact Hb|].
  split; [|split; [|split]].
  - intros q n Hn. apply Hf3, Hf2. exact Hn.
  - intros q. rewrite Hf5. unfold fs_set.
    destruct (str_eqb q prov_file); [reflexivity|]. apply Hf4.
  - rewrite Ht5, Ht4, Ht3, Ht2. simpl. rewrite <- !app_assoc. reflexivity.
  - rewrite Hwr. reflexivity.
Qed.

(** X17. When [write_outputs] returns: it resolved the directory, made it
    and [artifacts] under it, wrote one file per artifact in increasing
    order of input path and [provenance.json] last.  The artifact of an
    input goes to [artifacts/<name>.processed], where the name is
    [Path(input).name] ([path_name]), so of two inputs with one name the
    later in that order is the one left on disk.
    [provenance.json] holds the record as indented JSON with sorted keys,
    in UTF-8.  Every other file or directory that existed is still there,
    unchanged, and the returned mapping sends each input path to its file
    and [provenance] to the record's. *)
Theorem write_outputs_effect `{Runtime} (out_dir : pystr)
  (processed : ProcessedArtifact) (provenance : Provenance)
  (written : dict pystr) (w w' : world) :
  write_outputs out_dir processed provenance w = (Ok written, w') ->
  let out_path := resolve w out_dir in
  let dir := path_join out_path (py "artifacts") in
  let prov_file := path_join out_path (py "provenance.json") in
  let entries := sorted key_ltb (items processed) in
  trace w'
  = trace w
    ++ [EvResolve out_dir; EvMkdir out_path; EvMkdir dir]
    ++ map (fun e => EvWriteBytes (artifact_file dir (fst e))) entries
    ++ [EvWriteText prov_file]
  /\ (exists text b,
        json_encode pretty_opts 0 (PDict (data provenance)) = Ok text
        /\ str_encode text = Ok b
        /\ fs w' prov_file = Some (File true b))
  /\ (forall q c, q <> prov_file -> last_write dir q entries = Some c ->
        fs w' q = Some (File true c))
  /\ (forall q n, q <> prov_file -> last_write dir q entries = None ->
        fs w q = Some n -> fs w' q = Some n)
  /\ written
     = dict_set (written_artifacts dir entries []) (py "provenance") prov_file.
Proof.
  intros Hrun out_path dir prov_file entries.
  destruct (write_outputs_inv _ _ _ _ _ _ Hrun)
    as (text & b & f3 & Htxt & Hb & Hkeep & Hfs & Htrace & Hwr).
  fold out_path dir prov_file entries in Hfs, Htrace, Hwr.
  split; [exact Htrace|]. split; [|split; [|split]].
  - exists text, b. repeat split; auto.
    rewrite Hfs, str_eqb_refl. reflexivity.
  - intros q c Hq Hlast. rewrite Hfs, Hlast.
    destruct (str_eqb q prov_file) eqn:E; [|reflexivity].
    apply str_eqb_eq in E. contradiction.
  - intros q n Hq Hlast Hn. rewrite Hfs, Hlast.
    destruct (str_eqb q prov_file) eqn:E; [|apply Hkeep; exact Hn].
    apply str_eqb_eq in E. contradiction.
  - exact Hwr.
Qed.

Example write_outputs_effect_witness :
  path_name (py "/x/a.txt/") = py "a.txt"
  /\ path_name (py "/x/.") = py "x"
  /\ path_name (py "/") = []
  /\ exists written w',
       @write_outputs Sample.runtime (py "out")
         {| items := [(py "/y/a.txt/", pyb "two");
                      (py "/x/./a.txt", pyb "one")] |}
         {| data := [(py "run_id", PStr (py "0"))] |} Sample.w0
       = (Ok written, w')
       /\ fs w' (py "/d/out/artifacts/a.txt.processed")
          = Some (File true (pyb "two"))
       /\ dict_get written (py "/x/./a.txt")
          = Some (py "/d/out/artifacts/a.txt.processed")
       /\ dict_get written (py "/y/a.txt/")
          = Some (py "/d/out/artifacts/a.txt.processed").
Proof.
  do 3 (split; [vm_compute; reflexivity|]).
  assert (exists written w',
            @write_outputs Sample.runtime (py "out")
              {| items := [(py "/y/a.txt/", pyb "two");
                           (py "/x/./a.txt", pyb "one")] |}
              {| data := [(py "run_id", PStr (py "0"))] |} Sample.w0
            = (Ok written, w')) as Hrun.
  { vm_compute. do 2 eexists; reflexivity. }
  destruct Hrun as (written & w' & Hrun). exists written, w'.
  split; [exact Hrun|].
  destruct (@write_outputs_effect Sample.runtime _ _ _ _ _ _ Hrun)
    as (_ & _ & Hlast & _ & Hwr).
  split; [|rewrite Hwr; split; vm_compute; reflexivity].
  apply Hlast; [|vm_compute; reflexivity].
  intros E. vm_compute in E. discriminate.
Defined.

(* ------------------------------------------------------------------ *)
(** ** utils.sha256_json: what it raises *)

Lemma utf8_encode_char_Some (c : N) :
  (exists bs, utf8_encode_char c = Some bs)
  <-> negb (is_surrogate c) && (c <? 0x110000) = true.
Proof.
  unfold utf8_encode_char, is_surrogate.
  destruct (N.ltb_spec c 0x80), (N.ltb_spec c 0x800),
    (N.leb_spec 0xD800 c), (N.leb_spec c 0xDFFF),
    (N.ltb_spec c 0x10000), (N.ltb_spec c 0x110000);
    cbn [andb negb]; try lia;
    (split;
     [ intros [bs Hbs]; first [reflexivity | discriminate]
     | intros Ht; first [discriminate | eauto] ]).
Qed.

Lemma str_encode_encodable (s : pystr) :
  match str_encode s with
  | Ok _ => encodable s = true
  | Err e => encodable s = false /\ e = Raise UnicodeEncodeError MsgRuntime
  end.
Proof.
  induction s as [|c s IH]; simpl; auto.
  pose proof (utf8_encode_char_Some c) as Hc.
  destruct (utf8_encode_char c) as [bs|].
  - rewrite (proj1 Hc) by eauto. simpl.
    destruct (str_encode s); auto.
  - split; [|reflexivity].
    destruct (negb (is_surrogate c) && (c <? 0x110000)); auto.
    destruct (proj2 Hc eq_refl) as [bs Hbs]. discriminate.
Qed.

Lemma encodable_app (a b : pystr) :
  encodable (a ++ b) = encodable a && encodable b.
Proof. apply forallb_app. Qed.

Lemma json_string_surrogate (s : pystr) :
  existsb is_surrogate s = true -> encodable (json_string false s) = false.
Proof.
  intros Hs. unfold json_string. rewrite !encodable_app.
  apply andb_false_iff; right. apply andb_false_iff; left.
  induction s as [|c s IH]; simpl in *; [discriminate|].
  rewrite encodable_app.
  destruct (is_surrogate c) eqn:Ec.
  - apply andb_false_iff; left. unfold json_escape_char.
    unfold is_surrogate in Ec. apply andb_true_iff in Ec.
    destruct Ec as [Hlo Hhi]. apply N.leb_le in Hlo.
    repeat match goal with
           | |- context [?a =? ?b] =>
               destruct (N.eqb_spec a b); [lia|]
           end.
    destruct (N.ltb_spec c 0x20); [lia|]. simpl.
    unfold is_surrogate. apply N.leb_le in Hlo. rewrite Hlo, Hhi.
    reflexivity.
  - apply andb_false_iff; right. apply IH. exact Hs.
Qed.

(* ------------------------------------------------------------------ *)
(** ** input_layer.load_validate_hash: failures after validation *)

Lemma file_bytes_readable (w : world) (p : pystr) :
  match file_bytes w p with
  | Ok _ => is_readable w p = true
  | Err e => is_readable w p = false /\ e = Raise OSError MsgRuntime
  end.
Proof.
  unfold file_bytes, is_readable.
  destruct (fs w p) as [[|[|] c]|]; simpl; auto.
Qed.

Lemma readable_logs (w : world) (evs : list event) (l : list pystr) :
  forallb (is_readable (logs w evs)) l = forallb (is_readable w) l.
Proof.
  induction l as [|p l IH]; simpl; auto.
  rewrite IH. unfold is_readable. rewrite fs_logs; reflexivity.
Qed.

Lemma hash_all_outcome (paths : list pystr) :
  forall (acc : dict pystr) (w : world),
    match fst (io_dict_comp (fun p => p) sha256_file paths acc w) with
    | Ok _ => forallb (is_readable w) paths = true
    | Err e =>
        forallb (is_readable w) paths = false
        /\ e = Raise OSError MsgRuntime
    end.
Proof.
  induction paths as [|p paths IH]; intros acc w; simpl; auto.
  unfold io_bind. rewrite sha256_file_content.
  pose proof (file_bytes_readable w p) as Hp.
  destruct (file_bytes w p) as [content|e].
  - rewrite Hp. simpl.
    apply (IH (dict_set acc p (sha256_bytes content)) (log w (EvOpenRb p))).
  - destruct Hp as [-> ->]. simpl. auto.
Qed.

Lemma main_load_error `{Runtime} (args : Args) (w w1 : world) (e : exn) :
  load_validate_hash (arg_inputs args) (arg_config args) (arg_version args) w
  = (Err e, w1) ->
  main args w
  = (if pipeline_error e then 2%Z else 3%Z,
     log w1 (EvStderr (negb (pipeline_error e)) e)).
Proof.
  intros Hl. unfold main. rewrite main_body_after_load.
  rewrite (io_bind_Err _ _ _ _ _ Hl). unfold pipeline_error.
  destruct (isinstance_exn e PipelineError); reflexivity.
Qed.

(** X19. Once the version, the input paths and the config have passed
    their checks, [load_validate_hash] can still fail, in two ways, and
    neither is a pipeline error, so [main] ends with status 3: an input
    that is a regular file but cannot be read raises [OSError] when it is
    hashed, and a config whose canonical JSON cannot be hashed (a string
    with a lone surrogate, say) raises what [sha256_json] raises.
    Otherwise the call returns, with the accepted config and its hash. *)
Theorem load_failures_after_validation `{Runtime} (args : Args) (w : world)
  (content : bytes) (raw : pystr) (d : dict pyval) :
  let paths := map (resolve w) (arg_inputs args) in
  str_strip (arg_version args) <> [] ->
  arg_inputs args <> [] ->
  forallb (is_regular_file w) paths = true ->
  fs w (resolve w (arg_config args)) = Some (File true content) ->
  decode_text content = Ok raw ->
  json_loads raw = Some (PDict d) ->
  valid_config d ->
  match fst (load_validate_hash (arg_inputs args) (arg_config args)
               (arg_version args) w) with
  | Ok li =>
      forallb (is_readable w) paths = true
      /\ config li = d
      /\ sha256_json (PDict d) = Ok (config_hash li)
  | Err e =>
      pipeline_error e = false
      /\ fst (main args w) = 3%Z
      /\ ((forallb (is_readable w) paths = false
           /\ e = Raise OSError MsgRuntime)
          \/ (forallb (is_readable w) paths = true
              /\ sha256_json (PDict d) = Err e))
  end.
Proof.
  intros paths Hv Hne Hall Hfs Hdec Hparse Hvalid.
  assert (forall e w1,
            load_validate_hash (arg_inputs args) (arg_config args)
              (arg_version args) w = (Err e, w1) ->
            pipeline_error e = false -> fst (main args w) = 3%Z) as Hmain.
  { intros e w1 Hl Hpe. rewrite (main_load_error args w w1 e Hl), Hpe.
    reflexivity. }
  destruct (load_validate_hash (arg_inputs args) (arg_config args)
              (arg_version args) w) as [r w'] eqn:Hload.
  specialize (fun e => Hmain e w').
  unfold load_validate_hash in Hload.
  destruct (str_strip (arg_version args)) as [|c v']; [congruence|].
  rewrite (io_bind_Ok _ _ _ _ _ (resolve_all (arg_inputs args) w)) in Hload.
  fold paths in Hload.
  assert (_validate_paths paths (logs w (map EvResolve (arg_inputs args)))
          = (Ok tt, logs w (map EvResolve (arg_inputs args)
                            ++ stat_events paths))) as Hrun.
  { rewrite logs_app. apply validate_paths_ok.
    - unfold paths. destruct (arg_inputs args); simpl; congruence.
    - rewrite regular_files_logs; exact Hall. }
  rewrite (io_bind_Ok _ _ _ _ _ Hrun) in Hload.
  unfold io_bind at 1 in Hload. unfold Path_resolve at 1 in Hload.
  rewrite resolve_logs in Hload.
  change (log (logs w ?a) ?ev) with (logs (logs w a) [ev]) in Hload.
  rewrite <- logs_app in Hload.
  set (w2 := logs w _) in Hload.
  assert (fs w2 (resolve w (arg_config args)) = Some (File true content))
    as Hfs2 by (unfold w2; rewrite fs_logs; exact Hfs).
  assert (_load_config (resolve w (arg_config args)) w2
          = (Ok d, logs w2 (config_events (resolve w (arg_config args)))))
    as Hcfg.
  { rewrite (load_config_run _ w2 content raw (PDict d) Hfs2 Hdec Hparse).
    rewrite (proj2 (validate_config_Ok (PDict d) d) (conj eq_refl Hvalid)).
    reflexivity. }
  rewrite (io_bind_Ok _ _ _ _ _ Hcfg) in Hload.
  set (w3 := logs w2 _) in Hload.
  unfold io_bind at 1 in Hload. unfold io_ret in Hload.
  pose proof (hash_all_outcome paths [] w3) as Hhash.
  assert (forallb (is_readable w3) paths = forallb (is_readable w) paths)
    as Hsame.
  { unfold w3, w2. rewrite !readable_logs. reflexivity. }
  destruct (io_dict_comp (fun p => p) sha256_file paths [] w3)
    as [[hashes|e] w4]; simpl in Hhash.
  - unfold io_bind at 1, io_lift at 1 in Hload.
    pose proof (sha256_json_foreign (PDict d)) as Hf.
    destruct (sha256_json (PDict d)) as [h|e] eqn:Ej.
    + inversion Hload; subst. simpl. rewrite <- Hsame. auto.
    + inversion Hload; subst. simpl. simpl in Hf.
      split; [exact Hf|]. split; [apply (Hmain e eq_refl Hf)|].
      right. rewrite <- Hsame. auto.
  - inversion Hload; subst. simpl. destruct Hhash as [Hno ->].
    split; [reflexivity|]. split; [apply (Hmain _ eq_refl eq_refl)|].
    left. rewrite <- Hsame. auto.
Qed.

Example load_failures_after_validation_witness :
  fst (@load_validate_hash SurrogateSample.runtime
         (arg_inputs SurrogateSample.args) (arg_config SurrogateSample.args)
         (arg_version SurrogateSample.args) SurrogateSample.w)
  = Err (Raise UnicodeEncodeError MsgRuntime)
  /\ fst (@main SurrogateSample.runtime SurrogateSample.args
            SurrogateSample.w) = 3%Z.
Proof.
  assert (valid_config SurrogateSample.cfg) as Hvalid.
  { split.
    - exists (py "noop"). split; [reflexivity|]. right; right; left.
      reflexivity.
    - exists (PInt 1). split; reflexivity. }
  pose proof (@load_failures_after_validation SurrogateSample.runtime
                SurrogateSample.args SurrogateSample.w
                SurrogateSample.content SurrogateSample.text
                SurrogateSample.cfg) as Hthm.
  cbv zeta in Hthm.
  specialize (Hthm ltac:(vm_compute; discriminate)
                   ltac:(vm_compute; discriminate)
                   ltac:(vm_compute; reflexivity)
                   ltac:(vm_compute; reflexivity)
                   ltac:(vm_compute; reflexivity)
                   ltac:(vm_compute; reflexivity)
                   Hvalid).
  assert (fst (@load_validate_hash SurrogateSample.runtime
                 (arg_inputs SurrogateSample.args)
                 (arg_config SurrogateSample.args)
                 (arg_version SurrogateSample.args) SurrogateSample.w)
          = Err (Raise UnicodeEncodeError MsgRuntime)) as Hload
    by (vm_compute; reflexivity).
  rewrite Hload in Hthm. split; [reflexivity|]. apply Hthm.
Defined.

Example digests_have_hex_form_witness :
  exists s,
    @sha256_json Sample.runtime Sample.cfg_upper = Ok s
    /\ hex_digest_form s.
Proof.
  destruct (@sha256_json Sample.runtime Sample.cfg_upper) as [s|e] eqn:E;
    [|vm_compute in E; discriminate].
  exists s. split; [reflexivity|].
  apply (proj1 (proj2 (@digests_have_hex_form Sample.runtime)) _ _ E).
Defined.

(* ------------------------------------------------------------------ *)
(** ** run.py: what a successful run leaves on disk *)

Lemma path_join_sep (p : pystr) :
  exists sep, forall x, path_join p x = p ++ sep ++ x.
Proof.
  unfold path_join. destruct (rev p) as [|c r] eqn:E.
  - apply (f_equal (@rev N)) in E. rewrite rev_involutive in E. subst p.
    exists []. reflexivity.
  - destruct (c =? slash); [exists [] | exists [slash]]; reflexivity.
Qed.

Lemma path_join_inj (p a b : pystr) :
  path_join p a = path_join p b -> a = b.
Proof.
  destruct (path_join_sep p) as [sep Hsep]. rewrite !Hsep.
  intros E. apply app_inv_head in E. apply app_inv_head in E. exact E.
Qed.

Lemma artifact_file_name (dir p q : pystr) :
  artifact_file dir q = artifact_file dir p -> path_name q = path_name p.
Proof.
  unfold artifact_file. intros E. apply path_join_inj in E.
  apply app_inv_tail in E. exact E.
Qed.

Lemma artifact_not_provenance (out p : pystr) :
  artifact_file (path_join out (py "artifacts")) p
  <> path_join out (py "provenance.json").
Proof.
  unfold artifact_file.
  destruct (path_join_sep out) as [sep Hsep]. rewrite !Hsep.
  destruct (path_join_sep (out ++ sep ++ py "artifacts")) as [sep' Hsep'].
  rewrite Hsep'. rewrite <- !app_assoc. intros E.
  apply app_inv_head in E. apply app_inv_head in E.
  vm_compute in E. discriminate.
Qed.

Lemma last_write_Some (dir q : pystr) (entries : list (pystr * bytes))
  (c : bytes) :
  last_write dir q entries = Some c ->
  exists p, In (p, c) entries /\ q = artifact_file dir p.
Proof.
  induction entries as [|[p0 c0] entries IH]; simpl; [discriminate|].
  destruct (last_write dir q entries) as [c'|].
  - intros E; injection E as ->. destruct (IH eq_refl) as (p & Hin & Hq).
    exists p. auto.
  - destruct (str_eqb q (artifact_file dir p0)) eqn:Eq; [|discriminate].
    intros E; injection E as ->. apply str_eqb_eq in Eq.
    exists p0. auto.
Qed.

Lemma last_write_hit (dir p : pystr) (c : bytes)
  (entries : list (pystr * bytes)) :
  In (p, c) entries ->
  exists c', last_write dir (artifact_file dir p) entries = Some c'.
Proof.
  induction entries as [|[p0 c0] entries IH]; simpl; [tauto|].
  intros [E|Hin].
  - injection E as -> ->.
    destruct (last_write dir (artifact_file dir p) entries); [eauto|].
    rewrite str_eqb_refl. eauto.
  - destruct (IH Hin) as [c' ->]. eauto.
Qed.

(** X20. When [main] returns 0, for every input the file
    [<out>/artifacts/<base name>.processed] exists and holds the configured
    transform of the content an input with that base name had when the run
    began (the input itself, unless another input shares its base name),
    and [<out>/provenance.json] holds the provenance record of the run as
    indented JSON in UTF-8.  The last thing the run did is print the
    success line. *)
Theorem successful_run_outputs `{Runtime} (args : Args) (w : world) :
  fst (main args w) = 0%Z ->
  let w' := snd (main args w) in
  let paths := map (resolve w) (arg_inputs args) in
  let out_path := resolve w (arg_out args) in
  let dir := path_join out_path (py "artifacts") in
  exists li art prov t,
    fst (run_stages args w) = Ok (li, art, prov)
    /\ dict_get (config li) (py "transform") = Some (PStr t)
    /\ (forall p, In p paths ->
          exists q content out,
            In q paths /\ path_name q = path_name p
            /\ fs w q = Some (File true content)
            /\ _transform_bytes content (PStr t) = Ok out
            /\ fs w' (artifact_file dir p) = Some (File true out))
    /\ (exists text b,
          json_encode pretty_opts 0 (PDict (data prov)) = Ok text
          /\ str_encode text = Ok b
          /\ fs w' (path_join out_path (py "provenance.json"))
             = Some (File true b))
    /\ exists evs, trace w' = trace w ++ evs ++ [EvStdout].
Proof.
  intros Hmain w' paths out_path dir. unfold w'. clear w'.
  unfold main in *.
  destruct (main_body args w) as [[u|e] w''] eqn:Hbody;
    [|destruct (isinstance_exn e PipelineError); discriminate].
  cbn [snd]. clear Hmain. unfold main_body in Hbody.
  apply io_bind_inv in Hbody.
  destruct Hbody as ([[li art] prov] & w1 & Hrun & Hbody).
  apply io_bind_inv in Hbody. destruct Hbody as (written & w2 & Hout & Hlog).
  unfold io_log in Hlog. inversion Hlog; subst w''. clear Hlog.
  destruct (run_stages_inv _ _ _ _ _ _ Hrun)
    as (raw & t & Hpaths & Ht & Hin & Hwfh & Hwfr & Hfirst & Hsame & Hkeys
        & Hval & Hraw & Er & Hw1).
  destruct (write_outputs_inv _ _ _ _ _ _ Hout)
    as (text & b & f3 & Htxt & Hb & Hkeep & Hfs & Htrace & Hwr).
  assert (resolve w1 = resolve w) as Hres
    by (rewrite Hw1; apply resolve_logs).
  rewrite Hres in Hfs, Htrace. fold out_path dir in Hfs, Htrace.
  destruct (rmap_snd_Ok _ _ _ Er) as (Hrk & Hrv).
  assert (dict_wf (items art)) as Hwfa
    by (unfold dict_wf; rewrite Hrk; exact Hwfr).
  exists li, art, prov, t. rewrite Hrun.
  split; [reflexivity|]. split; [exact Ht|]. split; [|split].
  - intros p Hp. unfold paths in Hp. rewrite <- Hpaths in Hp.
    destruct (run_stages_artifact w li art raw t p Hwfr Hsame Hkeys Hraw Er Hp)
      as (content & out & _ & _ & Hget).
    assert (In (p, out) (sorted key_ltb (items art))) as Hentry
      by (apply sorted_In, dict_get_Some_In; exact Hget).
    destruct (last_write_hit dir p out _ Hentry) as (c' & Hlast).
    destruct (last_write_Some _ _ _ _ Hlast) as (q & Hq & Hfile).
    apply sorted_In in Hq.
    assert (In q (input_paths li)) as Hqin.
    { apply Hkeys. rewrite <- Hsame. unfold dict_keys. rewrite <- Hrk.
      apply (in_map fst) in Hq. exact Hq. }
    destruct (run_stages_artifact w li art raw t q Hwfr Hsame Hkeys Hraw Er
                Hqin)
      as (content_q & out_q & Hfs_q & Hout_q & Hget_q).
    rewrite (dict_get_In _ _ _ Hwfa Hq) in Hget_q. injection Hget_q as <-.
    exists q, content_q, c'. unfold paths. rewrite <- Hpaths.
    split; [exact Hqin|].
    split; [apply (artifact_file_name dir); symmetry; exact Hfile|].
    split; [exact Hfs_q|]. split; [exact Hout_q|].
    change (fs (log w2 EvStdout)) with (fs w2). rewrite Hfs, Hlast.
    destruct (str_eqb (artifact_file dir p)
                (path_join out_path (py "provenance.json"))) eqn:E;
      [|reflexivity].
    apply str_eqb_eq in E. exfalso.
    exact (artifact_not_provenance out_path p E).
  - exists text, b. split; [exact Htxt|]. split; [exact Hb|].
    change (fs (log w2 EvStdout)) with (fs w2).
    rewrite Hfs, str_eqb_refl. reflexivity.
  - exists (run_events w args
            ++ [EvResolve (arg_out args); EvMkdir out_path; EvMkdir dir]
            ++ map (fun e => EvWriteBytes (artifact_file dir (fst e)))
                 (sorted key_ltb (items art))
            ++ [EvWriteText (path_join out_path (py "provenance.json"))]).
    change (trace (log w2 EvStdout)) with (trace w2 ++ [EvStdout]).
    rewrite Htrace, Hw1, trace_logs. rewrite <- !app_assoc. reflexivity.
Qed.

Example successful_run_outputs_witness :
  exists content out,
    fs Sample.w0 (py "/d/a.txt") = Some (File true content)
    /\ @_transform_bytes Sample.runtime content (PStr (py "upper")) = Ok out
    /\ fs (snd (@main Sample.runtime (Sample.args_of "a.txt" "upper.json")
                  Sample.w0))
         (py "/out/artifacts/a.txt.processed")
       = Some (File true out).
Proof.
  destruct (@successful_run_outputs Sample.runtime
              (Sample.args_of "a.txt" "upper.json") Sample.w0)
    as (li & art & prov & t & Hrun & Ht & Hfiles & _);
    [vm_compute; reflexivity|].
  assert (t = py "upper") as ->.
  { vm_compute in Hrun. injection Hrun as <- _ _. vm_compute in Ht.
    injection Ht as <-. reflexivity. }
  destruct (Hfiles (py "/d/a.txt")) as (q & content & out & Hq & _ & Hfs
                                          & Hout & Hw');
    [left; reflexivity|].
  destruct Hq as [<-|[]].
  exists content, out. split; [exact Hfs|]. split; [exact Hout|].
  exact Hw'.
Defined.

(* ================================================================== *)
(** * [json.dumps] on an arbitrary object *)
(* ================================================================== *)

Lemma rmap_Ok_all {A B} (f : A -> result B) (l : list A) (r : list B) :
  rmap f l = Ok r -> forall x, In x l -> exists s, f x = Ok s.
Proof.
  revert r; induction l as [|y l IH]; intros r Hr x Hx; simpl in *;
    [contradiction|].
  destruct (f y) as [s|e] eqn:Ey; [|discriminate].
  destruct (rmap f l) as [r'|e]; [|discriminate].
  destruct Hx as [<-|Hx]; [eauto | eapply IH; eauto].
Qed.

Lemma rmap_Err_some {A B} (f : A -> result B) (l : list A) (e : exn) :
  rmap f l = Err e -> exists x, In x l /\ f x = Err e.
Proof.
  induction l as [|y l IH]; simpl; [discriminate|].
  destruct (f y) as [s|e'] eqn:Ey.
  - destruct (rmap f l) as [r'|e'']; [discriminate|].
    intros E; injection E as ->. destruct (IH eq_refl) as (x & Hx & Hfx).
    exists x. auto.
  - intros E; injection E as ->. exists y. auto.
Qed.

Lemma existsb_false {A} (f : A -> bool) (l : list A) :
  (forall x, In x l -> f x = false) -> existsb f l = false.
Proof.
  intros Hall. destruct (existsb f l) eqn:E; [|reflexivity].
  apply existsb_exists in E. destruct E as (x & Hx & Hfx).
  rewrite (Hall x Hx) in Hfx. discriminate.
Qed.

Lemma existsb_true {A} (f : A -> bool) (l : list A) (x : A) :
  In x l -> f x = true -> existsb f l = true.
Proof. intros Hx Hfx. apply existsb_exists. eauto. Qed.

Lemma list_max_ge (l : list nat) (n : nat) :
  In n l -> (n <= list_max l)%nat.
Proof.
  intros Hn. pose proof (proj1 (list_max_le l (list_max l)) (le_n _)) as Hall.
  rewrite Forall_forall in Hall. apply Hall. exact Hn.
Qed.

(** ** The sort with a comparison that may raise *)

Lemma insert_r_In {A} (lt : A -> A -> result bool) (x : A) (l s : list A) :
  Obj.insert_r lt x l = Ok s -> forall y, In y s <-> y = x \/ In y l.
Proof.
  revert s; induction l as [|z l IH]; intros s Hs y; simpl in Hs.
  - injection Hs as <-. simpl. intuition.
  - destruct (lt z x) as [[|]|e]; try discriminate.
    + destruct (Obj.insert_r lt x l) as [r|e]; [|discriminate].
      injection Hs as <-. simpl. rewrite (IH r eq_refl). intuition.
    + injection Hs as <-. simpl. intuition.
Qed.

Lemma sorted_r_In {A} (lt : A -> A -> result bool) (l s : list A) :
  Obj.sorted_r lt l = Ok s -> forall y, In y s <-> In y l.
Proof.
  revert s; induction l as [|x l IH]; intros s Hs y; simpl in Hs.
  - injection Hs as <-. reflexivity.
  - destruct (Obj.sorted_r lt l) as [s'|e]; [|discriminate].
    rewrite (insert_r_In lt x s' s Hs), (IH s' eq_refl). simpl. intuition.
Qed.

Lemma insert_r_error {A} (lt : A -> A -> result bool) (x : A) (l : list A)
  (e : exn) :
  Obj.insert_r lt x l = Err e -> exists y, lt y x = Err e.
Proof.
  induction l as [|z l IH]; simpl; [discriminate|].
  destruct (lt z x) as [[|]|e'] eqn:Ez; try discriminate.
  - destruct (Obj.insert_r lt x l) as [r|e'']; [discriminate|].
    intros E; injection E as ->. apply IH. reflexivity.
  - intros E; injection E as ->. eauto.
Qed.

Lemma sorted_r_error {A} (lt : A -> A -> result bool) (l : list A)
  (e : exn) :
  Obj.sorted_r lt l = Err e -> exists x y, lt y x = Err e.
Proof.
  induction l as [|x l IH]; simpl; [discriminate|].
  destruct (Obj.sorted_r lt l) as [s|e'].
  - intros E. apply insert_r_error in E. eauto.
  - intros E; injection E as ->. apply IH. reflexivity.
Qed.

Lemma key_lt_error (I : Obj.interp) (x y : Obj.key) (e : exn) :
  Obj.key_lt I x y = Err e -> e = Raise TypeError MsgRuntime.
Proof.
  destruct x, y; simpl; try discriminate;
    try (intros E; injection E as <-; reflexivity);
    repeat match goal with
           | |- context [match ?b with true => _ | false => _ end] =>
               destruct b
           end; simpl; try discriminate.
Qed.

Lemma sort_items_error {A} (I : Obj.interp) (d : list (Obj.key * A))
  (e : exn) :
  Obj.sorted_r (Obj.item_lt I) d = Err e -> e = Raise TypeError MsgRuntime.
Proof.
  intros E. apply sorted_r_error in E. destruct E as (x & y & E).
  exact (key_lt_error I _ _ e E).
Qed.

(** ** The causes, on a list and on a dict *)

Lemma circular_dict (d : list (Obj.key * Obj.pyobj)) :
  Obj.circular (Obj.ODict d) = existsb (fun kv => Obj.circular (snd kv)) d.
Proof.
  induction d as [|[k x] d IH]; [reflexivity|].
  simpl in *. rewrite IH. reflexivity.
Qed.

Lemma long_int_dict (I : Obj.interp) (d : list (Obj.key * Obj.pyobj)) :
  Obj.long_int I (Obj.ODict d)
  = existsb (fun kv => Obj.long_key I (fst kv) || Obj.long_int I (snd kv)) d.
Proof.
  induction d as [|[k x] d IH]; [reflexivity|].
  simpl in *. rewrite IH. reflexivity.
Qed.

Lemma unsupported_dict (sorting : bool) (I : Obj.interp)
  (d : list (Obj.key * Obj.pyobj)) :
  Obj.unsupported sorting I (Obj.ODict d)
  = (sorting && Obj.unorderable I d)
    || existsb (fun kv => Obj.other_key (fst kv)
                          || Obj.unsupported sorting I (snd kv)) d.
Proof.
  simpl. f_equal.
  induction d as [|[k x] d IH]; [reflexivity|].
  simpl in *. rewrite IH. reflexivity.
Qed.

Lemma depth_dict (d : list (Obj.key * Obj.pyobj)) :
  Obj.depth (Obj.ODict d)
  = S (list_max (map (fun kv => Obj.depth (snd kv)) d)).
Proof.
  simpl. f_equal.
  induction d as [|[k x] d IH]; [reflexivity|].
  simpl in *. rewrite IH. reflexivity.
Qed.

(** ** The outcome of the encoder *)

Lemma raised_for_element (sorting : bool) (I : Obj.interp) (b : nat)
  (x : Obj.pyobj) (e : exn) (u c l : bool) (dp : nat) :
  raised_for sorting I b x e ->
  (Obj.unsupported sorting I x = true -> u = true) ->
  (Obj.circular x = true -> c = true) ->
  (Obj.long_int I x = true -> l = true) ->
  (Obj.depth x <= dp)%nat ->
  exn_msg e = MsgRuntime
  /\ match exn_cls e with
     | TypeError => u = true
     | ValueError => c || l = true
     | RecursionError => (S b < S dp)%nat
     | _ => False
     end.
Proof.
  intros [Hmsg Hcls] Hu Hc Hl Hd. split; [exact Hmsg|].
  destruct (exn_cls e); auto; try lia.
  apply orb_true_iff in Hcls. apply orb_true_iff.
  destruct Hcls; [left | right]; auto.
Qed.

Lemma dumps_outcome `{Runtime} (o : json_opts) (I : Obj.interp) :
  forall (budget level : nat) (v : Obj.pyobj),
    match Obj.dumps o I budget level v with
    | Ok _ => encodes (sort_keys o) I budget v
    | Err e => raised_for (sort_keys o) I budget v e
    end.
Proof.
  induction budget as [|b IH]; intros level v;
    (destruct v as [ |bb|z|f|s| |l|d| ];
     [ unfold encodes; simpl; repeat split; auto; lia
     | destruct bb; unfold encodes; simpl; repeat split; auto; lia
     | simpl; unfold Obj.int_str; destruct (Obj.too_long I z) eqn:E;
       unfold encodes, raised_for; simpl;
       [ split; [reflexivity | exact E]
       | repeat split; auto; lia ]
     | unfold encodes; simpl; repeat split; auto; lia
     | unfold encodes; simpl; repeat split; auto; lia
     | unfold raised_for; simpl; split; reflexivity
     | | | ]).
  - (* nothing left to enter *)
    simpl. unfold raised_for. split; [reflexivity|]. simpl. lia.
  - simpl Obj.dumps. unfold raised_for. rewrite depth_dict.
    split; [reflexivity|]. simpl. lia.
  - simpl. unfold raised_for. split; [reflexivity|]. simpl. lia.
  - (* a list *)
    simpl.
    destruct (rmap (Obj.dumps o I b (S level)) l) as [parts|e] eqn:Er.
    + pose proof (rmap_Ok_all _ _ _ Er) as Hall.
      assert (forall x, In x l -> encodes (sort_keys o) I b x) as Hx.
      { intros x Hin. destruct (Hall x Hin) as [s Hs].
        specialize (IH (S level) x). rewrite Hs in IH. exact IH. }
      unfold encodes. simpl. repeat split.
      * apply existsb_false. intros x Hin. apply (Hx x Hin).
      * apply existsb_false. intros x Hin. apply (Hx x Hin).
      * apply existsb_false. intros x Hin. apply (Hx x Hin).
      * apply le_n_S. apply list_max_le. apply Forall_forall.
        intros n Hn. apply in_map_iff in Hn. destruct Hn as (x & <- & Hin).
        apply (Hx x Hin).
    + destruct (rmap_Err_some _ _ _ Er) as (x & Hin & Hfx).
      specialize (IH (S level) x). rewrite Hfx in IH.
      unfold raised_for. simpl Obj.unsupported. simpl Obj.circular.
      simpl Obj.long_int. simpl Obj.depth.
      apply (raised_for_element _ _ _ x e _ _ _ _ IH).
      * apply existsb_true; exact Hin.
      * apply existsb_true; exact Hin.
      * apply existsb_true; exact Hin.
      * apply list_max_ge. apply in_map. exact Hin.
  - (* a dict *)
    simpl Obj.dumps.
    assert (exists items,
              (if sort_keys o then Obj.sorted_r (Obj.item_lt I) d else Ok d)
              = Ok items
              /\ (forall kv, In kv items <-> In kv d)
              /\ sort_keys o && Obj.unorderable I d = false
            \/ exists e,
                 (if sort_keys o then Obj.sorted_r (Obj.item_lt I) d
                  else Ok d) = Err e
                 /\ e = Raise TypeError MsgRuntime
                 /\ sort_keys o && Obj.unorderable I d = true) as Hsort.
    { destruct (sort_keys o).
      - unfold Obj.unorderable.
        destruct (Obj.sorted_r (Obj.item_lt I) d) as [items|e] eqn:Es.
        + exists items. left. split; [reflexivity|]. split; [|reflexivity].
          apply (sorted_r_In _ _ _ Es).
        + exists d. right. exists e. split; [reflexivity|].
          split; [exact (sort_items_error I d e Es) | reflexivity].
      - exists d. left. split; [reflexivity|]. split; [tauto | reflexivity]. }
    destruct Hsort as (items & [(-> & Hin & Hord)|(e & -> & -> & Hord)]).
    2:{ split; [reflexivity|]. simpl exn_cls.
        rewrite unsupported_dict, Hord. reflexivity. }
    match goal with
    | |- context [rmap ?F items] => set (F0 := F)
    end.
    destruct (rmap F0 items) as [rendered|e] eqn:Er.
    + pose proof (rmap_Ok_all _ _ _ Er) as Hall.
      assert (forall kv, In kv d ->
                Obj.other_key (fst kv) = false
                /\ Obj.long_key I (fst kv) = false
                /\ encodes (sort_keys o) I b (snd kv)) as Hx.
      { intros kv Hkv. destruct (Hall kv (proj2 (Hin kv) Hkv)) as [s Hs].
        unfold F0 in Hs.
        destruct (Obj.key_str I (fst kv)) as [k|e] eqn:Ek; [|discriminate].
        specialize (IH (S level) (snd kv)).
        destruct (Obj.dumps o I b (S level) (snd kv)); [|discriminate].
        split; [|split; [|exact IH]].
        - destruct (fst kv); try reflexivity. discriminate.
        - destruct (fst kv); try reflexivity. simpl in Ek |- *.
          unfold Obj.int_str in Ek.
          destruct (Obj.too_long I z); [discriminate | reflexivity]. }
      unfold encodes.
      rewrite unsupported_dict, circular_dict, long_int_dict, depth_dict, Hord.
      repeat split.
      * apply existsb_false. intros kv Hkv.
        destruct (Hx kv Hkv) as (-> & _ & (-> & _)). reflexivity.
      * apply existsb_false. intros kv Hkv. apply (Hx kv Hkv).
      * apply existsb_false. intros kv Hkv.
        destruct (Hx kv Hkv) as (_ & -> & (_ & _ & -> & _)). reflexivity.
      * apply le_n_S. apply list_max_le. apply Forall_forall.
        intros n Hn. apply in_map_iff in Hn. destruct Hn as (kv & <- & Hkv).
        apply (Hx kv Hkv).
    + destruct (rmap_Err_some _ _ _ Er) as (kv & Hkv & Hfx).
      apply Hin in Hkv. unfold F0 in Hfx.
      unfold raised_for.
      rewrite unsupported_dict, circular_dict, long_int_dict, depth_dict, Hord.
      destruct (Obj.key_str I (fst kv)) as [k|e'] eqn:Ek.
      * specialize (IH (S level) (snd kv)).
        destruct (Obj.dumps o I b (S level) (snd kv)) as [s|e'];
          [discriminate|].
        injection Hfx as ->.
        apply (raised_for_element _ _ _ (snd kv) e _ _ _ _ IH).
        -- intros Hu. simpl. apply (existsb_true _ _ kv Hkv).
           rewrite Hu. apply orb_true_r.
        -- intros Hc. apply (existsb_true _ _ kv Hkv). exact Hc.
        -- intros Hl. apply (existsb_true _ _ kv Hkv).
           rewrite Hl. apply orb_true_r.
        -- apply list_max_ge.
           apply (in_map (fun kv => Obj.depth (snd kv))). exact Hkv.
      * injection Hfx as ->. destruct (fst kv) as [s|z|[|]|f| | ] eqn:Efst;
          simpl in Ek; try discriminate.
        -- unfold Obj.int_str in Ek.
           destruct (Obj.too_long I z) eqn:El; [|discriminate].
           injection Ek as <-. split; [reflexivity|]. simpl exn_cls.
           apply orb_true_iff. right.
           apply (existsb_true _ _ kv Hkv). rewrite Efst. simpl.
           rewrite El. reflexivity.
        -- injection Ek as <-. split; [reflexivity|]. simpl exn_cls. simpl.
           apply (existsb_true _ _ kv Hkv). rewrite Efst. reflexivity.
  - (* a list or dict that is being encoded *)
    simpl. unfold raised_for. split; reflexivity.
Qed.

(** ** Keys that can be ordered *)







(** ** The values of the pipeline among the objects *)














(* ------------------------------------------------------------------ *)
(** ** utils.canonical_json_dumps: when it returns and what it raises *)




(* ------------------------------------------------------------------ *)
(** ** utils.sha256_json: when it returns and what it raises *)

Lemma sha256_json_inject `{Runtime} (I : Obj.interp) (x : pyval) :
  Obj.canonical_json_dumps I (Obj.inject x) = canonical_json_dumps x ->
  Obj.sha256_json I (Obj.inject x) = sha256_json x.
Proof.
  intros Heq. unfold Obj.sha256_json, sha256_json. rewrite Heq.
  destruct (canonical_json_dumps x) as [s|e]; cbn [rbind]; [|reflexivity].
  destruct (str_encode s); reflexivity.
Qed.

(** X18. On an object made of [None], [bool], [int], [float], [str],
    lists or tuples, dicts and objects of other types, also one that
    contains itself, [sha256_json] returns the SHA-256 of the UTF-8 bytes
    of the canonical text when [canonical_json_dumps] returns a text that
    UTF-8 can encode.  Otherwise it raises, never a [PipelineError]:
    either what [canonical_json_dumps] raised, a [TypeError],
    [ValueError] or [RecursionError] with its cause in the object, or
    [UnicodeEncodeError] when the canonical text, which keeps non-ASCII
    characters as they are, holds a code point UTF-8 cannot encode.  A
    string with a lone surrogate is such an object.  On a value of the
    pipeline on which the two encoders agree, [sha256_json] is the
    function the pipeline calls. *)
Theorem sha256_json_outcome `{Runtime} (I : Obj.interp) (v : Obj.pyobj) :
  match Obj.sha256_json I v with
  | Ok h =>
      exists s b,
        Obj.canonical_json_dumps I v = Ok s /\ encodable s = true
        /\ str_encode s = Ok b /\ h = sha256_bytes b
  | Err e =>
      pipeline_error e = false
      /\ ((Obj.canonical_json_dumps I v = Err e
           /\ In (exn_cls e) [TypeError; ValueError; RecursionError]
           /\ raised_for true I (Obj.recursion_limit I) v e)
          \/ (exists s,
                Obj.canonical_json_dumps I v = Ok s /\ encodable s = false
                /\ e = Raise UnicodeEncodeError MsgRuntime))
  end
  /\ (forall s,
        existsb is_surrogate s = true ->
        Obj.canonical_json_dumps I (Obj.OStr s) = Ok (json_string false s)
        /\ Obj.sha256_json I (Obj.OStr s)
           = Err (Raise UnicodeEncodeError MsgRuntime))
  /\ (forall x : pyval,
        Obj.canonical_json_dumps I (Obj.inject x) = canonical_json_dumps x ->
        Obj.sha256_json I (Obj.inject x) = sha256_json x).
Proof.
  split; [|split].
  - unfold Obj.sha256_json, Obj.canonical_json_dumps.
    pose proof (dumps_outcome canonical_opts I (Obj.recursion_limit I) 0 v)
      as Hout.
    destruct (Obj.dumps canonical_opts I (Obj.recursion_limit I) 0 v)
      as [s|e].
    + pose proof (str_encode_encodable s) as Hs.
      destruct (str_encode s) as [b|e] eqn:Eb.
      * exists s, b. repeat split; auto.
      * destruct Hs as [Hs ->]. split; [reflexivity|].
        right. exists s. repeat split; auto.
    + assert (pipeline_error e = false
              /\ In (exn_cls e) [TypeError; ValueError; RecursionError])
        as [Hp Hin].
      { destruct Hout as [_ Hcls]. destruct e as [c m]. simpl in *.
        destruct c; try contradiction; split; simpl; auto. }
      split; [exact Hp|]. left. split; [reflexivity|]. split; auto.
  - intros s Hs.
    assert (Obj.canonical_json_dumps I (Obj.OStr s)
            = Ok (json_string false s)) as Hd.
    { unfold Obj.canonical_json_dumps.
      destruct (Obj.recursion_limit I); reflexivity. }
    split; [exact Hd|]. unfold Obj.sha256_json. rewrite Hd.
    pose proof (str_encode_encodable (json_string false s)) as He.
    rewrite (json_string_surrogate s Hs) in He.
    destruct (str_encode (json_string false s)); [discriminate|].
    destruct He as [_ ->]. reflexivity.
  - intros x. apply sha256_json_inject.
Qed.

Example sha256_json_outcome_witness :
  @Obj.canonical_json_dumps Sample.runtime sample_interp
    (Obj.OStr [0x61; 0xD800])
  = Ok (json_string false [0x61; 0xD800])
  /\ @Obj.sha256_json Sample.runtime sample_interp (Obj.OStr [0x61; 0xD800])
     = Err (Raise UnicodeEncodeError MsgRuntime).
Proof.
  apply (proj1 (proj2 (@sha256_json_outcome Sample.runtime sample_interp
                         Obj.ONone)) [0x61; 0xD800]).
  reflexivity.
Defined.
